(** * RAG chatbot: relational log store, resource cache, ingestion and
      document-lifecycle coordination

    A shallow embedding of [rag_app/utils/db_utils.py],
    [rag_app/utils/chroma_utils.py], [rag_app/utils/langchain_utils.py], the
    upload / delete flows of [rag_app/app/sidebar.py] and the handling of a
    prompt in [rag_app/app/chat_interface.py].

    Python code that threads effects (the SQLite file, the Streamlit
    resource caches, the Chroma collection, the file system, the log) is
    written in a state-and-exception monad over one [World].  Whatever the
    outside world decides (a connection that cannot be opened, a constructor
    that raises, what a loader returns) is an explicit argument of the
    function that meets it. *)

From Stdlib Require Import ZArith List Bool Lia Ascii String.
From stdpp Require Import base gmap strings list sorting pretty.

Open Scope string_scope.
Open Scope list_scope.

(** * The model *)

(** ** Python exceptions *)

(** The exception classes the code raises or catches.  [ConnectionError] is
    the builtin (a subclass of [OSError]); the two [sqlite3_*] classes are the
    subclasses of [sqlite3.Error] the code can meet.  [OverflowError] is what
    the [sqlite3] module raises for a parameter that does not fit a 64-bit
    integer; it is no [sqlite3.Error]. *)
Inductive exn :=
| ValueError
| RuntimeError
| AttributeError
| OverflowError
| OSError
| ConnectionError
| sqlite3_IntegrityError
| sqlite3_OperationalError
| RAGChainInitializationError
| OtherException.

#[global] Instance exn_eq_dec : EqDecision exn.
Proof. solve_decision. Defined.

(** [isinstance(e, sqlite3.Error)] *)
Definition is_sqlite3_Error (e : exn) : bool :=
  match e with
  | sqlite3_IntegrityError | sqlite3_OperationalError => true
  | _ => false
  end.

(** [isinstance(e, sqlite3.IntegrityError)] *)
Definition is_sqlite3_IntegrityError (e : exn) : bool :=
  match e with sqlite3_IntegrityError => true | _ => false end.

(** [isinstance(e, OSError)]: [ConnectionError] derives from [OSError]. *)
Definition is_OSError (e : exn) : bool :=
  match e with OSError | ConnectionError => true | _ => false end.

(** [isinstance(e, ValueError)] *)
Definition is_ValueError (e : exn) : bool :=
  match e with ValueError => true | _ => false end.

(** [isinstance(e, RAGChainInitializationError)] *)
Definition is_RAGChainInitializationError (e : exn) : bool :=
  match e with RAGChainInitializationError => true | _ => false end.

(** [isinstance(e, Exception)] *)
Definition is_Exception (e : exn) : bool := true.

Inductive result (A : Type) :=
| Ok (a : A)
| Raise (e : exn).
Arguments Ok {A} a.
Arguments Raise {A} e.

(** ** Data *)

(** A row of [application_logs]; [log_created_at] is the
    [DEFAULT CURRENT_TIMESTAMP] column. *)
Record LogRow := {
  log_session_id : string;
  log_user_query : string;
  log_gpt_response : string;
  log_model : string;
  log_created_at : nat
}.

(** A row of [document_store]. *)
Record DocRow := {
  doc_id : nat;
  doc_filename : string;
  doc_upload_timestamp : nat
}.

(** The SQLite file: a table is [None] until [CREATE TABLE] has run.  Rows are
    kept in rowid order.  [document_seq] is the largest rowid
    [document_store] ever handed out ([AUTOINCREMENT]). *)
Record Db := {
  application_logs : option (list LogRow);
  document_store : option (list DocRow);
  document_seq : nat
}.

(** One entry of the list [get_chat_history] returns. *)
Inductive Role := user | assistant.

Record Message := {
  role : Role;
  content : string
}.

#[global] Instance Role_eq_dec : EqDecision Role.
Proof. solve_decision. Defined.
#[global] Instance Message_eq_dec : EqDecision Message.
Proof. solve_decision. Defined.
#[global] Instance DocRow_eq_dec : EqDecision DocRow.
Proof. solve_decision. Defined.

(** [(nomic_api_key, model, dimensionality)]: the hashed arguments of
    [get_embedding_function]. *)
Definition EmbKey : Type := string * string * option Z.

(** A [NomicEmbeddings] object; [emb_obj] is its identity ([id(...)]). *)
Record Embeddings := {
  emb_obj : nat;
  emb_model : string;
  emb_dimensionality : option Z
}.

(** A [Chroma] handle.  [vs_collection] is the truth value of
    [hasattr(vs, '_collection') and vs._collection].  [vs_len] says whether
    the class of the handle defines [__len__]: [langchain_community]'s
    [Chroma] does (the count of the collection), and which of the two the
    installed [langchain_chroma] gives is not fixed by the repository. *)
Record Chroma := {
  vs_obj : nat;
  vs_embedding_function : Embeddings;
  vs_collection : bool;
  vs_len : bool
}.

(** [(model, nomic_api_key, groq_api_key)]: the hashed arguments of
    [get_cached_rag_chain]. *)
Definition ChainKey : Type := string * string * string.

(** The chain object [create_retrieval_chain] returns. *)
Record RagChain := {
  chain_obj : nat;
  chain_model : string;
  chain_vectorstore : Chroma
}.

(** A langchain [Document]. *)
Record Document := {
  page_content : string;
  metadata : gmap string string
}.

(** The three [st.cache_resource] stores.  [get_vector_store] has one
    parameter, [_embedding_function]; Streamlit does not hash a parameter
    whose name starts with an underscore, so its store is keyed by nothing. *)
Record Caches := {
  embedding_cache : gmap EmbKey (option Embeddings);
  vector_store_cache : gmap () (option Chroma);
  rag_chain_cache : gmap ChainKey (option RagChain)
}.

(** ** The observable trace *)

Inductive Level := DEBUG | INFO | WARNING | ERROR | CRITICAL.

(** The body of an application function starts to run. *)
Inductive Call :=
| c_initialize_database
| c_get_db_connection
| c_insert_application_logs (session_id : string)
| c_get_chat_history (session_id : string)
| c_insert_document_record (filename : string)
| c_delete_document_record (file_id : nat)
| c_get_all_documents
| c_get_embedding_function (k : EmbKey)
| c_get_vector_store
| c_get_cached_rag_chain (k : ChainKey)
| c_load_and_split_document (file_path : string)
| c_index_document_to_chroma (file_path : string) (file_id : nat)
| c_delete_doc_from_chroma (file_id : nat).

(** A call that leaves the application. *)
Inductive LibCall :=
| l_makedirs (path : string)
| l_sqlite3_connect
| l_create_table (name : string)
| l_NomicEmbeddings (model : string) (dimensionality : option Z)
| l_Chroma
| l_loader_load (file_path : string)
| l_add_documents (n : nat)
| l_collection_delete (file_id_str : string)
| l_as_retriever
| l_ChatGroq (model : string)
| l_invoke (input : string)
| l_os_remove (path : string).

(** What the application code does, in order: the functions whose body runs,
    the calls into libraries, the log records of level [WARNING] and above
    ([logger.info] and [logger.debug] are left out), the messages shown with
    [st.error] / [st.sidebar.error], [st.warning] and [st.sidebar.success],
    and the chat messages shown with [st.markdown]. *)
Inductive Event :=
| Enter (c : Call)
| Lib (l : LibCall)
| Logged (lvl : Level)
| StError
| StWarning
| StSuccess
| Displayed (m : Message).

#[global] Instance Call_eq_dec : EqDecision Call.
Proof. solve_decision. Defined.
#[global] Instance LibCall_eq_dec : EqDecision LibCall.
Proof. solve_decision. Defined.
#[global] Instance Level_eq_dec : EqDecision Level.
Proof. solve_decision. Defined.
#[global] Instance Event_eq_dec : EqDecision Event.
Proof. solve_decision. Defined.

(** ** The world *)

Record World := {
  (** [db_utils._db_initialized] *)
  db_initialized : bool;
  (** [data/rag_app.db] *)
  database : Db;
  (** the wall clock [CURRENT_TIMESTAMP] reads, in seconds *)
  clock : nat;
  (** paths that exist (files and directories) *)
  files : gset string;
  caches : Caches;
  (** the next unused Python object identity *)
  next_object : nat;
  (** the chunks held by the Chroma collection under [data/chroma_db] *)
  collection : list Document;
  trace : list Event;
  (** module constants of [chroma_utils], fixed at import *)
  NomicEmbeddingsType : bool;
  NOMIC_MODEL_NAME : string;
  NOMIC_DIMENSIONALITY : option Z
}.

Definition set_db_initialized (b : bool) (w : World) : World :=
  {| db_initialized := b; database := database w; clock := clock w;
     files := files w; caches := caches w; next_object := next_object w;
     collection := collection w; trace := trace w;
     NomicEmbeddingsType := NomicEmbeddingsType w;
     NOMIC_MODEL_NAME := NOMIC_MODEL_NAME w;
     NOMIC_DIMENSIONALITY := NOMIC_DIMENSIONALITY w |}.

Definition set_database (d : Db) (w : World) : World :=
  {| db_initialized := db_initialized w; database := d; clock := clock w;
     files := files w; caches := caches w; next_object := next_object w;
     collection := collection w; trace := trace w;
     NomicEmbeddingsType := NomicEmbeddingsType w;
     NOMIC_MODEL_NAME := NOMIC_MODEL_NAME w;
     NOMIC_DIMENSIONALITY := NOMIC_DIMENSIONALITY w |}.

Definition set_clock (t : nat) (w : World) : World :=
  {| db_initialized := db_initialized w; database := database w; clock := t;
     files := files w; caches := caches w; next_object := next_object w;
     collection := collection w; trace := trace w;
     NomicEmbeddingsType := NomicEmbeddingsType w;
     NOMIC_MODEL_NAME := NOMIC_MODEL_NAME w;
     NOMIC_DIMENSIONALITY := NOMIC_DIMENSIONALITY w |}.

Definition set_files (fs : gset string) (w : World) : World :=
  {| db_initialized := db_initialized w; database := database w;
     clock := clock w; files := fs; caches := caches w;
     next_object := next_object w; collection := collection w;
     trace := trace w;
     NomicEmbeddingsType := NomicEmbeddingsType w;
     NOMIC_MODEL_NAME := NOMIC_MODEL_NAME w;
     NOMIC_DIMENSIONALITY := NOMIC_DIMENSIONALITY w |}.

Definition set_caches (c : Caches) (w : World) : World :=
  {| db_initialized := db_initialized w; database := database w;
     clock := clock w; files := files w; caches := c;
     next_object := next_object w; collection := collection w;
     trace := trace w;
     NomicEmbeddingsType := NomicEmbeddingsType w;
     NOMIC_MODEL_NAME := NOMIC_MODEL_NAME w;
     NOMIC_DIMENSIONALITY := NOMIC_DIMENSIONALITY w |}.

Definition set_next_object (n : nat) (w : World) : World :=
  {| db_initialized := db_initialized w; database := database w;
     clock := clock w; files := files w; caches := caches w;
     next_object := n; collection := collection w; trace := trace w;
     NomicEmbeddingsType := NomicEmbeddingsType w;
     NOMIC_MODEL_NAME := NOMIC_MODEL_NAME w;
     NOMIC_DIMENSIONALITY := NOMIC_DIMENSIONALITY w |}.

Definition set_collection (c : list Document) (w : World) : World :=
  {| db_initialized := db_initialized w; database := database w;
     clock := clock w; files := files w; caches := caches w;
     next_object := next_object w; collection := c; trace := trace w;
     NomicEmbeddingsType := NomicEmbeddingsType w;
     NOMIC_MODEL_NAME := NOMIC_MODEL_NAME w;
     NOMIC_DIMENSIONALITY := NOMIC_DIMENSIONALITY w |}.

Definition set_trace (t : list Event) (w : World) : World :=
  {| db_initialized := db_initialized w; database := database w;
     clock := clock w; files := files w; caches := caches w;
     next_object := next_object w; collection := collection w; trace := t;
     NomicEmbeddingsType := NomicEmbeddingsType w;
     NOMIC_MODEL_NAME := NOMIC_MODEL_NAME w;
     NOMIC_DIMENSIONALITY := NOMIC_DIMENSIONALITY w |}.

(** ** The monad: state and Python exceptions *)

Definition M (A : Type) : Type := World -> result A * World.

Definition ret {A} (a : A) : M A := fun w => (Ok a, w).

Definition raise {A} (e : exn) : M A := fun w => (Raise e, w).

Definition bind {A B} (c : M A) (k : A -> M B) : M B :=
  fun w =>
    match c w with
    | (Ok a, w') => k a w'
    | (Raise e, w') => (Raise e, w')
    end.

Declare Scope py_scope.
Delimit Scope py_scope with py.
Notation "x <- c1 ;; c2" := (bind c1 (fun x => c2))
  (at level 100, c1 at next level, c2 at level 200, right associativity)
  : py_scope.
Notation "c1 ;; c2" := (bind c1 (fun _ => c2))
  (at level 100, c2 at level 200, right associativity) : py_scope.
Open Scope py_scope.

(** One [except] clause: the class test and the handler. *)
Definition Clause (A : Type) : Type := (exn -> bool) * (exn -> M A).

(** The first clause whose class matches handles the exception; with none,
    it propagates. *)
Fixpoint dispatch {A} (cs : list (Clause A)) (e : exn) : M A :=
  match cs with
  | [] => raise e
  | (p, h) :: cs' => if p e then h e else dispatch cs' e
  end.

(** [try: body except ...: ...] *)
Definition try_except {A} (body : M A) (cs : list (Clause A)) : M A :=
  fun w =>
    match body w with
    | (Ok a, w') => (Ok a, w')
    | (Raise e, w') => dispatch cs e w'
    end.

(** [try: body finally: fin]: [fin] runs on every exit of [body]; an
    exception of [body] is re-raised after it. *)
Definition try_finally {A} (body : M A) (fin : M unit) : M A :=
  fun w =>
    match body w with
    | (r, w') =>
        match fin w' with
        | (Ok _, w'') => (r, w'')
        | (Raise e, w'') => (Raise e, w'')
        end
    end.

Definition get {A} (f : World -> A) : M A := fun w => (Ok (f w), w).

Definition modify (f : World -> World) : M unit := fun w => (Ok tt, f w).

Definition emit (e : Event) : M unit :=
  modify (fun w => set_trace (trace w ++ [e]) w).

(** Time passing between two operations. *)
Definition elapse (d : nat) : M unit :=
  modify (fun w => set_clock (clock w + d) w).

(** The wall clock is set between two operations (by the time service, by an
    administrator, by a restored snapshot): it may then read an earlier time
    than it did before. *)
Definition set_wall_clock (t : nat) : M unit := modify (set_clock t).

(** Python truth values *)
Definition truthy_str (s : string) : bool :=
  match s with EmptyString => false | _ => true end.

Definition truthy_int (n : nat) : bool :=
  match n with O => false | _ => true end.

(** ** Reading a computation *)

Definition outcome {A} (c : M A) (w : World) : result A := fst (c w).

Definition after {A} (c : M A) (w : World) : World := snd (c w).

(** ** [ORDER BY]: a stable sort *)

Section Sort.
Context {A : Type} (le : A -> A -> bool).

Fixpoint insert_sorted (x : A) (l : list A) : list A :=
  match l with
  | [] => [x]
  | y :: l' => if le x y then x :: l else y :: insert_sorted x l'
  end.

(** Rows with equal keys keep the order of the scan (the rowid order), as
    SQLite's sorter leaves them. *)
Definition order_by (l : list A) : list A := foldr insert_sorted [] l.

End Sort.

(** ** [rag_app/utils/db_utils.py] *)

Definition DB_DIR : string := "data".

(** What the SQLite library does on one call of a [db_utils] function:
    nothing unusual, [sqlite3.connect] (or the [PRAGMA] after it) raises
    [sqlite3.Error], or the statement (or the commit that ends the [with]
    block) raises a [sqlite3.Error] that is not a constraint violation. *)
Inductive SqlFault := NoFault | ConnectFault | StmtFault.

#[global] Instance SqlFault_eq_dec : EqDecision SqlFault.
Proof. solve_decision. Defined.

Definition sqlite3_connect (f : SqlFault) : M unit :=
  emit (Lib l_sqlite3_connect) ;;
  match f with
  | ConnectFault => raise sqlite3_OperationalError
  | _ => ret tt
  end.

(** [get_db_connection]: a [sqlite3.Error] of the connection attempt is
    logged and re-raised as the builtin [ConnectionError]. *)
Definition get_db_connection (f : SqlFault) : M unit :=
  emit (Enter c_get_db_connection) ;;
  try_except (sqlite3_connect f)
    [ (is_sqlite3_Error,
       fun _ => emit (Logged ERROR) ;; raise ConnectionError) ].

(** [CREATE TABLE IF NOT EXISTS application_logs (...)] *)
Definition create_application_logs (d : Db) : Db :=
  {| application_logs :=
       match application_logs d with Some t => Some t | None => Some [] end;
     document_store := document_store d;
     document_seq := document_seq d |}.

(** [CREATE TABLE IF NOT EXISTS document_store (...)] *)
Definition create_document_store (d : Db) : Db :=
  {| application_logs := application_logs d;
     document_store :=
       match document_store d with Some t => Some t | None => Some [] end;
     document_seq := document_seq d |}.

(** What the outside world does on one call of [_initialize_database]. *)
Inductive InitFault :=
| InitNoFault
| MakedirsFault
| InitConnectFault
| CreateLogsFault
| CreateDocsFault.

Definition os_makedirs_exist_ok (path : string) (fails : bool) : M unit :=
  emit (Lib (l_makedirs path)) ;;
  if fails then raise OSError
  else modify (fun w => set_files ({[ path ]} ∪ files w) w).

Definition execute_create (name : string) (fails : bool)
    (create : Db -> Db) : M unit :=
  emit (Lib (l_create_table name)) ;;
  if fails then raise sqlite3_OperationalError
  else modify (fun w => set_database (create (database w)) w).

(** [_initialize_database].  The two [CREATE TABLE] statements run in
    autocommit mode (the [sqlite3] module opens a transaction only before
    [INSERT], [UPDATE], [DELETE] and [REPLACE]), so the first one stays when
    the second one raises. *)
Definition _initialize_database (f : InitFault) : M unit :=
  initialized <- get db_initialized ;;
  if initialized then ret tt
  else
    try_except
      (emit (Enter c_initialize_database) ;;
       os_makedirs_exist_ok DB_DIR
         (match f with MakedirsFault => true | _ => false end) ;;
       get_db_connection
         (match f with InitConnectFault => ConnectFault | _ => NoFault end) ;;
       execute_create "application_logs"
         (match f with CreateLogsFault => true | _ => false end)
         create_application_logs ;;
       execute_create "document_store"
         (match f with CreateDocsFault => true | _ => false end)
         create_document_store ;;
       modify (set_db_initialized true))
      [ (is_sqlite3_Error,
         fun _ => emit (Logged CRITICAL) ;; raise RuntimeError);
        (is_OSError,
         fun _ => emit (Logged CRITICAL) ;; raise RuntimeError);
        (is_Exception,
         fun _ => emit (Logged CRITICAL) ;; raise RuntimeError) ].

Definition ensure_db_initialized (f : InitFault) : M unit :=
  _initialize_database f.

(** [INSERT INTO application_logs (session_id, user_query, gpt_response,
    model) VALUES (?, ?, ?, ?)]; [created_at] defaults to the clock. *)
Definition execute_insert_log (f : SqlFault)
    (session_id user_query gpt_response model : string) : M unit :=
  w <- get id ;;
  match f, application_logs (database w) with
  | NoFault, Some rows =>
      let row := {| log_session_id := session_id;
                    log_user_query := user_query;
                    log_gpt_response := gpt_response;
                    log_model := model;
                    log_created_at := clock w |} in
      modify (set_database
                {| application_logs := Some (rows ++ [row]);
                   document_store := document_store (database w);
                   document_seq := document_seq (database w) |})
  | _, _ => raise sqlite3_OperationalError
  end.

Definition insert_application_logs (f : SqlFault)
    (session_id user_query gpt_response model : string) : M unit :=
  emit (Enter (c_insert_application_logs session_id)) ;;
  try_except
    (get_db_connection f ;;
     execute_insert_log f session_id user_query gpt_response model)
    [ (is_sqlite3_Error, fun _ => emit (Logged ERROR)) ].

(** [SELECT user_query, gpt_response FROM application_logs
     WHERE session_id = ? ORDER BY created_at] *)
Definition execute_select_history (f : SqlFault) (session_id : string)
    : M (list LogRow) :=
  w <- get id ;;
  match f, application_logs (database w) with
  | NoFault, Some rows =>
      ret (order_by (fun a b => log_created_at a <=? log_created_at b)%nat
             (filter (fun r => log_session_id r = session_id) rows))
  | _, _ => raise sqlite3_OperationalError
  end.

(** The body of the [for row in cursor.fetchall()] loop. *)
Definition row_messages (r : LogRow) : list Message :=
  (if truthy_str (log_user_query r)
   then [ {| role := user; content := log_user_query r |} ] else [])
  ++
  (if truthy_str (log_gpt_response r)
   then [ {| role := assistant; content := log_gpt_response r |} ] else []).

Definition get_chat_history (f : SqlFault) (session_id : string)
    : M (list Message) :=
  emit (Enter (c_get_chat_history session_id)) ;;
  try_except
    (get_db_connection f ;;
     rows <- execute_select_history f session_id ;;
     ret (concat (map row_messages rows)))
    [ (is_sqlite3_Error, fun _ => emit (Logged ERROR) ;; ret []) ].

(** [INSERT INTO document_store (filename) VALUES (?)]: [filename] is
    [UNIQUE]; the new id is one more than the largest ever used. *)
Definition execute_insert_document (f : SqlFault) (filename : string)
    : M nat :=
  w <- get id ;;
  match f, document_store (database w) with
  | NoFault, Some rows =>
      if bool_decide (filename ∈ map doc_filename rows)
      then raise sqlite3_IntegrityError
      else
        let file_id := S (document_seq (database w)) in
        let row := {| doc_id := file_id;
                      doc_filename := filename;
                      doc_upload_timestamp := clock w |} in
        modify (set_database
                  {| application_logs := application_logs (database w);
                     document_store := Some (rows ++ [row]);
                     document_seq := file_id |}) ;;
        ret file_id
  | _, _ => raise sqlite3_OperationalError
  end.

Definition insert_document_record (f : SqlFault) (filename : string)
    : M nat :=
  emit (Enter (c_insert_document_record filename)) ;;
  try_except
    (get_db_connection f ;;
     execute_insert_document f filename)
    [ (is_sqlite3_IntegrityError,
       fun _ => emit (Logged WARNING) ;; raise ValueError);
      (is_sqlite3_Error,
       fun _ => emit (Logged ERROR) ;; raise RuntimeError) ].

(** A Python [int] the [sqlite3] module can bind to a [?]: it fits a signed
    64-bit integer. *)
Definition fits_int64 (n : nat) : bool := (N.of_nat n <? 2 ^ 63)%N.

(** [DELETE FROM document_store WHERE id = ?]; the result is
    [cursor.rowcount].  [cursor.execute] compiles the statement (without the
    table: [sqlite3.OperationalError]), then binds [file_id] (when it does
    not fit 64 bits: [OverflowError]), then runs the statement. *)
Definition execute_delete_document (f : SqlFault) (file_id : nat) : M nat :=
  w <- get id ;;
  match document_store (database w) with
  | None => raise sqlite3_OperationalError
  | Some rows =>
      if negb (fits_int64 file_id) then raise OverflowError
      else
        match f with
        | NoFault =>
            modify (set_database
                      {| application_logs := application_logs (database w);
                         document_store :=
                           Some (filter (fun r => doc_id r ≠ file_id) rows);
                         document_seq := document_seq (database w) |}) ;;
            ret (length (filter (fun r => doc_id r = file_id) rows))
        | _ => raise sqlite3_OperationalError
        end
  end.

Definition delete_document_record (f : SqlFault) (file_id : nat) : M bool :=
  emit (Enter (c_delete_document_record file_id)) ;;
  try_except
    (get_db_connection f ;;
     rowcount <- execute_delete_document f file_id ;;
     if (0 <? rowcount)%nat then ret true
     else emit (Logged WARNING) ;; ret true)
    [ (is_sqlite3_Error, fun _ => emit (Logged ERROR) ;; ret false) ].

(** [SELECT id, filename, upload_timestamp FROM document_store
     ORDER BY upload_timestamp DESC] *)
Definition execute_select_documents (f : SqlFault) : M (list DocRow) :=
  w <- get id ;;
  match f, document_store (database w) with
  | NoFault, Some rows =>
      ret (order_by
             (fun a b => doc_upload_timestamp b <=? doc_upload_timestamp a)%nat
             rows)
  | _, _ => raise sqlite3_OperationalError
  end.

Definition get_all_documents (f : SqlFault) : M (list DocRow) :=
  emit (Enter c_get_all_documents) ;;
  try_except
    (get_db_connection f ;;
     execute_select_documents f)
    [ (is_sqlite3_Error, fun _ => emit (Logged ERROR) ;; ret []) ].

(** ** [rag_app/utils/chroma_utils.py] *)

(** What a constructor or a call of a third-party library does. *)
Inductive Outcome := Succeeds | Fails (e : exn).

(** [@st.cache_resource]: a stored value is returned without running the
    body; otherwise the body runs and the value it returns, whatever it is
    ([None] included), is stored under the key.  A body that raises stores
    nothing.  (On a hit Streamlit shows again the messages the body had
    displayed; the trace records what the application code runs.) *)
Definition cache_resource {K V : Type} `{Countable K}
    (store : Caches -> gmap K V) (put : gmap K V -> Caches -> Caches)
    (k : K) (body : M V) : M V :=
  w <- get id ;;
  match store (caches w) !! k with
  | Some v => ret v
  | None =>
      v <- body ;;
      modify (fun w' =>
                set_caches (put (<[ k := v ]> (store (caches w'))) (caches w'))
                  w') ;;
      ret v
  end.

Definition put_embedding_cache (m : gmap EmbKey (option Embeddings))
    (c : Caches) : Caches :=
  {| embedding_cache := m; vector_store_cache := vector_store_cache c;
     rag_chain_cache := rag_chain_cache c |}.

Definition put_vector_store_cache (m : gmap () (option Chroma))
    (c : Caches) : Caches :=
  {| embedding_cache := embedding_cache c; vector_store_cache := m;
     rag_chain_cache := rag_chain_cache c |}.

Definition put_rag_chain_cache (m : gmap ChainKey (option RagChain))
    (c : Caches) : Caches :=
  {| embedding_cache := embedding_cache c;
     vector_store_cache := vector_store_cache c; rag_chain_cache := m |}.

(** A new Python object: its identity is the next unused one. *)
Definition new_object : M nat :=
  n <- get next_object ;;
  modify (set_next_object (S n)) ;;
  ret n.

(** [NomicEmbeddings(model=model, dimensionality=dimensionality)] *)
Definition NomicEmbeddings (o : Outcome) (model : string)
    (dimensionality : option Z) : M Embeddings :=
  emit (Lib (l_NomicEmbeddings model dimensionality)) ;;
  match o with
  | Succeeds =>
      n <- new_object ;;
      ret {| emb_obj := n; emb_model := model;
             emb_dimensionality := dimensionality |}
  | Fails e => raise e
  end.

(** The body of [get_embedding_function].  (It also writes the key to
    [os.environ]; nothing modelled here reads it back.) *)
Definition get_embedding_function_body (o : Outcome) (k : EmbKey)
    : M (option Embeddings) :=
  let '(nomic_api_key, model, dimensionality) := k in
  emit (Enter (c_get_embedding_function k)) ;;
  imported <- get NomicEmbeddingsType ;;
  if negb imported then
    emit (Logged ERROR) ;; emit StError ;; ret None
  else if negb (truthy_str nomic_api_key) then
    emit (Logged WARNING) ;; ret None
  else
    try_except
      (embeddings <- NomicEmbeddings o model dimensionality ;;
       ret (Some embeddings))
      [ (is_ValueError,
         fun _ => emit (Logged ERROR) ;; emit StError ;; ret None);
        (is_Exception,
         fun _ => emit (Logged ERROR) ;; emit StError ;; ret None) ].

Definition get_embedding_function (o : Outcome) (k : EmbKey)
    : M (option Embeddings) :=
  cache_resource embedding_cache put_embedding_cache k
    (get_embedding_function_body o k).

Definition persist_directory : string := "data/chroma_db".

(** What the outside world does inside the [try] of [get_vector_store]:
    [os.makedirs] when it is called, the [Chroma] constructor (with the read
    of the collection name after it), whether the handle it builds has a
    usable [_collection], and whether its class defines [__len__]. *)
Record ChromaOutcome := {
  co_makedirs : Outcome;
  co_constructor : Outcome;
  co_collection : bool;
  co_len : bool
}.

(** [os.makedirs(persist_directory)]: the directory and its parent. *)
Definition os_makedirs_persist (o : Outcome) : M unit :=
  emit (Lib (l_makedirs persist_directory)) ;;
  match o with
  | Succeeds =>
      modify (fun w =>
                set_files ({[ DB_DIR; persist_directory ]} ∪ files w) w)
  | Fails e => raise e
  end.

(** [Chroma(persist_directory=..., embedding_function=...)] *)
Definition Chroma_ctor (o : ChromaOutcome) (emb : Embeddings) : M Chroma :=
  emit (Lib l_Chroma) ;;
  match co_constructor o with
  | Succeeds =>
      n <- new_object ;;
      ret {| vs_obj := n; vs_embedding_function := emb;
             vs_collection := co_collection o; vs_len := co_len o |}
  | Fails e => raise e
  end.

Definition get_vector_store_body (o : ChromaOutcome)
    (_embedding_function : option Embeddings) : M (option Chroma) :=
  emit (Enter c_get_vector_store) ;;
  match _embedding_function with
  | None => emit (Logged ERROR) ;; ret None
  | Some emb =>
      try_except
        (present <- get (fun w => bool_decide (persist_directory ∈ files w)) ;;
         (if present then ret tt else os_makedirs_persist (co_makedirs o)) ;;
         vs <- Chroma_ctor o emb ;;
         ret (Some vs))
        [ (is_Exception,
           fun _ => emit (Logged ERROR) ;; emit StError ;; ret None) ]
  end.

(** The only parameter is not hashed: every call uses the key [()]. *)
Definition get_vector_store (o : ChromaOutcome)
    (_embedding_function : option Embeddings) : M (option Chroma) :=
  cache_resource vector_store_cache put_vector_store_cache ()
    (get_vector_store_body o _embedding_function).

(** [bool(vs)] for a handle.  An object whose class defines neither
    [__bool__] nor [__len__] is truthy.  With [__len__] defined as
    [self._collection.count()], a handle on an empty collection is falsy, and
    a handle without a collection has nothing to count. *)
Definition truthy_Chroma (vs : Chroma) : M bool :=
  if vs_len vs then
    if vs_collection vs then
      chunks <- get collection ;;
      ret (match chunks with [] => false | _ :: _ => true end)
    else raise AttributeError
  else ret true.

(** [bool(vs)] for what [get_vector_store] returns. *)
Definition truthy_vs (vs : option Chroma) : M bool :=
  match vs with
  | Some vs => truthy_Chroma vs
  | None => ret false
  end.

(** The f-string of the [logger.debug] call is built whatever the log level:
    it evaluates [bool(vs)]. *)
Definition is_vectorstore_ready (oe : Outcome) (oc : ChromaOutcome)
    (nomic_api_key : string) : M bool :=
  model <- get NOMIC_MODEL_NAME ;;
  dimensionality <- get NOMIC_DIMENSIONALITY ;;
  emb_func <- get_embedding_function oe
                (nomic_api_key, model, dimensionality) ;;
  vs <- get_vector_store oc emb_func ;;
  let is_ready_now := bool_decide (emb_func ≠ None) && bool_decide (vs ≠ None) in
  truthy_vs vs ;;
  ret is_ready_now.

(** *** [os.path.splitext(p)[1].lower()] *)

(** The characters after the last [c], if [c] occurs. *)
Fixpoint after_last (c : ascii) (l : list ascii) : option (list ascii) :=
  match l with
  | [] => None
  | x :: l' =>
      match after_last c l' with
      | Some r => Some r
      | None => if bool_decide (x = c) then Some l' else None
      end
  end.

Fixpoint skip_leading (c : ascii) (l : list ascii) : list ascii :=
  match l with
  | [] => []
  | x :: l' => if bool_decide (x = c) then skip_leading c l' else l
  end.

(** The extension of [posixpath.splitext]: from the last dot of the last
    path component, leading dots of that component not counting. *)
Definition splitext_ext (p : string) : string :=
  let chars := String.list_ascii_of_string p in
  let base := default chars (after_last "/"%char chars) in
  match after_last "."%char (skip_leading "."%char base) with
  | Some r => String.string_of_list_ascii ("."%char :: r)
  | None => ""
  end.

Definition lower_ascii (c : ascii) : ascii :=
  let n := Ascii.N_of_ascii c in
  if ((65 <=? n) && (n <=? 90))%N then Ascii.ascii_of_N (n + 32) else c.

Fixpoint lower (s : string) : string :=
  match s with
  | EmptyString => EmptyString
  | String c s' => String (lower_ascii c) (lower s')
  end.

(** What the loader and the splitter give for a file of a supported type. *)
Inductive LoadOutcome :=
| Loaded (splits : list Document)
| LoadFault (e : exn).

Definition load_and_split_document (o : LoadOutcome) (file_path : string)
    : M (list Document) :=
  emit (Enter (c_load_and_split_document file_path)) ;;
  try_except
    (let ext := lower (splitext_ext file_path) in
     (if bool_decide (ext = ".pdf") || bool_decide (ext = ".docx")
         || bool_decide (ext = ".html")
      then ret tt
      else emit (Logged ERROR) ;; raise ValueError) ;;
     emit (Lib (l_loader_load file_path)) ;;
     match o with
     | Loaded splits => ret splits
     | LoadFault e => raise e
     end)
    [ (is_ValueError, fun e => emit (Logged ERROR) ;; raise e);
      (is_Exception,
       fun _ => emit (Logged ERROR) ;; emit StError ;; ret []) ].

(** [split.metadata['file_id'] = file_id_str] *)
Definition tag_file_id (file_id_str : string) (split : Document) : Document :=
  {| page_content := page_content split;
     metadata := <[ "file_id" := file_id_str ]> (metadata split) |}.

(** [vs.add_documents(docs_to_add)]: one batch; nothing is stored when the
    call raises. *)
Definition add_documents (o : Outcome) (vs : Chroma) (docs : list Document)
    : M unit :=
  emit (Lib (l_add_documents (length docs))) ;;
  match o with
  | Succeeds => modify (fun w => set_collection (collection w ++ docs) w)
  | Fails e => raise e
  end.

(** What the outside world does during one [index_document_to_chroma]. *)
Record IndexEnv := {
  ie_embedding : Outcome;
  ie_chroma : ChromaOutcome;
  ie_load : LoadOutcome;
  ie_add : Outcome
}.

(** The [try] block of [index_document_to_chroma]. *)
Definition load_and_add (env : IndexEnv) (vs : Chroma) (file_path : string)
    (file_id : nat) : M bool :=
  try_except
    (splits <- load_and_split_document (ie_load env) file_path ;;
     match splits with
     | [] => emit (Logged ERROR) ;; ret false
     | _ =>
         let file_id_str := pretty file_id in
         let docs_to_add := map (tag_file_id file_id_str) splits in
         match docs_to_add with
         | [] => emit (Logged WARNING) ;; ret false
         | _ => add_documents (ie_add env) vs docs_to_add ;; ret true
         end
     end)
    [ (is_Exception,
       fun _ => emit (Logged ERROR) ;; emit StError ;; ret false) ].

(** [if not vs] holds when [vs] is [None] and when [bool(vs)] is false. *)
Definition index_document_to_chroma (env : IndexEnv) (file_path : string)
    (file_id : nat) (nomic_api_key : string) : M bool :=
  emit (Enter (c_index_document_to_chroma file_path file_id)) ;;
  model <- get NOMIC_MODEL_NAME ;;
  dimensionality <- get NOMIC_DIMENSIONALITY ;;
  emb_func <- get_embedding_function (ie_embedding env)
                (nomic_api_key, model, dimensionality) ;;
  vs <- get_vector_store (ie_chroma env) emb_func ;;
  match vs with
  | None => emit (Logged ERROR) ;; ret false
  | Some vs =>
      truthy <- truthy_Chroma vs ;;
      if negb truthy then emit (Logged ERROR) ;; ret false
      else load_and_add env vs file_path file_id
  end.

(** [vs._collection.delete(where={"file_id": file_id_str})] *)
Definition collection_delete (o : Outcome) (file_id_str : string) : M unit :=
  emit (Lib (l_collection_delete file_id_str)) ;;
  match o with
  | Succeeds =>
      modify (fun w =>
                set_collection
                  (filter (fun d => metadata d !! "file_id" ≠ Some file_id_str)
                     (collection w)) w)
  | Fails e => raise e
  end.

(** What the outside world does during one [delete_doc_from_chroma]. *)
Record DeleteEnv := {
  de_embedding : Outcome;
  de_chroma : ChromaOutcome;
  de_delete : Outcome
}.

Definition delete_doc_from_chroma (env : DeleteEnv) (file_id : nat)
    (nomic_api_key : string) : M bool :=
  emit (Enter (c_delete_doc_from_chroma file_id)) ;;
  model <- get NOMIC_MODEL_NAME ;;
  dimensionality <- get NOMIC_DIMENSIONALITY ;;
  emb_func <- get_embedding_function (de_embedding env)
                (nomic_api_key, model, dimensionality) ;;
  vs <- get_vector_store (de_chroma env) emb_func ;;
  match vs with
  | None => emit (Logged ERROR) ;; emit StError ;; ret false
  | Some vs =>
      truthy <- truthy_Chroma vs ;;
      if negb truthy then emit (Logged ERROR) ;; emit StError ;; ret false
      else
      try_except
        (let file_id_str := pretty file_id in
         if vs_collection vs then
           collection_delete (de_delete env) file_id_str ;; ret true
         else emit (Logged ERROR) ;; emit StError ;; ret false)
        [ (is_Exception,
           fun _ => emit (Logged ERROR) ;; emit StError ;; ret false) ]
  end.

(** ** [rag_app/utils/langchain_utils.py] *)

(** What the outside world does during one run of the body of
    [get_cached_rag_chain]. *)
Record ChainEnv := {
  ce_embedding : Outcome;
  ce_chroma : ChromaOutcome;
  ce_retriever : Outcome;
  ce_llm : Outcome
}.

(** The first [try] of the body: [None] stands for its [return None]. *)
Definition retrieve_vector_store (env : ChainEnv) (nomic_api_key : string)
    : M (option Chroma) :=
  try_except
    (nomic_model <- get NOMIC_MODEL_NAME ;;
     nomic_dim <- get NOMIC_DIMENSIONALITY ;;
     embedding_func <- get_embedding_function (ce_embedding env)
                         (nomic_api_key, nomic_model, nomic_dim) ;;
     match embedding_func with
     | None => raise RAGChainInitializationError
     | Some _ =>
         vectorstore_instance <- get_vector_store (ce_chroma env)
                                   embedding_func ;;
         match vectorstore_instance with
         | None => raise RAGChainInitializationError
         | Some vs => ret (Some vs)
         end
     end)
    [ (is_Exception, fun _ => emit (Logged ERROR) ;; ret None) ].

(** [vectorstore_instance.as_retriever(search_kwargs={"k": 2})] *)
Definition as_retriever (o : Outcome) : M unit :=
  emit (Lib l_as_retriever) ;;
  match o with Succeeds => ret tt | Fails e => raise e end.

(** [ChatGroq(...)] and the three [create_*] calls that build the chain. *)
Definition build_chain (o : Outcome) (model : string) (vs : Chroma)
    : M RagChain :=
  emit (Lib (l_ChatGroq model)) ;;
  match o with
  | Succeeds =>
      n <- new_object ;;
      ret {| chain_obj := n; chain_model := model; chain_vectorstore := vs |}
  | Fails e => raise e
  end.

Definition get_cached_rag_chain_body (env : ChainEnv) (k : ChainKey)
    : M (option RagChain) :=
  let '(model, nomic_api_key, groq_api_key) := k in
  emit (Enter (c_get_cached_rag_chain k)) ;;
  if negb (truthy_str nomic_api_key) then
    emit (Logged ERROR) ;; emit StError ;; ret None
  else if negb (truthy_str groq_api_key) then
    emit (Logged ERROR) ;; emit StError ;; ret None
  else
    vectorstore_instance <- retrieve_vector_store env nomic_api_key ;;
    match vectorstore_instance with
    | None => ret None
    | Some vs =>
        have_retriever <-
          try_except (as_retriever (ce_retriever env) ;; ret true)
            [ (is_Exception,
               fun _ => emit (Logged ERROR) ;; emit StError ;; ret false) ] ;;
        if have_retriever then
          try_except
            (rag_chain <- build_chain (ce_llm env) model vs ;;
             ret (Some rag_chain))
            [ (is_Exception,
               fun _ => emit (Logged ERROR) ;; emit StError ;; ret None) ]
        else ret None
    end.

Definition get_cached_rag_chain (env : ChainEnv) (k : ChainKey)
    : M (option RagChain) :=
  cache_resource rag_chain_cache put_rag_chain_cache k
    (get_cached_rag_chain_body env k).

(** ** [rag_app/app/sidebar.py]: the upload and the delete flows *)

(** What the outside world does while the upload is staged, in the two
    statements before the [try]: [NamedTemporaryFile] cannot create the file;
    or it creates it and [shutil.copyfileobj] raises, so that the [with]
    block closes the file and leaves it where it is ([delete=False]); or both
    succeed. *)
Inductive StageOutcome :=
| Staged
| CreateFails (e : exn)
| CopyFails (e : exn).

(** What the outside world does during one click on "Upload Document":
    the name [tempfile] picks (without the suffix), the outcome of the
    staging and the outcome of each store operation. *)
Record UploadEnv := {
  ue_tmp_stem : string;
  ue_stage : StageOutcome;
  ue_insert : SqlFault;
  ue_index : IndexEnv;
  ue_rollback : SqlFault;
  ue_refresh : SqlFault
}.

(** [NamedTemporaryFile(delete=False, suffix=splitext(name)[1])] and the copy
    of the upload into it.  Both run before the [try] statement: an
    exception of theirs leaves the click, and no [finally] block runs. *)
Definition stage_upload (o : StageOutcome) (tmp_stem name : string)
    : M string :=
  let temp_file_path := (tmp_stem ++ splitext_ext name)%string in
  match o with
  | CreateFails e => raise e
  | CopyFails e =>
      modify (fun w => set_files ({[ temp_file_path ]} ∪ files w) w) ;;
      raise e
  | Staged =>
      modify (fun w => set_files ({[ temp_file_path ]} ∪ files w) w) ;;
      ret temp_file_path
  end.

(** The [finally] block ([os.remove] of an existing file is taken to
    succeed). *)
Definition remove_temp_file (temp_file_path : string) : M unit :=
  present <- get (fun w => bool_decide (temp_file_path ∈ files w)) ;;
  if present then
    emit (Lib (l_os_remove temp_file_path)) ;;
    modify (fun w => set_files (files w ∖ {[ temp_file_path ]}) w)
  else ret tt.

(** The two [except] clauses of the upload; [locals] is what [file_id] and
    [indexing_success] hold when the exception arrives. *)
Definition upload_handlers {A} (locals : A) : list (Clause A) :=
  [ (is_ValueError, fun _ => emit StError ;; ret locals);
    (is_Exception,
     fun _ => emit (Logged ERROR) ;; emit StError ;; ret locals) ].

(** Steps 2 to 4: the [try] / [except] / [finally] statement.  The result is
    [(file_id, indexing_success)] as step 5 reads them. *)
Definition register_and_index (env : UploadEnv) (name temp_file_path
    nomic_api_key : string) : M (option nat * bool) :=
  try_finally
    (registered <-
       try_except
         (file_id <- insert_document_record (ue_insert env) name ;;
          ret (Some file_id))
         (upload_handlers None) ;;
     match registered with
     | None => ret (None, false)
     | Some file_id =>
         if truthy_int file_id then
           try_except
             (indexing_success <-
                index_document_to_chroma (ue_index env) temp_file_path
                  file_id nomic_api_key ;;
              ret (Some file_id, indexing_success))
             (upload_handlers (Some file_id, false))
         else emit StError ;; ret (Some file_id, false)
     end)
    (remove_temp_file temp_file_path).

(** Step 5. *)
Definition handle_results (env : UploadEnv) (locals : option nat * bool)
    : M unit :=
  match locals with
  | (Some file_id, indexing_success) =>
      if truthy_int file_id && indexing_success then emit StSuccess
      else if truthy_int file_id && negb indexing_success then
        emit StError ;;
        delete_document_record (ue_rollback env) file_id ;;
        ret tt
      else ret tt
  | (None, _) => ret tt
  end.

(** The block under the "Upload Document" button; the result is the new
    value of [st.session_state.documents]. *)
Definition upload_document (env : UploadEnv) (name nomic_api_key : string)
    : M (list DocRow) :=
  (if negb (truthy_str nomic_api_key) then emit StError
   else
     temp_file_path <- stage_upload (ue_stage env) (ue_tmp_stem env) name ;;
     locals <- register_and_index env name temp_file_path nomic_api_key ;;
     handle_results env locals) ;;
  get_all_documents (ue_refresh env).

(** What the outside world does during one click on "Delete Selected
    Document". *)
Record RemoveEnv := {
  re_chroma : DeleteEnv;
  re_registry : SqlFault;
  re_refresh : SqlFault
}.

(** The block under the "Delete Selected Document" button; the result is the
    new value of [st.session_state.documents], if it is assigned. *)
Definition delete_selected_document (env : RemoveEnv) (selected_file_id : nat)
    (nomic_api_key : string) : M (option (list DocRow)) :=
  if negb (truthy_str nomic_api_key) then emit StError ;; ret None
  else
    chroma_deleted <- delete_doc_from_chroma (re_chroma env) selected_file_id
                        nomic_api_key ;;
    (if chroma_deleted then
       db_deleted <- delete_document_record (re_registry env)
                       selected_file_id ;;
       if db_deleted then emit StSuccess else emit StError
     else emit StError) ;;
    documents <- get_all_documents (re_refresh env) ;;
    ret (Some documents).

(** ** [rag_app/app/chat_interface.py]: one prompt *)

(** What [rag_chain.invoke(...)] gives: the ['answer'] of the response, or an
    exception. *)
Inductive InvokeOutcome :=
| Answers (answer : string)
| InvokeFault (e : exn).

(** What the outside world does while one prompt is handled. *)
Record ChatEnv := {
  ch_chain : ChainEnv;
  ch_history : SqlFault;
  ch_invoke : InvokeOutcome;
  ch_log : SqlFault
}.

Definition rag_chain_invoke (o : InvokeOutcome) (rag_chain : RagChain)
    (prompt : string) (chat_history : list Message) : M string :=
  emit (Lib (l_invoke prompt)) ;;
  match o with
  | Answers answer => ret answer
  | InvokeFault e => raise e
  end.

(** The block under [st.chat_input]; the result is what is appended to
    [st.session_state.messages]. *)
Definition handle_prompt (env : ChatEnv) (prompt session_id selected_model
    nomic_api_key groq_api_key : string) : M (list Message) :=
  if negb (truthy_str nomic_api_key) || negb (truthy_str groq_api_key) then
    emit StWarning ;; ret []
  else
    let asked := {| role := user; content := prompt |} in
    emit (Displayed asked) ;;
    try_except
      (rag_chain <- get_cached_rag_chain (ch_chain env)
                      (selected_model, nomic_api_key, groq_api_key) ;;
       match rag_chain with
       | Some chain =>
           chat_history <- get_chat_history (ch_history env) session_id ;;
           answer <- rag_chain_invoke (ch_invoke env) chain prompt
                       chat_history ;;
           insert_application_logs (ch_log env) session_id prompt answer
             selected_model ;;
           let answered := {| role := assistant; content := answer |} in
           emit (Displayed answered) ;;
           ret [asked; answered]
       | None => emit (Logged ERROR) ;; emit StError ;; ret [asked]
       end)
      [ (is_RAGChainInitializationError,
         fun _ => emit (Logged ERROR) ;; emit StError ;; ret [asked]);
        (is_Exception,
         fun _ => emit (Logged ERROR) ;; emit StError ;; ret [asked]) ].

(** ** [st.session_state] *)

(** The keys the application keeps in [st.session_state]; [None] stands
    for a key that is not set.  [ss_documents] can hold Python's [None]
    (the inner option), which the sidebar tests for. *)
Record Session := {
  ss_nomic_api_key : option string;
  ss_groq_api_key : option string;
  ss_model : option string;
  ss_session_id : option string;
  ss_messages : option (list Message);
  ss_documents : option (option (list DocRow))
}.

Definition set_ss_nomic_api_key (v : string) (ss : Session) : Session :=
  {| ss_nomic_api_key := Some v; ss_groq_api_key := ss_groq_api_key ss;
     ss_model := ss_model ss; ss_session_id := ss_session_id ss;
     ss_messages := ss_messages ss; ss_documents := ss_documents ss |}.

Definition set_ss_groq_api_key (v : string) (ss : Session) : Session :=
  {| ss_nomic_api_key := ss_nomic_api_key ss; ss_groq_api_key := Some v;
     ss_model := ss_model ss; ss_session_id := ss_session_id ss;
     ss_messages := ss_messages ss; ss_documents := ss_documents ss |}.

Definition set_ss_model (v : string) (ss : Session) : Session :=
  {| ss_nomic_api_key := ss_nomic_api_key ss;
     ss_groq_api_key := ss_groq_api_key ss;
     ss_model := Some v; ss_session_id := ss_session_id ss;
     ss_messages := ss_messages ss; ss_documents := ss_documents ss |}.

Definition set_ss_session_id (v : string) (ss : Session) : Session :=
  {| ss_nomic_api_key := ss_nomic_api_key ss;
     ss_groq_api_key := ss_groq_api_key ss;
     ss_model := ss_model ss; ss_session_id := Some v;
     ss_messages := ss_messages ss; ss_documents := ss_documents ss |}.

Definition set_ss_messages (v : list Message) (ss : Session) : Session :=
  {| ss_nomic_api_key := ss_nomic_api_key ss;
     ss_groq_api_key := ss_groq_api_key ss;
     ss_model := ss_model ss; ss_session_id := ss_session_id ss;
     ss_messages := Some v; ss_documents := ss_documents ss |}.

Definition set_ss_documents (v : option (list DocRow)) (ss : Session)
    : Session :=
  {| ss_nomic_api_key := ss_nomic_api_key ss;
     ss_groq_api_key := ss_groq_api_key ss;
     ss_model := ss_model ss; ss_session_id := ss_session_id ss;
     ss_messages := ss_messages ss; ss_documents := Some v |}.

(** [if key not in st.session_state: st.session_state.key = value] *)
Definition setdefault {A} (field : Session -> option A)
    (set : A -> Session -> Session) (value : A) (ss : Session) : Session :=
  match field ss with
  | Some _ => ss
  | None => set value ss
  end.

(** A session in which nothing is set: a new browser session. *)
Definition new_session : Session :=
  {| ss_nomic_api_key := None; ss_groq_api_key := None; ss_model := None;
     ss_session_id := None; ss_messages := None; ss_documents := None |}.

(** ** The monad of the pages: the world and [st.session_state] *)

(** Page code reads and writes [st.session_state] in place: what it has
    written stays written when an exception ends the run. *)
Definition UI (A : Type) : Type :=
  Session -> World -> result A * Session * World.

Definition ui_ret {A} (a : A) : UI A := fun ss w => (Ok a, ss, w).

Definition ui_bind {A B} (c : UI A) (k : A -> UI B) : UI B :=
  fun ss w =>
    match c ss w with
    | (Ok a, ss', w') => k a ss' w'
    | (Raise e, ss', w') => (Raise e, ss', w')
    end.

(** A call into the code below the pages. *)
Definition call {A} (c : M A) : UI A :=
  fun ss w => match c w with (r, w') => (r, ss, w') end.

(** [st.session_state.key]: reading a key that is not set raises
    [AttributeError]. *)
Definition read {A} (field : Session -> option A) : UI A :=
  fun ss w =>
    match field ss with
    | Some v => (Ok v, ss, w)
    | None => (Raise AttributeError, ss, w)
    end.

(** [key in st.session_state] *)
Definition has_key {A} (field : Session -> option A) : UI bool :=
  fun ss w =>
    (Ok (match field ss with Some _ => true | None => false end), ss, w).

(** [st.session_state.key = value] *)
Definition assign {A} (set : A -> Session -> Session) (value : A) : UI unit :=
  fun ss w => (Ok tt, set value ss, w).

(** [if key not in st.session_state: st.session_state.key = value] *)
Definition init_key {A} (field : Session -> option A)
    (set : A -> Session -> Session) (value : A) : UI unit :=
  fun ss w => (Ok tt, setdefault field set value ss, w).

Declare Scope ui_scope.
Delimit Scope ui_scope with ui.
Notation "x <- c1 ;; c2" := (ui_bind c1 (fun x => c2))
  (at level 100, c1 at next level, c2 at level 200, right associativity)
  : ui_scope.
Notation "c1 ;; c2" := (ui_bind c1 (fun _ => c2))
  (at level 100, c2 at level 200, right associativity) : ui_scope.

(** What a run of page code gives: its result, the session state and the
    world it leaves. *)
Definition ui_outcome {A} (c : UI A) (ss : Session) (w : World) : result A :=
  (c ss w).1.1.

Definition ui_session {A} (c : UI A) (ss : Session) (w : World) : Session :=
  (c ss w).1.2.

Definition ui_after {A} (c : UI A) (ss : Session) (w : World) : World :=
  (c ss w).2.

(** ** [rag_app/app/sidebar.py]: [display_sidebar] *)

Definition model_options : list string :=
  [ "llama-3.1-8b-instant"; "llama-3.3-70b-versatile" ].

(** [st.sidebar.selectbox(label, options=options)]: the option the user has
    picked; a choice outside the list stands for the first option, which is
    what the widget shows before any pick.  There is no value when there is
    no option. *)
Definition selectbox {A} (options : list A) (choice : nat) : option A :=
  match options !! choice with
  | Some x => Some x
  | None => head options
  end.

(** [f"{doc['filename']} (ID: {doc['id']})"] *)
Definition doc_label (doc : DocRow) : string :=
  (doc_filename doc ++ " (ID: " ++ pretty (doc_id doc) ++ ")")%string.

(** [d[key] = value] on a [dict], which keeps its keys in the order of their
    first insertion. *)
Fixpoint dict_set (key : string) (value : nat) (d : list (string * nat))
    : list (string * nat) :=
  match d with
  | [] => [(key, value)]
  | (k, v) :: d' =>
      if bool_decide (k = key) then (k, value) :: d'
      else (k, v) :: dict_set key value d'
  end.

(** [d[key]]: [None] stands for [KeyError]. *)
Fixpoint dict_get (key : string) (d : list (string * nat)) : option nat :=
  match d with
  | [] => None
  | (k, v) :: d' => if bool_decide (k = key) then Some v else dict_get key d'
  end.

(** The dict comprehension of the delete section. *)
Definition doc_options (documents : list DocRow) : list (string * nat) :=
  foldl (fun d doc => dict_set (doc_label doc) (doc_id doc) d) [] documents.

(** What the user does in the sidebar during one run of the script, and what
    the outside world does during the operations the run starts. *)
Record SidebarInput := {
  si_nomic_key_input : string;
  si_groq_key_input : string;
  si_model_choice : nat;
  (** [uploaded_file.name], when a file is in the uploader *)
  si_uploaded_file : option string;
  si_upload_clicked : bool;
  si_refresh_clicked : bool;
  si_doc_choice : nat;
  si_delete_clicked : bool;
  si_upload_env : UploadEnv;
  si_refresh_fault : SqlFault;
  si_initial_fault : SqlFault;
  si_remove_env : RemoveEnv
}.

(** The keys and the model selection: the head of [display_sidebar]. *)
Definition sidebar_settings (inp : SidebarInput) : UI unit :=
  (init_key ss_nomic_api_key set_ss_nomic_api_key "" ;;
   init_key ss_groq_api_key set_ss_groq_api_key "" ;;
   assign set_ss_nomic_api_key (si_nomic_key_input inp) ;;
   assign set_ss_groq_api_key (si_groq_key_input inp) ;;
   nomic_api_key <- read ss_nomic_api_key ;;
   (if negb (truthy_str nomic_api_key) then call (emit StWarning)
    else ui_ret tt) ;;
   groq_api_key <- read ss_groq_api_key ;;
   (if negb (truthy_str groq_api_key) then call (emit StWarning)
    else ui_ret tt) ;;
   match selectbox model_options (si_model_choice inp) with
   | Some selected_model => assign set_ss_model selected_model
   | None => ui_ret tt
   end)%ui.

(** The section "Document Management" and the load of the list. *)
Definition sidebar_documents (inp : SidebarInput) : UI unit :=
  (match si_uploaded_file inp with
   | Some name =>
       if si_upload_clicked inp then
         nomic_api_key <- read ss_nomic_api_key ;;
         documents <- call (upload_document (si_upload_env inp) name
                              nomic_api_key) ;;
         assign set_ss_documents (Some documents)
       else ui_ret tt
   | None => ui_ret tt
   end ;;
   (if si_refresh_clicked inp then
      documents <- call (get_all_documents (si_refresh_fault inp)) ;;
      assign set_ss_documents (Some documents)
    else ui_ret tt) ;;
   loaded <- has_key ss_documents ;;
   (if loaded then ui_ret tt
    else
      documents <- call (get_all_documents (si_initial_fault inp)) ;;
      assign set_ss_documents (Some documents)) ;;
   documents <- read ss_documents ;;
   match documents with
   | None => call (emit StWarning) ;; assign set_ss_documents (Some [])
   | Some _ => ui_ret tt
   end)%ui.

(** The section "Indexed Documents" from [if st.session_state.documents]
    on. *)
Definition sidebar_delete (inp : SidebarInput) : UI unit :=
  (documents <- read ss_documents ;;
   match documents with
   | Some ((_ :: _) as documents) =>
       let options := doc_options documents in
       match options with
       | _ :: _ =>
           match selectbox (map fst options) (si_doc_choice inp) with
           | Some selected_doc_label =>
               match dict_get selected_doc_label options with
               | Some selected_file_id =>
                   if si_delete_clicked inp then
                     nomic_api_key <- read ss_nomic_api_key ;;
                     refreshed <-
                       call (delete_selected_document (si_remove_env inp)
                               selected_file_id nomic_api_key) ;;
                     match refreshed with
                     | Some docs => assign set_ss_documents (Some docs)
                     | None => ui_ret tt
                     end
                   else ui_ret tt
               | None => call (raise OtherException)
               end
           | None => ui_ret tt
           end
       | [] => ui_ret tt
       end
   | _ => ui_ret tt
   end)%ui.

Definition display_sidebar (inp : SidebarInput) : UI unit :=
  (sidebar_settings inp ;; sidebar_documents inp ;; sidebar_delete inp)%ui.

(** ** [rag_app/app/chat_interface.py]: [display_chat_interface] *)

Definition chat_greeting : Message :=
  {| role := assistant; content := "Hello! How can I help you today?" |}.

(** What the user does in the chat during one run of the script: the text
    [st.chat_input] returns, if any; [ci_uuid] is what [uuid.uuid4()] gives
    when it is called. *)
Record ChatInput := {
  ci_prompt : option string;
  ci_uuid : string;
  ci_env : ChatEnv
}.

(** [for message in st.session_state.messages: ... st.markdown(...)] *)
Fixpoint display_messages (messages : list Message) : M unit :=
  match messages with
  | [] => ret tt
  | message :: rest => emit (Displayed message) ;; display_messages rest
  end.

(** [handle_prompt] returns the messages it appends to
    [st.session_state.messages]. *)
Definition display_chat_interface (inp : ChatInput) : UI unit :=
  (init_key ss_nomic_api_key set_ss_nomic_api_key "" ;;
   init_key ss_groq_api_key set_ss_groq_api_key "" ;;
   init_key ss_model set_ss_model "llama-3.1-8b-instant" ;;
   init_key ss_session_id set_ss_session_id (ci_uuid inp) ;;
   init_key ss_messages set_ss_messages [chat_greeting] ;;
   messages <- read ss_messages ;;
   call (display_messages messages) ;;
   match ci_prompt inp with
   | Some prompt =>
       if truthy_str prompt then
         nomic_api_key <- read ss_nomic_api_key ;;
         groq_api_key <- read ss_groq_api_key ;;
         selected_model <- read ss_model ;;
         session_id <- read ss_session_id ;;
         appended <- call (handle_prompt (ci_env inp) prompt session_id
                             selected_model nomic_api_key groq_api_key) ;;
         assign set_ss_messages (messages ++ appended)
       else ui_ret tt
   | None => ui_ret tt
   end)%ui.

(** ** [rag_app/app/streamlit_app.py]: one run of the script *)

Definition app_greeting : Message :=
  {| role := assistant;
     content := "Hello! Please enter API Keys in the sidebar." |}.

Record AppInput := {
  ai_init : InitFault;
  ai_uuid : string;
  ai_sidebar : SidebarInput;
  ai_chat : ChatInput
}.

(** How a run of the script ends when no exception escapes it. *)
Inductive RunEnd :=
| Finished
| Exited (status : nat).

(** The [try] around [ensure_db_initialized()]: [False] stands for the
    [except] branch, which ends in [sys.exit(1)]. *)
Definition initialize_or_report (f : InitFault) : M bool :=
  try_except (ensure_db_initialized f ;; ret true)
    [ (is_Exception,
       fun _ => emit (Logged CRITICAL) ;; emit StError ;; ret false) ].

(** The script from "Initialize Database" on (the imports are taken to
    succeed). *)
Definition streamlit_app (inp : AppInput) : UI RunEnd :=
  (initialized <- call (initialize_or_report (ai_init inp)) ;;
   if negb initialized then ui_ret (Exited 1)
   else
     init_key ss_messages set_ss_messages [app_greeting] ;;
     init_key ss_session_id set_ss_session_id (ai_uuid inp) ;;
     display_sidebar (ai_sidebar inp) ;;
     display_chat_interface (ai_chat inp) ;;
     ui_ret Finished)%ui.

(** ** The states the application can be in *)

(** The process right after import, for any configuration. *)
Definition fresh_world (imported : bool) (model : string)
    (dimensionality : option Z) : World :=
  {| db_initialized := false;
     database := {| application_logs := None; document_store := None;
                    document_seq := 0 |};
     clock := 0;
     files := ∅;
     caches := {| embedding_cache := ∅; vector_store_cache := ∅;
                  rag_chain_cache := ∅ |};
     next_object := 0;
     collection := [];
     trace := [];
     NomicEmbeddingsType := imported;
     NOMIC_MODEL_NAME := model;
     NOMIC_DIMENSIONALITY := dimensionality |}.

(** The configuration without environment variables. *)
Definition world0 : World :=
  fresh_world true "nomic-embed-text-v1.5" None.

(** One operation of the application, with what the outside world does
    during it. *)
Inductive Op :=
| op_elapse (d : nat)
| op_set_wall_clock (t : nat)
| op_ensure_db_initialized (f : InitFault)
| op_insert_application_logs (f : SqlFault)
    (session_id user_query gpt_response model : string)
| op_get_chat_history (f : SqlFault) (session_id : string)
| op_insert_document_record (f : SqlFault) (filename : string)
| op_delete_document_record (f : SqlFault) (file_id : nat)
| op_get_all_documents (f : SqlFault)
| op_get_embedding_function (o : Outcome) (k : EmbKey)
| op_get_vector_store (o : ChromaOutcome) (emb : option Embeddings)
| op_is_vectorstore_ready (oe : Outcome) (oc : ChromaOutcome)
    (nomic_api_key : string)
| op_index_document_to_chroma (env : IndexEnv) (file_path : string)
    (file_id : nat) (nomic_api_key : string)
| op_delete_doc_from_chroma (env : DeleteEnv) (file_id : nat)
    (nomic_api_key : string)
| op_get_cached_rag_chain (env : ChainEnv) (k : ChainKey)
| op_upload_document (env : UploadEnv) (name nomic_api_key : string)
| op_delete_selected_document (env : RemoveEnv) (selected_file_id : nat)
    (nomic_api_key : string)
| op_handle_prompt (env : ChatEnv) (prompt session_id selected_model
    nomic_api_key groq_api_key : string).

Definition perform (op : Op) (w : World) : World :=
  match op with
  | op_elapse d => after (elapse d) w
  | op_set_wall_clock t => after (set_wall_clock t) w
  | op_ensure_db_initialized f => after (ensure_db_initialized f) w
  | op_insert_application_logs f s q r m =>
      after (insert_application_logs f s q r m) w
  | op_get_chat_history f s => after (get_chat_history f s) w
  | op_insert_document_record f n => after (insert_document_record f n) w
  | op_delete_document_record f i => after (delete_document_record f i) w
  | op_get_all_documents f => after (get_all_documents f) w
  | op_get_embedding_function o k => after (get_embedding_function o k) w
  | op_get_vector_store o emb => after (get_vector_store o emb) w
  | op_is_vectorstore_ready oe oc key =>
      after (is_vectorstore_ready oe oc key) w
  | op_index_document_to_chroma env p i key =>
      after (index_document_to_chroma env p i key) w
  | op_delete_doc_from_chroma env i key =>
      after (delete_doc_from_chroma env i key) w
  | op_get_cached_rag_chain env k => after (get_cached_rag_chain env k) w
  | op_upload_document env n key => after (upload_document env n key) w
  | op_delete_selected_document env i key =>
      after (delete_selected_document env i key) w
  | op_handle_prompt env prompt s m nomic groq =>
      after (handle_prompt env prompt s m nomic groq) w
  end.

(** A world the application reaches from a fresh one by its operations. *)
Inductive reachable : World -> Prop :=
| reachable_fresh imported model dimensionality :
    reachable (fresh_world imported model dimensionality)
| reachable_perform op w : reachable w -> reachable (perform op w).

(** ** [setup.py] *)

(** A Python [str]: the list of its code points. *)
Definition pystr := list N.

(** A literal of ASCII characters. *)
Definition str_lit (s : string) : pystr :=
  map N_of_ascii (list_ascii_of_string s).

(** The code points [str.strip()] removes: those for which [str.isspace]
    holds (tab to carriage return, the four separators, the space, NEL,
    the no-break space and the other space and line separators). *)
Definition str_isspace (c : N) : bool :=
  ((9 <=? c) && (c <=? 13) || (28 <=? c) && (c <=? 32)
   || (c =? 133) || (c =? 160) || (c =? 5760)
   || (8192 <=? c) && (c <=? 8202)
   || (c =? 8232) || (c =? 8233) || (c =? 8239) || (c =? 8287)
   || (c =? 12288))%N.

Fixpoint str_lstrip (s : pystr) : pystr :=
  match s with
  | [] => []
  | c :: s' => if str_isspace c then str_lstrip s' else s
  end.

Definition str_rstrip (s : pystr) : pystr := rev (str_lstrip (rev s)).

(** [s.strip()] *)
Definition str_strip (s : pystr) : pystr := str_rstrip (str_lstrip s).

(** [s.startswith(prefix)] *)
Definition str_startswith (prefix s : pystr) : bool :=
  bool_decide (take (length prefix) s = prefix).

(** Reading in text mode with the default [newline=None]: a carriage
    return, alone or followed by a line feed, is read as one line feed. *)
Fixpoint universal_newlines (t : list N) : list N :=
  match t with
  | [] => []
  | c :: t' =>
      if (c =? 13)%N then
        10%N :: match t' with
                | 10%N :: t'' => universal_newlines t''
                | _ => universal_newlines t'
                end
      else c :: universal_newlines t'
  end.

(** [for line in file_obj]: each line with the line feed that ends it; the
    last one has none when the text does not end with one. *)
Fixpoint file_lines (t : list N) : list pystr :=
  match t with
  | [] => []
  | c :: t' =>
      if (c =? 10)%N then [c] :: file_lines t'
      else match file_lines t' with
           | [] => [[c]]
           | line :: rest => (c :: line) :: rest
           end
  end.

(** What [open(filepath, 'r', encoding='utf-8')] and the reading give: the
    decoded text, or the exception of the [open] ([OSError]) or of the
    decoding ([ValueError]). *)
Inductive TextFile :=
| Readable (text : list N)
| Unreadable (e : exn).

Definition get_requirements (file : TextFile) : result (list pystr) :=
  match file with
  | Unreadable e => Raise e
  | Readable text =>
      Ok (foldl
            (fun requirements line =>
               let line := str_strip line in
               if match line with [] => false | _ :: _ => true end
                  && negb (str_startswith (str_lit "#") line)
                  && negb (str_startswith (str_lit "-e") line)
               then requirements ++ [line]
               else requirements)
            [] (file_lines (universal_newlines text)))
  end.

(** The test of the loop of [get_requirements], on a stripped line. *)
Definition is_requirement (line : pystr) : bool :=
  match line with [] => false | _ :: _ => true end
  && negb (str_startswith (str_lit "#") line)
  && negb (str_startswith (str_lit "-e") line).

(** Writing one requirement per line. *)
Definition one_per_line (requirements : list pystr) : list N :=
  concat (map (fun r => r ++ [10%N]) requirements).

(** * The vocabulary of the properties *)

(** ** Relations between the world before and the world after *)

(** [stable R c]: the world [c] ends in is related by [R] to the one it
    started in, whether [c] returns or raises. *)
Definition stable {A} (R : relation World) (c : M A) : Prop :=
  forall w, R w (after c w).

(** The trace grows by events that all satisfy [P]. *)
Definition emits (P : Event -> Prop) : relation World :=
  fun w w' => exists evs, trace w' = trace w ++ evs /\ Forall P evs.

(** A projection of the world keeps its value. *)
Definition keeps {B} (f : World -> B) : relation World :=
  fun w w' => f w' = f w.

(** [I] holds afterwards when it held before. *)
Definition preserves (I : World -> Prop) : relation World :=
  fun w w' => I w -> I w'.

(** No path other than [p] disappears. *)
Definition removes_only (p : string) : relation World :=
  fun w w' => forall q, q <> p -> q ∈ files w -> q ∈ files w'.

(** The events since [w]. *)
Definition events_since (w w' : World) : list Event :=
  drop (length (trace w)) (trace w').

(** An event that is not the start of a registry delete. *)
Definition not_registry_delete (ev : Event) : Prop :=
  forall file_id, ev <> Enter (c_delete_document_record file_id).

(** ** The registry and the chat log *)

(** [list_documents()] as a function of the database file: what
    [get_all_documents] returns. *)
Definition list_documents_result (f : SqlFault) (d : Db)
    : result (list DocRow) :=
  match f with
  | ConnectFault => Raise ConnectionError
  | StmtFault => Ok []
  | NoFault =>
      match document_store d with
      | Some rows =>
          Ok (order_by
                (fun a b =>
                   doc_upload_timestamp b <=? doc_upload_timestamp a)%nat
                rows)
      | None => Ok []
      end
  end.

(** One chat turn as [chat_interface] logs it; [turn_clock] is what the wall
    clock reads when the row is written. *)
Record Turn := {
  turn_clock : nat;
  turn_session_id : string;
  turn_query : string;
  turn_response : string;
  turn_model : string
}.

Definition append_turn (t : Turn) : M unit :=
  set_wall_clock (turn_clock t) ;;
  insert_application_logs NoFault (turn_session_id t) (turn_query t)
    (turn_response t) (turn_model t).

Fixpoint append_turns (ts : list Turn) : M unit :=
  match ts with
  | [] => ret tt
  | t :: ts' => append_turn t ;; append_turns ts'
  end.

(** The row [append_turn t] adds. *)
Definition turn_row (t : Turn) : LogRow :=
  {| log_session_id := turn_session_id t;
     log_user_query := turn_query t;
     log_gpt_response := turn_response t;
     log_model := turn_model t;
     log_created_at := turn_clock t |}.

(** The entries one turn contributes to a history. *)
Definition turn_messages (t : Turn) : list Message :=
  (if truthy_str (turn_query t)
   then [ {| role := user; content := turn_query t |} ] else [])
  ++
  (if truthy_str (turn_response t)
   then [ {| role := assistant; content := turn_response t |} ] else []).

Definition earlier (a b : LogRow) : Prop :=
  log_created_at a <= log_created_at b.

(** The timestamps do not decrease along the list: what inserting under a
    wall clock that is not set back gives. *)
Definition in_clock_order (rows : list LogRow) : Prop :=
  StronglySorted earlier rows.

(** A turn with both fields present: a user entry, then an assistant entry. *)
Definition exchange (t : Turn) : list Message :=
  [ {| role := user; content := turn_query t |};
    {| role := assistant; content := turn_response t |} ].

(** ** The embedding cache *)

(** The embedding cache is sound: a cached client was built before now, and
    no client is cached under two keys. *)
Definition cache_sound (w : World) : Prop :=
  (forall k e,
     embedding_cache (caches w) !! k = Some (Some e) ->
     emb_obj e < next_object w)
  /\ (forall k1 k2 e1 e2,
        embedding_cache (caches w) !! k1 = Some (Some e1) ->
        embedding_cache (caches w) !! k2 = Some (Some e2) ->
        emb_obj e1 = emb_obj e2 -> k1 = k2).

(** ** Indexing *)

(** The file types [load_and_split_document] has a loader for. *)
Definition supported (file_path : string) : bool :=
  let ext := lower (splitext_ext file_path) in
  bool_decide (ext = ".pdf") || bool_decide (ext = ".docx")
  || bool_decide (ext = ".html").

(** ** Worlds and environments used in the examples *)

(** The vector store can be opened; its handle is a plain object. *)
Definition chroma_ok : ChromaOutcome :=
  {| co_makedirs := Succeeds; co_constructor := Succeeds;
     co_collection := true; co_len := false |}.

(** After [ensure_db_initialized()] at start-up. *)
Definition world_ready : World :=
  after (ensure_db_initialized InitNoFault) world0.

(** ["a.pdf"] has been registered (it got id 1). *)
Definition world_a_pdf : World :=
  after (insert_document_record NoFault "a.pdf") world_ready.

Definition example_key : EmbKey :=
  ("nomic-key", "nomic-embed-text-v1.5", None).

Definition other_key : EmbKey :=
  ("other-key", "nomic-embed-text-v1.5", None).

(** A click on "Delete Selected Document" during which the Chroma delete
    raises. *)
Definition remove_env_chroma_fails : RemoveEnv :=
  {| re_chroma := {| de_embedding := Succeeds; de_chroma := chroma_ok;
                     de_delete := Fails OtherException |};
     re_registry := NoFault;
     re_refresh := NoFault |}.

(** An upload during which the loader raises: the document is registered,
    the indexing fails, the registration is rolled back. *)
Definition upload_env_loader_fails : UploadEnv :=
  {| ue_tmp_stem := "/tmp/tmpk3v9"; ue_stage := Staged;
     ue_insert := NoFault;
     ue_index := {| ie_embedding := Succeeds; ie_chroma := chroma_ok;
                    ie_load := LoadFault OtherException;
                    ie_add := Succeeds |};
     ue_rollback := NoFault;
     ue_refresh := NoFault |}.

(** The same upload, with a rollback that meets a locked database. *)
Definition upload_env_rollback_fails : UploadEnv :=
  {| ue_tmp_stem := "/tmp/tmpk3v9"; ue_stage := Staged;
     ue_insert := NoFault;
     ue_index := {| ie_embedding := Succeeds; ie_chroma := chroma_ok;
                    ie_load := LoadFault OtherException;
                    ie_add := Succeeds |};
     ue_rollback := StmtFault;
     ue_refresh := NoFault |}.

Definition example_chunk : Document :=
  {| page_content := "X is the twenty-fourth letter."; metadata := ∅ |}.

(** An indexing during which everything works. *)
Definition index_env_ok : IndexEnv :=
  {| ie_embedding := Succeeds; ie_chroma := chroma_ok;
     ie_load := Loaded [example_chunk]; ie_add := Succeeds |}.

(** ["a.pdf"] has been indexed under the key ["nomic-key"]: the embedding
    client of that key and the vector store handle are cached. *)
Definition world_indexed : World :=
  after (index_document_to_chroma index_env_ok "/tmp/tmpa1.pdf" 1 "nomic-key")
    world_a_pdf.

(** A chat turn during which only the log write goes wrong. *)
Definition chat_env (log_fault : SqlFault) : ChatEnv :=
  {| ch_chain := {| ce_embedding := Succeeds; ce_chroma := chroma_ok;
                    ce_retriever := Succeeds; ce_llm := Succeeds |};
     ch_history := NoFault;
     ch_invoke := Answers "X is a letter.";
     ch_log := log_fault |}.

(** An indexing under a key whose embedding client cannot be built. *)
Definition index_env_no_client : IndexEnv :=
  {| ie_embedding := Fails OtherException; ie_chroma := chroma_ok;
     ie_load := Loaded [example_chunk]; ie_add := Succeeds |}.

(** ** The document registry *)

(** The rows of [document_store] have distinct ids and distinct file names,
    and every id is between 1 and the last one handed out. *)
Definition registry_wf (w : World) : Prop :=
  forall rows,
    document_store (database w) = Some rows ->
    NoDup (map doc_id rows)
    /\ NoDup (map doc_filename rows)
    /\ Forall (fun r => 0 < doc_id r <= document_seq (database w)) rows.

(** The last id handed out is at least [n]. *)
Definition seq_from (n : nat) (w : World) : Prop :=
  n <= document_seq (database w).

(** A sequence of operations. *)
Definition performs (ops : list Op) (w : World) : World :=
  foldl (fun w' op => perform op w') w ops.

(** ** File names *)

(** The characters of [s] are neither dots nor slashes. *)
Definition dot_free (s : string) : Prop :=
  Forall (fun c => c <> "."%char /\ c <> "/"%char)
    (String.list_ascii_of_string s).

(** [s] has no slash. *)
Definition slash_free (s : string) : Prop :=
  Forall (fun c => c <> "/"%char) (String.list_ascii_of_string s).

(** An event that is neither a read by a loader nor a write to the
    collection. *)
Definition not_load_or_add (ev : Event) : Prop :=
  (forall file_path, ev <> Lib (l_loader_load file_path))
  /\ (forall n, ev <> Lib (l_add_documents n)).

(** The chunk [d] carries the tag of the document [file_id]. *)
Definition chunk_of (file_id : nat) (d : Document) : Prop :=
  metadata d !! "file_id" = Some (pretty file_id).

(** What the vector store cache holds under its one key. *)
Definition cached_vector_store (w : World) : option (option Chroma) :=
  vector_store_cache (caches w) !! ().

(** ** Calls that cannot raise *)

(** [c] returns a value from every world. *)
Definition returns {A} (c : M A) : Prop :=
  forall w, exists a, outcome c w = Ok a.

(** ** What page code keeps *)

(** [I] holds for the session state and the world a run of [c] leaves when
    it held before, whether [c] returns or raises. *)
Definition ui_keeps {A} (I : Session -> World -> Prop) (c : UI A) : Prop :=
  forall ss w, I ss w -> I (ui_session c ss w) (ui_after c ss w).

(** A decimal digit. *)
Definition is_digit (c : ascii) : Prop :=
  (48 <= Ascii.nat_of_ascii c <= 57)%nat.

(** An event that only shows something on the page. *)
Definition shows_only (ev : Event) : Prop :=
  ev = StWarning \/ exists m, ev = Displayed m.

(** A run of the script in which the user does nothing, in a session that
    has its keys and its document list. *)
Definition idle_sidebar : SidebarInput :=
  {| si_nomic_key_input := "nomic-key";
     si_groq_key_input := "groq-key";
     si_model_choice := 0;
     si_uploaded_file := None;
     si_upload_clicked := false;
     si_refresh_clicked := false;
     si_doc_choice := 0;
     si_delete_clicked := false;
     si_upload_env := upload_env_loader_fails;
     si_refresh_fault := NoFault;
     si_initial_fault := NoFault;
     si_remove_env := remove_env_chroma_fails |}.

Definition idle_input : AppInput :=
  {| ai_init := InitNoFault;
     ai_uuid := "0b9f6c1e-5d1b-4c55-9d0e-6a4f3a2b7c10";
     ai_sidebar := idle_sidebar;
     ai_chat := {| ci_prompt := None;
                   ci_uuid := "1c2d3e4f-0a1b-4c2d-8e3f-4a5b6c7d8e9f";
                   ci_env := chat_env NoFault |} |}.

Definition session_with_list : Session :=
  {| ss_nomic_api_key := Some "nomic-key";
     ss_groq_api_key := Some "groq-key";
     ss_model := Some "llama-3.1-8b-instant";
     ss_session_id := Some "0b9f6c1e-5d1b-4c55-9d0e-6a4f3a2b7c10";
     ss_messages := Some [app_greeting];
     ss_documents :=
       Some (Some [ {| doc_id := 1; doc_filename := "a.pdf";
                       doc_upload_timestamp := 0 |} ]) |}.

(** An upload during which everything works. *)
Definition upload_env_ok : UploadEnv :=
  {| ue_tmp_stem := "/tmp/tmpk3v9"; ue_stage := Staged;
     ue_insert := NoFault;
     ue_index := index_env_ok;
     ue_rollback := NoFault;
     ue_refresh := NoFault |}.

(** A turn logged when the wall clock reads [t]. *)
Definition example_turn (t : nat) (session_id query response : string)
    : Turn :=
  {| turn_clock := t; turn_session_id := session_id; turn_query := query;
     turn_response := response; turn_model := "llama-3.1-8b-instant" |}.

(** Two sessions have chatted, ["s1"] at 5 and ["s2"] at 7. *)
Definition chatted_turns : list Turn :=
  [ example_turn 5 "s1" "What is X?" "X is a letter.";
    example_turn 7 "s2" "Hi" "Hello!" ].

Definition world_chatted : World :=
  after (append_turns chatted_turns) world_ready.

(** An upload during which the copy into the temporary file fails. *)
Definition upload_env_copy_fails : UploadEnv :=
  {| ue_tmp_stem := "/tmp/tmpk3v9"; ue_stage := CopyFails OSError;
     ue_insert := NoFault;
     ue_index := index_env_ok;
     ue_rollback := NoFault;
     ue_refresh := NoFault |}.

(** A click on "Delete Selected Document" during which everything works. *)
Definition remove_env_ok : RemoveEnv :=
  {| re_chroma := {| de_embedding := Succeeds; de_chroma := chroma_ok;
                     de_delete := Succeeds |};
     re_registry := NoFault;
     re_refresh := NoFault |}.

(** * Properties *)

(** ** Running a computation *)

(** The last world of a [try] / [finally] is the one its [finally] block
    leaves. *)
Lemma after_try_finally {A} (body : M A) (fin : M unit) (w : World) :
  after (try_finally body fin) w = after fin (after body w).
Proof.
  unfold after, try_finally. destruct (body w) as [r w']; cbn.
  destruct (fin w') as [[[]|e] w'']; reflexivity.
Qed.

Lemma after_bind_ok {A B} (c : M A) (k : A -> M B) (w : World) (a : A) :
  outcome c w = Ok a -> after (bind c k) w = after (k a) (after c w).
Proof.
  unfold outcome, after, bind. destruct (c w) as [[a'|e] w']; cbn; congruence.
Qed.

Lemma outcome_bind_ok {A B} (c : M A) (k : A -> M B) (w : World) (a : A) :
  outcome c w = Ok a -> outcome (bind c k) w = outcome (k a) (after c w).
Proof.
  unfold outcome, after, bind. destruct (c w) as [[a'|e] w']; cbn; congruence.
Qed.

Lemma after_bind_raise {A B} (c : M A) (k : A -> M B) (w : World) (e : exn) :
  outcome c w = Raise e -> after (bind c k) w = after c w.
Proof.
  unfold outcome, after, bind. destruct (c w) as [[a'|e'] w']; cbn; congruence.
Qed.

Lemma outcome_bind_raise {A B} (c : M A) (k : A -> M B) (w : World)
    (e : exn) :
  outcome c w = Raise e -> outcome (bind c k) w = Raise e.
Proof.
  unfold outcome, after, bind. destruct (c w) as [[a'|e'] w']; cbn; congruence.
Qed.

Lemma run_eta {A} (c : M A) (w : World) : c w = (outcome c w, after c w).
Proof. unfold outcome, after. now destruct (c w). Qed.

Lemma run_bind_ok {A B} (c : M A) (k : A -> M B) (w w1 : World) (a : A) :
  c w = (Ok a, w1) -> bind c k w = k a w1.
Proof. intros Hc. unfold bind. now rewrite Hc. Qed.

Lemma run_try_except_ok {A} (body : M A) (cs : list (Clause A))
    (w w1 : World) (a : A) :
  body w = (Ok a, w1) -> try_except body cs w = (Ok a, w1).
Proof. intros Hb. unfold try_except. now rewrite Hb. Qed.

Lemma run_try_finally {A} (body : M A) (fin : M unit) (w w1 w2 : World)
    (r : result A) :
  body w = (r, w1) -> fin w1 = (Ok tt, w2) -> try_finally body fin w = (r, w2).
Proof. intros Hb Hf. unfold try_finally. now rewrite Hb, Hf. Qed.

Lemma after_bind_ret {A B} (c : M A) (b : B) (w : World) :
  after (bind c (fun _ => ret b)) w = after c w.
Proof. unfold after, bind, ret. now destruct (c w) as [[a|e] w1]. Qed.

(** Running a computation symbolically. *)
Ltac py_unfold :=
  unfold outcome, after, bind, ret, raise, get, modify, emit, elapse,
    try_except, try_finally.

Ltac py_run := repeat (progress (try py_unfold; cbn)).

Tactic Notation "py_run" "in" hyp(H) :=
  repeat (progress (try (unfold outcome, after, bind, ret, raise, get,
                           modify, emit, elapse, try_except, try_finally
                          in H);
                    cbn in H)).

(** ** What a computation leaves behind *)

Section Stable.
Context (R : relation World) `{!PreOrder R}.

Lemma stable_ret {A} (a : A) : stable R (ret a).
Proof. intros w. reflexivity. Qed.

Lemma stable_raise {A} (e : exn) : stable R (@raise A e).
Proof. intros w. reflexivity. Qed.

Lemma stable_get {A} (f : World -> A) : stable R (get f).
Proof. intros w. reflexivity. Qed.

Lemma stable_modify (f : World -> World) :
  (forall w, R w (f w)) -> stable R (modify f).
Proof. intros H w. apply H. Qed.

Lemma stable_bind {A B} (c : M A) (k : A -> M B) :
  stable R c -> (forall a, stable R (k a)) -> stable R (bind c k).
Proof.
  intros Hc Hk w. unfold after, bind. specialize (Hc w). unfold after in Hc.
  destruct (c w) as [[a|e] w']; cbn in *; [|done].
  etrans; [exact Hc|]. apply Hk.
Qed.

Lemma stable_dispatch {A} (cs : list (Clause A)) (e : exn) :
  Forall (fun cl => forall e', stable R (cl.2 e')) cs ->
  stable R (dispatch cs e).
Proof.
  induction 1 as [|[p h] cs Hh _ IH]; cbn.
  - apply stable_raise.
  - destruct (p e); [apply Hh | apply IH].
Qed.

Lemma stable_try_except {A} (body : M A) (cs : list (Clause A)) :
  stable R body ->
  Forall (fun cl => forall e', stable R (cl.2 e')) cs ->
  stable R (try_except body cs).
Proof.
  intros Hb Hcs w. unfold after, try_except. specialize (Hb w).
  unfold after in Hb. destruct (body w) as [[a|e] w']; cbn in *; [done|].
  etrans; [exact Hb|]. apply (stable_dispatch cs e Hcs).
Qed.

Lemma stable_try_finally {A} (body : M A) (fin : M unit) :
  stable R body -> stable R fin -> stable R (try_finally body fin).
Proof.
  intros Hb Hf w. unfold after, try_finally. specialize (Hb w).
  unfold after in Hb. destruct (body w) as [r w']; cbn in *.
  specialize (Hf w'). unfold after in Hf.
  destruct (fin w') as [[[]|e] w'']; cbn in *; etrans; eauto.
Qed.

End Stable.

#[global] Instance emits_preorder (P : Event -> Prop) : PreOrder (emits P).
Proof.
  split.
  - intros w. exists []. now rewrite app_nil_r.
  - intros w1 w2 w3 (e1 & H1 & F1) (e2 & H2 & F2). exists (e1 ++ e2).
    split; [now rewrite H2, H1, app_assoc | now apply Forall_app].
Qed.

#[global] Instance keeps_preorder {B} (f : World -> B) : PreOrder (keeps f).
Proof.
  split; [now intros w|]. intros w1 w2 w3 H1 H2. unfold keeps in *. congruence.
Qed.

#[global] Instance removes_only_preorder (p : string) :
  PreOrder (removes_only p).
Proof.
  split; [now intros w q|]. intros w1 w2 w3 H1 H2 q Hq Hin. auto.
Qed.

#[global] Instance preserves_preorder (I : World -> Prop) :
  PreOrder (preserves I).
Proof.
  split; [now intros w|]. intros w1 w2 w3 H1 H2 HI. apply H2, H1, HI.
Qed.

Lemma stable_emit_emits (P : Event -> Prop) (e : Event) :
  P e -> stable (emits P) (emit e).
Proof. intros H w. exists [e]. split; [reflexivity | now constructor]. Qed.

Lemma emits_same_trace (P : Event -> Prop) (w w' : World) :
  trace w' = trace w -> emits P w w'.
Proof. intros H. exists []. now rewrite app_nil_r. Qed.

(** Proving [stable R c] by following the structure of [c]. *)
Ltac stable_side :=
  lazymatch goal with
  | |- stable (keeps _) (emit _) => intros ?; reflexivity
  | |- stable (keeps _) (modify _) => intros ?; reflexivity
  | |- stable (emits _) (emit _) => apply stable_emit_emits; hnf; done
  | |- stable (emits _) (modify _) =>
      intros ?; apply emits_same_trace; reflexivity
  | |- stable (removes_only _) _ =>
      intros ? ? ? ?; cbn; set_solver
  | |- stable (preserves _) _ => let HI := fresh "HI" in intros ? HI; exact HI
  end.

Ltac head_of t := lazymatch t with ?f _ => head_of f | _ => t end.

Ltac stable_step :=
  match goal with
  | |- stable _ _ => solve [auto 2 with stable]
  | |- stable _ (ret _) => apply stable_ret; tc_solve
  | |- stable _ (raise _) => apply stable_raise; tc_solve
  | |- stable _ (get _) => apply stable_get; tc_solve
  | |- stable _ (bind _ _) => apply stable_bind; [tc_solve | | intros ?]
  | |- stable _ (try_except _ _) => apply stable_try_except; [tc_solve | |]
  | |- stable _ (try_finally _ _) => apply stable_try_finally; [tc_solve | |]
  | |- Forall _ (_ :: _) => constructor; [intros ?; cbn [snd] |]
  | |- Forall _ [] => constructor
  | |- Forall _ ?cs => let h := head_of cs in unfold h
  | |- stable _ (emit _) => stable_side
  | |- stable _ (modify _) => stable_side
  | |- stable _ (match ?x with _ => _ end) => destruct x
  | |- stable _ (let (_, _) := ?x in _) => destruct x
  | |- stable _ ?c => let h := head_of c in unfold h
  end.

Ltac stable_tac := repeat stable_step.

Create HintDb stable.

Lemma after_bind_stable (R : relation World) `{!PreOrder R} {A B} (c : M A)
    (k : A -> M B) (w : World) :
  (forall a, stable R (k a)) -> R (after c w) (after (bind c k) w).
Proof.
  intros Hk. destruct (outcome c w) as [a|e] eqn:Ho.
  - rewrite (after_bind_ok _ _ _ _ Ho). apply Hk.
  - rewrite (after_bind_raise _ _ _ _ Ho). reflexivity.
Qed.

Lemma after_bind_keeps {A B C} (f : World -> C) (c : M A) (k : A -> M B)
    (w : World) :
  (forall a, stable (keeps f) (k a)) ->
  f (after (bind c k) w) = f (after c w).
Proof.
  intros Hk. destruct (outcome c w) as [a|e] eqn:Ho.
  - rewrite (after_bind_ok _ _ _ _ Ho). apply Hk.
  - now rewrite (after_bind_raise _ _ _ _ Ho).
Qed.

Lemma bind_appends {A B} (c : M A) (k : A -> M B) (w : World) :
  (forall a, stable (emits (fun _ => True)) (k a)) ->
  emits (fun _ => True) (after c w) (after (bind c k) w).
Proof.
  intros Hk. destruct (outcome c w) as [a|e] eqn:Ho.
  - rewrite (after_bind_ok _ _ _ _ Ho). apply Hk.
  - rewrite (after_bind_raise _ _ _ _ Ho). reflexivity.
Qed.

(** *** Reading the trace *)

Lemma events_since_emits (P : Event -> Prop) (w w' : World) :
  emits P w w' ->
  trace w' = trace w ++ events_since w w' /\ Forall P (events_since w w').
Proof.
  intros (evs & Ht & Hall). unfold events_since.
  rewrite Ht, drop_app_length. now split.
Qed.

Lemma events_since_trans (P Q : Event -> Prop) (w1 w2 w3 : World) :
  emits P w1 w2 -> emits Q w2 w3 ->
  events_since w1 w3 = events_since w1 w2 ++ events_since w2 w3.
Proof.
  intros H12 H23.
  destruct (events_since_emits P _ _ H12) as [Ht12 _].
  destruct (events_since_emits Q _ _ H23) as [Ht23 _].
  unfold events_since at 1. rewrite Ht23, Ht12 at 1.
  now rewrite <- app_assoc, drop_app_length.
Qed.

Lemma emits_weaken (P Q : Event -> Prop) (w w' : World) :
  (forall ev, P ev -> Q ev) -> emits P w w' -> emits Q w w'.
Proof.
  intros HPQ (evs & Ht & Hall). exists evs. split; [exact Ht|].
  eapply Forall_impl; eauto.
Qed.

Lemma not_registry_delete_absent (w w' : World) (file_id : nat) :
  emits not_registry_delete w w' ->
  Enter (c_delete_document_record file_id) ∉ events_since w w'.
Proof.
  intros Hem Hin. destruct (events_since_emits _ _ _ Hem) as [_ Hall].
  rewrite Forall_forall in Hall. exact (Hall _ Hin file_id eq_refl).
Qed.

Lemma elem_of_events_since (ev : Event) (w1 w2 w3 w4 : World) :
  emits (fun _ => True) w1 w2 ->
  ev ∈ events_since w2 w3 ->
  emits (fun _ => True) w2 w3 ->
  emits (fun _ => True) w3 w4 ->
  ev ∈ events_since w1 w4.
Proof.
  intros H12 Hin H23 H34.
  assert (H24 : emits (fun _ => True) w2 w4) by (etrans; eassumption).
  rewrite (events_since_trans _ _ _ _ _ H12 H24).
  rewrite (events_since_trans _ _ _ _ _ H23 H34).
  rewrite !elem_of_app. auto.
Qed.

(** *** [ORDER BY] *)

Section OrderBy.
Context {A : Type} (key : A -> nat).

Local Abbreviation le := (fun a b : A => (key a <=? key b)%nat).
Local Abbreviation before := (fun a b : A => key a <= key b).

Lemma insert_sorted_perm (x : A) (l : list A) :
  insert_sorted le x l ≡ₚ x :: l.
Proof.
  induction l as [|y l IH]; cbn; [done|].
  destruct (key x <=? key y)%nat; [done|]. rewrite IH. apply Permutation_swap.
Qed.

Lemma order_by_perm (l : list A) : order_by le l ≡ₚ l.
Proof.
  induction l as [|x l IH]; cbn; [done|].
  rewrite insert_sorted_perm. now rewrite IH.
Qed.

Lemma insert_sorted_sorted (x : A) (l : list A) :
  StronglySorted before l -> StronglySorted before (insert_sorted le x l).
Proof.
  induction 1 as [|y l Hs IH Hall]; cbn.
  - repeat constructor.
  - destruct (Nat.leb_spec (key x) (key y)) as [Hle|Hgt].
    + constructor; [now constructor|]. constructor; [exact Hle|].
      eapply Forall_impl; [exact Hall|]. cbn. intros z Hz. lia.
    + constructor; [exact IH|].
      rewrite insert_sorted_perm. constructor; [lia | exact Hall].
Qed.

Lemma order_by_sorted (l : list A) : StronglySorted before (order_by le l).
Proof.
  induction l as [|x l IH]; cbn; [constructor|].
  now apply insert_sorted_sorted.
Qed.

(** Sorting a list that is already in order returns it as it is. *)
Lemma order_by_id (l : list A) :
  StronglySorted before l -> order_by le l = l.
Proof.
  induction 1 as [|x l Hs IH Hall]; cbn; [done|].
  unfold order_by in IH. rewrite IH. destruct l as [|y l]; cbn; [done|].
  apply Forall_cons in Hall as [Hxy _].
  now rewrite (proj2 (Nat.leb_le _ _) Hxy).
Qed.

Lemma insert_sorted_snoc (x y : A) (l : list A) :
  key y <= key x ->
  insert_sorted le y (l ++ [x]) = insert_sorted le y l ++ [x].
Proof.
  intros Hyx. induction l as [|z l IH]; cbn.
  - now rewrite (proj2 (Nat.leb_le _ _) Hyx).
  - destruct (key y <=? key z)%nat; [reflexivity|]. now rewrite IH.
Qed.

(** A row that is not older than any other comes last, after the rows with
    the same key. *)
Lemma order_by_snoc (x : A) (l : list A) :
  Forall (fun y => key y <= key x) l ->
  order_by le (l ++ [x]) = order_by le l ++ [x].
Proof.
  induction 1 as [|y l Hy _ IH]; [reflexivity|].
  cbn. unfold order_by in IH. rewrite IH. now apply insert_sorted_snoc.
Qed.

Lemma StronglySorted_filter (P : A -> Prop) `{!forall a, Decision (P a)}
    (l : list A) :
  StronglySorted before l -> StronglySorted before (filter P l).
Proof.
  induction 1 as [|x l Hs IH Hall]; [constructor|].
  rewrite filter_cons. destruct (decide (P x)); [|exact IH].
  constructor; [exact IH|].
  apply Forall_forall. intros y Hy. apply list_elem_of_filter in Hy as [_ Hy].
  rewrite Forall_forall in Hall. now apply Hall.
Qed.

End OrderBy.

Lemma insert_sorted_map {A B} (f : A -> B) (le : B -> B -> bool) (x : A)
    (l : list A) :
  insert_sorted le (f x) (map f l)
  = map f (insert_sorted (fun a b => le (f a) (f b)) x l).
Proof.
  induction l as [|y l IH]; [reflexivity|]. cbn.
  destruct (le (f x) (f y)); [reflexivity|]. cbn. now rewrite IH.
Qed.

Lemma order_by_map {A B} (f : A -> B) (le : B -> B -> bool) (l : list A) :
  order_by le (map f l) = map f (order_by (fun a b => le (f a) (f b)) l).
Proof.
  induction l as [|x l IH]; [reflexivity|]. cbn.
  unfold order_by in IH. rewrite IH. apply insert_sorted_map.
Qed.

Lemma insert_sorted_elem_of {A} (le : A -> A -> bool) (x y : A)
    (l : list A) :
  y ∈ insert_sorted le x l <-> y = x \/ y ∈ l.
Proof.
  induction l as [|z l IH]; cbn.
  - rewrite list_elem_of_singleton, elem_of_nil. tauto.
  - destruct (le x z).
    + now rewrite elem_of_cons.
    + rewrite !elem_of_cons, IH. tauto.
Qed.

Lemma order_by_elem_of {A} (le : A -> A -> bool) (y : A) (l : list A) :
  y ∈ order_by le l <-> y ∈ l.
Proof.
  induction l as [|x l IH]; cbn; [reflexivity|].
  now rewrite insert_sorted_elem_of, IH, elem_of_cons.
Qed.

(** ** The initialisation guard *)

Lemma initialize_skips (f : InitFault) (w : World) :
  db_initialized w = true -> _initialize_database f w = (Ok tt, w).
Proof.
  intros Hg. unfold _initialize_database, bind, get. now rewrite Hg.
Qed.

Lemma initialize_runs (f : InitFault) (w : World) :
  db_initialized w = false ->
  exists rest,
    trace (after (_initialize_database f) w)
    = trace w ++ Enter c_initialize_database :: Lib (l_makedirs DB_DIR) :: rest.
Proof.
  intros Hg. unfold after, _initialize_database, bind, get. rewrite Hg.
  destruct f; cbn; rewrite <- ?app_assoc; cbn; eexists; reflexivity.
Qed.

Lemma initialize_outcome (f : InitFault) (w : World) :
  db_initialized w = false ->
  outcome (_initialize_database f) w
  = match f with InitNoFault => Ok tt | _ => Raise RuntimeError end.
Proof.
  intros Hg. unfold outcome, _initialize_database, bind, get. rewrite Hg.
  destruct f; reflexivity.
Qed.

Lemma initialize_guard_after (f : InitFault) (w : World) :
  db_initialized w = false ->
  db_initialized (after (_initialize_database f) w)
  = match f with InitNoFault => true | _ => false end.
Proof.
  intros Hg. unfold after, _initialize_database, bind, get. rewrite Hg.
  destruct f; cbn; auto.
Qed.

Lemma initialize_schema (w : World) :
  db_initialized w = false ->
  let d := database (after (_initialize_database InitNoFault) w) in
  is_Some (application_logs d) /\ is_Some (document_store d).
Proof.
  intros Hg. unfold after, _initialize_database, bind, get. rewrite Hg. cbn.
  split.
  - destruct (application_logs (database w)); eauto.
  - destruct (document_store (database w)); eauto.
Qed.

(** C10. The guard [_db_initialized] is set only after both tables have been
    created.  With the guard set, every call of [_initialize_database] returns
    at once and leaves the whole world, the schema included, as it was.  With
    the guard unset, the call ends with the guard set exactly when it returns
    normally, and then both tables exist; when it raises ([RuntimeError]),
    the guard is still unset and the next call, whatever happens to it, runs
    the body again (it starts with the directory creation) and, when nothing
    fails then, creates the schema and sets the guard. *)
Theorem initialize_guard (f : InitFault) (w : World) :
  (db_initialized w = true -> _initialize_database f w = (Ok tt, w))
  /\ (db_initialized w = false ->
      let w' := after (_initialize_database f) w in
      (db_initialized w' = true <->
       outcome (_initialize_database f) w = Ok tt)
      /\ (outcome (_initialize_database f) w = Ok tt ->
          is_Some (application_logs (database w'))
          /\ is_Some (document_store (database w'))
          /\ forall f2, _initialize_database f2 w' = (Ok tt, w'))
      /\ (outcome (_initialize_database f) w <> Ok tt ->
          outcome (_initialize_database f) w = Raise RuntimeError
          /\ db_initialized w' = false
          /\ (forall f2, exists rest,
                trace (after (_initialize_database f2) w')
                = trace w' ++ Enter c_initialize_database
                              :: Lib (l_makedirs DB_DIR) :: rest)
          /\ outcome (_initialize_database InitNoFault) w' = Ok tt
          /\ db_initialized (after (_initialize_database InitNoFault) w')
             = true)).
Proof.
  split; [apply initialize_skips|].
  intros Hg w'.
  pose proof (initialize_outcome f w Hg) as Ho.
  pose proof (initialize_guard_after f w Hg) as Ha. fold w' in Ha.
  split; [|split].
  - rewrite Ho, Ha. destruct f; split; congruence.
  - intros Hok. rewrite Ho in Hok. destruct f; try discriminate.
    destruct (initialize_schema w Hg) as [H1 H2].
    repeat split; try assumption.
    intros f2. now apply initialize_skips.
  - intros Hne. rewrite Ho in Hne |- *.
    assert (Hg' : db_initialized w' = false)
      by (rewrite Ha; destruct f; congruence).
    split; [destruct f; congruence|].
    split; [assumption|].
    split; [intros f2; now apply initialize_runs|].
    split; [now rewrite initialize_outcome
           | now rewrite initialize_guard_after].
Qed.

Lemma initialize_guard_witness :
  db_initialized world0 = false
  /\ outcome (_initialize_database CreateDocsFault) world0
     = Raise RuntimeError
  /\ db_initialized (after (_initialize_database CreateDocsFault) world0)
     = false
  /\ outcome (_initialize_database InitNoFault)
       (after (_initialize_database CreateDocsFault) world0) = Ok tt.
Proof.
  destruct (initialize_guard CreateDocsFault world0) as [_ H].
  specialize (H eq_refl). cbv zeta in H. destruct H as (_ & _ & H).
  assert (Hne : outcome (_initialize_database CreateDocsFault) world0
                <> Ok tt) by (vm_compute; discriminate).
  destruct (H Hne) as (H1 & H2 & _ & H3 & _).
  repeat split; assumption.
Defined.

(** ** The document registry *)

Lemma get_all_documents_outcome (f : SqlFault) (w : World) :
  outcome (get_all_documents f) w = list_documents_result f (database w).
Proof.
  unfold get_all_documents, get_db_connection, execute_select_documents,
    sqlite3_connect, list_documents_result.
  destruct f; py_run; try reflexivity.
  destruct (document_store (database w)); reflexivity.
Qed.

Lemma insert_document_record_duplicate (w : World) (rows : list DocRow)
    (filename : string) :
  document_store (database w) = Some rows ->
  filename ∈ map doc_filename rows ->
  outcome (insert_document_record NoFault filename) w = Raise ValueError
  /\ database (after (insert_document_record NoFault filename) w)
     = database w.
Proof.
  intros Hs Hin.
  unfold insert_document_record, get_db_connection, execute_insert_document,
    sqlite3_connect.
  py_run. rewrite Hs. rewrite bool_decide_eq_true_2 by assumption.
  split; reflexivity.
Qed.

Lemma insert_document_record_stmt_fault (w : World) (filename : string) :
  outcome (insert_document_record StmtFault filename) w = Raise RuntimeError
  /\ database (after (insert_document_record StmtFault filename) w)
     = database w.
Proof. split; reflexivity. Qed.

Lemma insert_document_record_connect_fault (w : World) (filename : string) :
  outcome (insert_document_record ConnectFault filename) w
  = Raise ConnectionError
  /\ database (after (insert_document_record ConnectFault filename) w)
     = database w.
Proof. split; reflexivity. Qed.

Lemma insert_document_record_fresh (w : World) (rows : list DocRow)
    (filename : string) :
  document_store (database w) = Some rows ->
  filename ∉ map doc_filename rows ->
  let file_id := S (document_seq (database w)) in
  outcome (insert_document_record NoFault filename) w = Ok file_id
  /\ database (after (insert_document_record NoFault filename) w)
     = {| application_logs := application_logs (database w);
          document_store :=
            Some (rows ++ [ {| doc_id := file_id; doc_filename := filename;
                               doc_upload_timestamp := clock w |} ]);
          document_seq := file_id |}.
Proof.
  intros Hs Hin.
  unfold insert_document_record, get_db_connection, execute_insert_document,
    sqlite3_connect.
  py_run. rewrite Hs. rewrite bool_decide_eq_false_2 by assumption.
  split; reflexivity.
Qed.

(** C4 (as amended). For a filename that is already registered,
    [insert_document_record] raises [ValueError] (the duplicate-name error)
    when nothing else goes wrong, [RuntimeError] (the storage error) when the
    [INSERT] raises another [sqlite3.Error], and [ConnectionError] when the
    connection cannot be opened; in all three cases the database file is
    unchanged, so no second row exists and [get_all_documents] returns what it
    returned before. *)
Theorem register_existing_filename (w : World) (rows : list DocRow)
    (filename : string) :
  document_store (database w) = Some rows ->
  filename ∈ map doc_filename rows ->
  outcome (insert_document_record NoFault filename) w = Raise ValueError
  /\ outcome (insert_document_record StmtFault filename) w
     = Raise RuntimeError
  /\ outcome (insert_document_record ConnectFault filename) w
     = Raise ConnectionError
  /\ forall f,
       database (after (insert_document_record f filename) w) = database w
       /\ forall f',
            outcome (get_all_documents f')
              (after (insert_document_record f filename) w)
            = outcome (get_all_documents f') w.
Proof.
  intros Hs Hin.
  destruct (insert_document_record_duplicate w rows filename Hs Hin)
    as [Hdup Hdb].
  split; [exact Hdup|]. split; [reflexivity|]. split; [reflexivity|].
  intros f.
  assert (Hkeep : database (after (insert_document_record f filename) w)
                  = database w)
    by (destruct f; [exact Hdb | reflexivity | reflexivity]).
  split; [exact Hkeep|].
  intros f'. now rewrite !get_all_documents_outcome, Hkeep.
Qed.

Lemma register_existing_filename_witness :
  outcome (insert_document_record NoFault "a.pdf") world_a_pdf
  = Raise ValueError
  /\ database (after (insert_document_record NoFault "a.pdf") world_a_pdf)
     = database world_a_pdf.
Proof.
  assert (Hs : document_store (database world_a_pdf)
               = Some [ {| doc_id := 1; doc_filename := "a.pdf";
                           doc_upload_timestamp := 0 |} ])
    by reflexivity.
  assert (Hin : "a.pdf" ∈ map doc_filename
                  [ {| doc_id := 1; doc_filename := "a.pdf";
                       doc_upload_timestamp := 0 |} ])
    by (cbn; apply list_elem_of_here).
  destruct (register_existing_filename world_a_pdf _ "a.pdf" Hs Hin)
    as (H1 & _ & _ & H2).
  split; [exact H1 | exact (proj1 (H2 NoFault))].
Defined.

(** C4 (as stated) fails: with ["a.pdf"] registered, a registration during
    which the connection cannot be opened ends in [ConnectionError], which is
    neither the duplicate-name error nor the storage error. *)
Lemma register_connect_fault_is_not_storage_error :
  document_store (database world_a_pdf)
  = Some [ {| doc_id := 1; doc_filename := "a.pdf";
              doc_upload_timestamp := 0 |} ]
  /\ outcome (insert_document_record ConnectFault "a.pdf") world_a_pdf
     = Raise ConnectionError
  /\ outcome (insert_document_record ConnectFault "a.pdf") world_a_pdf
     <> Raise RuntimeError
  /\ outcome (insert_document_record ConnectFault "a.pdf") world_a_pdf
     <> Raise ValueError.
Proof.
  split; [reflexivity|]. split; [reflexivity|].
  split; vm_compute; discriminate.
Qed.

(** What [get_all_documents] returns is made of rows of the table. *)
Lemma list_documents_result_rows (f : SqlFault) (d : Db)
    (docs : list DocRow) (r : DocRow) :
  list_documents_result f d = Ok docs -> r ∈ docs ->
  exists rows, document_store d = Some rows /\ r ∈ rows.
Proof.
  unfold list_documents_result. destruct f; try discriminate.
  - destruct (document_store d) as [rows|].
    + intros [= <-] Hin. exists rows. split; [reflexivity|].
      now apply order_by_elem_of in Hin.
    + intros [= <-] Hin. now apply elem_of_nil in Hin.
  - intros [= <-] Hin. now apply elem_of_nil in Hin.
Qed.

(** ** The chat log *)

(** C7 (the code at the failing input). When the [INSERT] raises a
    [sqlite3.Error], [insert_application_logs] logs it and returns; when the
    connection cannot be opened, [get_db_connection] has turned the
    [sqlite3.Error] into a [ConnectionError], the [except sqlite3.Error]
    clause does not match it, and the caller receives it. *)
Theorem insert_application_logs_connection_error (w : World)
    (session_id user_query gpt_response model : string) :
  outcome (insert_application_logs ConnectFault session_id user_query
             gpt_response model) w
  = Raise ConnectionError
  /\ insert_application_logs StmtFault session_id user_query gpt_response
       model w
     = (Ok tt,
        set_trace
          (trace w ++ [ Enter (c_insert_application_logs session_id);
                        Enter c_get_db_connection; Lib l_sqlite3_connect;
                        Logged ERROR ]) w).
Proof.
  split; [reflexivity|].
  unfold insert_application_logs, get_db_connection, execute_insert_log,
    sqlite3_connect.
  py_run. rewrite <- !app_assoc. reflexivity.
Qed.

(** The chat flow around it, with a cached vector store and both keys
    present: a [sqlite3.Error] of the [INSERT] leaves the reply on the screen
    and in the session; a connection failure of the log write ends in the
    [except Exception] clause of [display_chat_interface], and the reply that
    the chain had produced is neither shown nor kept. *)
Lemma chat_reply_and_log_faults :
  let answered := {| role := assistant; content := "X is a letter." |} in
  let run f :=
    handle_prompt (chat_env f) "What is X?" "s1" "llama-3.1-8b-instant"
      "nomic-key" "groq-key" in
  (outcome (run StmtFault) world_indexed
   = Ok [ {| role := user; content := "What is X?" |}; answered ]
   /\ Displayed answered
      ∈ events_since world_indexed (after (run StmtFault) world_indexed))
  /\ (outcome (run ConnectFault) world_indexed
      = Ok [ {| role := user; content := "What is X?" |} ]
      /\ Lib (l_invoke "What is X?")
         ∈ events_since world_indexed (after (run ConnectFault) world_indexed)
      /\ (Displayed answered
          ∉ events_since world_indexed
              (after (run ConnectFault) world_indexed))
      /\ StError
         ∈ events_since world_indexed
             (after (run ConnectFault) world_indexed)).
Proof.
  cbv zeta. repeat split; try reflexivity.
  - vm_compute. do 12 apply list_elem_of_further. apply list_elem_of_here.
  - vm_compute. do 7 apply list_elem_of_further. apply list_elem_of_here.
  - vm_compute. intros H.
    repeat (apply elem_of_cons in H as [H|H]; [discriminate H|]).
    now apply elem_of_nil in H.
  - vm_compute. do 13 apply list_elem_of_further. apply list_elem_of_here.
Qed.

(** *** The chat history *)

(** A [sqlite3.Error] of the [SELECT] gives the empty history; a connection
    failure reaches the caller. *)
Lemma get_chat_history_faults (w : World) (session_id : string) :
  outcome (get_chat_history StmtFault session_id) w = Ok []
  /\ outcome (get_chat_history ConnectFault session_id) w
     = Raise ConnectionError.
Proof.
  split; reflexivity.
Qed.

Lemma get_chat_history_outcome (w : World) (rows : list LogRow)
    (session_id : string) :
  application_logs (database w) = Some rows ->
  outcome (get_chat_history NoFault session_id) w
  = Ok (concat
          (map row_messages
             (order_by
                (fun a b => log_created_at a <=? log_created_at b)%nat
                (filter (fun r => log_session_id r = session_id) rows)))).
Proof.
  intros Hs.
  unfold get_chat_history, get_db_connection, execute_select_history,
    sqlite3_connect.
  py_run. rewrite Hs. reflexivity.
Qed.

Lemma append_turn_effect (t : Turn) (w : World) (rows : list LogRow) :
  application_logs (database w) = Some rows ->
  outcome (append_turn t) w = Ok tt
  /\ application_logs (database (after (append_turn t) w))
     = Some (rows ++ [turn_row t]).
Proof.
  intros Hs.
  unfold append_turn, set_wall_clock, insert_application_logs,
    get_db_connection, execute_insert_log, sqlite3_connect.
  py_run. rewrite Hs. py_run. repeat split; reflexivity.
Qed.

Lemma append_turns_effect (ts : list Turn) (w : World) (rows : list LogRow) :
  application_logs (database w) = Some rows ->
  outcome (append_turns ts) w = Ok tt
  /\ application_logs (database (after (append_turns ts) w))
     = Some (rows ++ map turn_row ts).
Proof.
  revert w rows. induction ts as [|t ts IH]; intros w rows Hs.
  - cbn. rewrite app_nil_r. split; [reflexivity | exact Hs].
  - destruct (append_turn_effect t w rows Hs) as (Ho & Hdb).
    cbn [append_turns].
    rewrite (outcome_bind_ok _ _ _ _ Ho), (after_bind_ok _ _ _ _ Ho).
    destruct (IH _ _ Hdb) as [Ho' Hdb']. split; [exact Ho'|].
    rewrite Hdb'. cbn. now rewrite <- app_assoc.
Qed.

(** The rows of a session among the rows of the turns are the rows of its
    turns. *)
Lemma filter_turn_rows (session_id : string) (ts : list Turn) :
  filter (fun r => log_session_id r = session_id) (map turn_row ts)
  = map turn_row (filter (fun t => turn_session_id t = session_id) ts).
Proof.
  induction ts as [|t ts IH]; [reflexivity|].
  cbn [map]. rewrite !filter_cons. cbn [turn_row log_session_id].
  destruct (decide (turn_session_id t = session_id)); [|exact IH].
  cbn [map]. now rewrite IH.
Qed.

Lemma turn_rows_messages (ts : list Turn) :
  concat (map row_messages (map turn_row ts))
  = concat (map turn_messages ts).
Proof. now rewrite map_map. Qed.

(** Rows with both fields present give two entries each. *)
Lemma turn_rows_full (ts : list Turn) :
  Forall (fun t => turn_query t <> "" /\ turn_response t <> "") ts ->
  concat (map row_messages (map turn_row ts)) = concat (map exchange ts).
Proof.
  rewrite turn_rows_messages.
  induction 1 as [|t ts [Hq Hr] _ IH]; [reflexivity|].
  cbn. rewrite IH. unfold turn_messages.
  destruct (turn_query t); [done|]. destruct (turn_response t); [done|].
  reflexivity.
Qed.

Lemma turn_messages_full (t : Turn) :
  turn_query t <> "" -> turn_response t <> "" ->
  turn_messages t
  = [ {| role := user; content := turn_query t |};
      {| role := assistant; content := turn_response t |} ].
Proof.
  unfold turn_messages. intros Hq Hr.
  destruct (turn_query t); [done|]. destruct (turn_response t); [done|].
  reflexivity.
Qed.

Lemma turn_messages_exchange (ts : list Turn) :
  Forall (fun t => turn_query t <> "" /\ turn_response t <> "") ts ->
  concat (map turn_messages ts) = concat (map exchange ts).
Proof.
  induction 1 as [|t ts [Hq Hr] _ IH]; [reflexivity|].
  cbn. now rewrite IH, (turn_messages_full t Hq Hr).
Qed.

Lemma length_concat_exchange (ts : list Turn) :
  length (concat (map exchange ts)) = 2 * length ts.
Proof. induction ts as [|t ts IH]; cbn; [reflexivity | rewrite IH; lia]. Qed.

(** ** The resource cache *)

Section CacheResource.
Context {K V : Type} `{Countable K}.
Context (store : Caches -> gmap K V) (put : gmap K V -> Caches -> Caches).
Hypothesis store_put : forall m c, store (put m c) = m.

Lemma cache_resource_hit (k : K) (body : M V) (w : World) (v : V) :
  store (caches w) !! k = Some v ->
  cache_resource store put k body w = (Ok v, w).
Proof. intros Hk. unfold cache_resource. py_run. now rewrite Hk. Qed.

Lemma cache_resource_miss (k : K) (body : M V) (w : World) :
  store (caches w) !! k = None ->
  cache_resource store put k body w
  = match body w with
    | (Ok v, w1) =>
        (Ok v,
         set_caches (put (<[ k := v ]> (store (caches w1))) (caches w1)) w1)
    | (Raise e, w1) => (Raise e, w1)
    end.
Proof.
  intros Hk. unfold cache_resource. py_run. rewrite Hk.
  destruct (body w) as [[v|e] w1]; reflexivity.
Qed.

(** What a call has returned is what the store holds afterwards. *)
Lemma cache_resource_stored (k : K) (body : M V) (w w1 : World) (v : V) :
  cache_resource store put k body w = (Ok v, w1) ->
  store (caches w1) !! k = Some v.
Proof.
  destruct (store (caches w) !! k) as [v0|] eqn:Hk.
  - rewrite (cache_resource_hit k body w v0 Hk). intros [= <- <-]. exact Hk.
  - rewrite (cache_resource_miss k body w Hk).
    destruct (body w) as [[v'|e] w2]; [|discriminate].
    intros [= <- <-]. cbn. rewrite store_put. apply lookup_insert_eq.
Qed.

(** The second of two calls with the same key returns the value of the
    first and changes nothing: its body does not run. *)
Lemma cache_resource_again (k : K) (body body' : M V) (w w1 : World) (v : V) :
  cache_resource store put k body w = (Ok v, w1) ->
  cache_resource store put k body' w1 = (Ok v, w1).
Proof.
  intros Hcall. apply cache_resource_hit.
  exact (cache_resource_stored k body w w1 v Hcall).
Qed.

(** A body that raises stores nothing. *)
Lemma cache_resource_raise (k : K) (body : M V) (w w1 : World) (e : exn) :
  store (caches w) !! k = None ->
  body w = (Raise e, w1) ->
  cache_resource store put k body w = (Raise e, w1).
Proof. intros Hk Hb. now rewrite (cache_resource_miss k body w Hk), Hb. Qed.

End CacheResource.

(** *** [get_embedding_function] *)

(** What one run of the body does. *)
Lemma get_embedding_function_body_spec (o : Outcome) (k : EmbKey)
    (w : World) :
  let '(nomic_api_key, model, dimensionality) := k in
  exists v evs,
    get_embedding_function_body o k w
    = (Ok v,
       set_trace (trace w ++ Enter (c_get_embedding_function k) :: evs)
         (set_next_object
            (match v with Some _ => S (next_object w) | None => next_object w
             end) w))
    /\ (if NomicEmbeddingsType w && truthy_str nomic_api_key
        then Lib (l_NomicEmbeddings model dimensionality) ∈ evs
             /\ v = match o with
                    | Succeeds =>
                        Some {| emb_obj := next_object w; emb_model := model;
                                emb_dimensionality := dimensionality |}
                    | Fails _ => None
                    end
        else v = None /\ Forall (fun ev => forall l, ev <> Lib l) evs).
Proof.
  destruct k as [[nomic_api_key model] dimensionality].
  unfold get_embedding_function_body, NomicEmbeddings, new_object. py_run.
  destruct (NomicEmbeddingsType w); py_run.
  - destruct (truthy_str nomic_api_key); py_run.
    + destruct o as [|e]; py_run.
      * exists (Some {| emb_obj := next_object w; emb_model := model;
                        emb_dimensionality := dimensionality |}),
          [Lib (l_NomicEmbeddings model dimensionality)].
        rewrite <- !app_assoc. cbn.
        split; [reflexivity|]. split; [apply list_elem_of_here | reflexivity].
      * exists None,
          [Lib (l_NomicEmbeddings model dimensionality); Logged ERROR;
           StError].
        destruct (is_ValueError e); py_run; rewrite <- !app_assoc; cbn;
          (split; [reflexivity|]; split;
           [apply list_elem_of_here | reflexivity]).
    + exists None, [Logged WARNING]. rewrite <- !app_assoc. cbn.
      split; [reflexivity|]. split; [reflexivity|].
      repeat constructor; discriminate.
  - exists None, [Logged ERROR; StError]. rewrite <- !app_assoc. cbn.
    split; [reflexivity|]. split; [reflexivity|].
    repeat constructor; discriminate.
Qed.

(** One call: a hit changes nothing; a miss runs the body and stores what it
    returns, a client with a new identity or [None]. *)
Lemma get_embedding_function_call (o : Outcome) (k : EmbKey) (w : World) :
  (exists v,
     embedding_cache (caches w) !! k = Some v
     /\ get_embedding_function o k w = (Ok v, w))
  \/ (embedding_cache (caches w) !! k = None
      /\ exists v w1 evs,
           get_embedding_function o k w = (Ok v, w1)
           /\ embedding_cache (caches w1)
              = <[ k := v ]> (embedding_cache (caches w))
           /\ trace w1 = trace w ++ Enter (c_get_embedding_function k) :: evs
           /\ match v with
              | Some e =>
                  emb_obj e = next_object w
                  /\ next_object w1 = S (next_object w)
              | None => next_object w1 = next_object w
              end).
Proof.
  destruct (embedding_cache (caches w) !! k) as [v|] eqn:Hk.
  - left. exists v. split; [reflexivity|].
    now apply (cache_resource_hit embedding_cache put_embedding_cache).
  - right. split; [reflexivity|]. unfold get_embedding_function.
    rewrite (cache_resource_miss embedding_cache put_embedding_cache k _ w Hk).
    pose proof (get_embedding_function_body_spec o k w) as Hb.
    destruct k as [[nomic_api_key model] dimensionality].
    destruct Hb as (v & evs & -> & Hv).
    eexists v, _, evs. split; [reflexivity|]. cbn.
    split; [reflexivity|]. split; [reflexivity|].
    destruct v as [e|]; [|reflexivity]. split; [|reflexivity].
    destruct (NomicEmbeddingsType w && truthy_str nomic_api_key);
      [|now destruct Hv].
    destruct Hv as [_ Hv]. destruct o; [|discriminate].
    now injection Hv as ->.
Qed.

Lemma get_embedding_function_returns (o : Outcome) (k : EmbKey) (w : World) :
  exists v, get_embedding_function o k w
            = (Ok v, after (get_embedding_function o k) w).
Proof.
  unfold after.
  destruct (get_embedding_function_call o k w)
    as [(v & _ & ->) | (_ & v & w1 & evs & -> & _)]; now exists v.
Qed.

Lemma get_embedding_function_sound (o : Outcome) (k : EmbKey) (w : World) :
  cache_sound w -> cache_sound (after (get_embedding_function o k) w).
Proof.
  intros [Hlt Hinj]. unfold after.
  destruct (get_embedding_function_call o k w)
    as [(v & _ & ->) | (Hk & v & w1 & evs & -> & Hc & _ & Hv)];
    [now split|].
  cbn. split.
  - intros k' e'. rewrite Hc, lookup_insert. case_decide as Hkk.
    + intros [= ->]. destruct Hv as [-> ->]. lia.
    + intros He'. specialize (Hlt _ _ He').
      destruct v; [destruct Hv as [_ ->] | rewrite Hv]; lia.
  - intros k1 k2 e1 e2. rewrite Hc, !lookup_insert.
    case_decide as H1; case_decide as H2.
    + congruence.
    + intros [= ->] He2 Heq. destruct Hv as [Hv _].
      specialize (Hlt _ _ He2). lia.
    + intros He1 [= ->] Heq. destruct Hv as [Hv _].
      specialize (Hlt _ _ He1). lia.
    + apply Hinj.
Qed.

(** Two keys, two clients. *)
Lemma get_embedding_function_distinct (o1 o2 : Outcome) (k1 k2 : EmbKey)
    (w : World) (e1 e2 : Embeddings) :
  cache_sound w -> k1 <> k2 ->
  outcome (get_embedding_function o1 k1) w = Ok (Some e1) ->
  outcome (get_embedding_function o2 k2)
    (after (get_embedding_function o1 k1) w) = Ok (Some e2) ->
  emb_obj e1 <> emb_obj e2.
Proof.
  intros Hsound Hne H1 H2.
  pose proof (get_embedding_function_sound o1 k1 w Hsound) as [Hlt Hinj].
  destruct (get_embedding_function_returns o1 k1 w) as [v1 Hc1].
  assert (v1 = Some e1) as ->
    by (unfold outcome in H1; rewrite Hc1 in H1; cbn in H1; congruence).
  pose proof (cache_resource_stored embedding_cache put_embedding_cache
                (fun _ _ => eq_refl) _ _ _ _ _ Hc1) as Hk1.
  set (w1 := after (get_embedding_function o1 k1) w) in *.
  unfold outcome in H2.
  destruct (get_embedding_function_call o2 k2 w1)
    as [(v & Hk2 & Hc2) | (_ & v & w2 & evs & Hc2 & _ & _ & Hv)];
    rewrite Hc2 in H2; cbn in H2; injection H2 as ->.
  - intros Heq. apply Hne. exact (Hinj _ _ _ _ Hk1 Hk2 Heq).
  - destruct Hv as [-> _]. specialize (Hlt _ _ Hk1). lia.
Qed.

Lemma get_embedding_function_keeps_import (o : Outcome) (k : EmbKey) :
  stable (keeps NomicEmbeddingsType) (get_embedding_function o k).
Proof. stable_tac. Qed.

(** A miss under a usable key calls the constructor, and what the
    constructor does decides what is stored. *)
Lemma get_embedding_function_miss (o : Outcome) (k : EmbKey) (w : World) :
  NomicEmbeddingsType w = true ->
  truthy_str k.1.1 = true ->
  embedding_cache (caches w) !! k = None ->
  exists v w1 evs,
    get_embedding_function o k w = (Ok v, w1)
    /\ trace w1 = trace w ++ Enter (c_get_embedding_function k) :: evs
    /\ Lib (l_NomicEmbeddings k.1.2 k.2) ∈ evs
    /\ embedding_cache (caches w1) = <[ k := v ]> (embedding_cache (caches w))
    /\ (forall e, o = Fails e -> v = None)
    /\ (o = Succeeds -> exists emb, v = Some emb).
Proof.
  intros Himp Hkey Hk. unfold get_embedding_function.
  rewrite (cache_resource_miss embedding_cache put_embedding_cache k _ w Hk).
  pose proof (get_embedding_function_body_spec o k w) as Hb.
  destruct k as [[nomic_api_key model] dimensionality]. cbn in Hkey.
  destruct Hb as (v & evs & -> & Hv). rewrite Himp, Hkey in Hv. cbn in Hv.
  destruct Hv as [Hin ->].
  eexists _, _, evs. split; [reflexivity|]. cbn.
  split; [reflexivity|]. split; [exact Hin|]. split; [reflexivity|].
  split; [now intros e -> | intros ->; eauto].
Qed.

(** C1 (as amended). When the constructor raises inside
    [get_embedding_function], the function reports it and returns [None], and
    that [None] is stored under the key: any later call with the same key
    returns [None] and leaves the world as it is, so the constructor is not
    called again, whatever it would do.  A call under another key that is not
    cached yet does call the constructor.  The same holds for
    [get_cached_rag_chain]: once it has returned [None], so does every later
    call with the same key, without running the body. *)
Theorem construction_failure_is_cached (e : exn) (k : EmbKey) (w : World) :
  NomicEmbeddingsType w = true ->
  truthy_str k.1.1 = true ->
  embedding_cache (caches w) !! k = None ->
  let w1 := after (get_embedding_function (Fails e) k) w in
  get_embedding_function (Fails e) k w = (Ok None, w1)
  /\ Lib (l_NomicEmbeddings k.1.2 k.2) ∈ events_since w w1
  /\ (forall o, get_embedding_function o k w1 = (Ok None, w1))
  /\ (forall o k2,
        k2 <> k -> truthy_str k2.1.1 = true ->
        embedding_cache (caches w) !! k2 = None ->
        Lib (l_NomicEmbeddings k2.1.2 k2.2)
        ∈ events_since w1 (after (get_embedding_function o k2) w1))
  /\ (forall env1 env2 ck w2,
        get_cached_rag_chain env1 ck w = (Ok None, w2) ->
        get_cached_rag_chain env2 ck w2 = (Ok None, w2)).
Proof.
  intros Himp Hkey Hk w1.
  destruct (get_embedding_function_miss (Fails e) k w Himp Hkey Hk)
    as (v & w1' & evs & Hc & Htr & Hin & Hcache & Hfail & _).
  rewrite (Hfail e eq_refl) in *. clear Hfail.
  assert (w1 = w1') as <- by (unfold w1, after; now rewrite Hc).
  split; [exact Hc|]. split; [|split; [|split]].
  - unfold events_since. rewrite Htr, drop_app_length. now right.
  - intros o.
    exact (cache_resource_again embedding_cache put_embedding_cache
             (fun _ _ => eq_refl) _ _ _ _ _ _ Hc).
  - intros o k2 Hne Hkey2 Hk2.
    assert (Himp1 : NomicEmbeddingsType w1 = true).
    { rewrite <- Himp.
      apply (get_embedding_function_keeps_import (Fails e) k w). }
    assert (Hk21 : embedding_cache (caches w1) !! k2 = None)
      by (rewrite Hcache, lookup_insert_ne; [exact Hk2 | congruence]).
    destruct (get_embedding_function_miss o k2 w1 Himp1 Hkey2 Hk21)
      as (v2 & w2 & evs2 & Hc2 & Htr2 & Hin2 & _).
    unfold events_since, after. rewrite Hc2. cbn.
    rewrite Htr2, drop_app_length. now right.
  - intros env1 env2 ck w2 Hc'.
    exact (cache_resource_again rag_chain_cache put_rag_chain_cache
             (fun _ _ => eq_refl) _ _ _ _ _ _ Hc').
Qed.

Lemma construction_failure_is_cached_witness :
  let w1 := after (get_embedding_function (Fails OtherException) example_key)
              world_ready in
  get_embedding_function (Fails OtherException) example_key world_ready
  = (Ok None, w1)
  /\ get_embedding_function Succeeds example_key w1 = (Ok None, w1).
Proof.
  intros w1.
  destruct (construction_failure_is_cached OtherException example_key
              world_ready eq_refl eq_refl eq_refl) as (H1 & _ & H2 & _).
  split; [exact H1 | exact (H2 Succeeds)].
Defined.

(** C1 (as stated) fails: the constructor raises during a first call; in the
    second call with the same key the constructor would succeed, but the call
    returns the cached [None], and no event, so no constructor call, is added
    to the trace. *)
Lemma failed_construction_is_not_retried :
  let w1 := after (get_embedding_function (Fails OtherException) example_key)
              world_ready in
  outcome (get_embedding_function (Fails OtherException) example_key)
    world_ready = Ok None
  /\ Lib (l_NomicEmbeddings "nomic-embed-text-v1.5" None)
     ∈ events_since world_ready w1
  /\ outcome (get_embedding_function Succeeds example_key) w1 = Ok None
  /\ events_since w1 (after (get_embedding_function Succeeds example_key) w1)
     = [].
Proof.
  cbv zeta. split; [reflexivity|]. split; [|split; reflexivity].
  vm_compute. apply list_elem_of_further, list_elem_of_here.
Qed.

(** ** The upload and delete flows *)

(** *** What the pieces leave alone *)

Lemma get_db_connection_keeps_files (f : SqlFault) :
  stable (keeps files) (get_db_connection f).
Proof. stable_tac. Qed.
#[export] Hint Resolve get_db_connection_keeps_files : stable.

Lemma delete_document_record_keeps_files (f : SqlFault) (file_id : nat) :
  stable (keeps files) (delete_document_record f file_id).
Proof. stable_tac. Qed.

Lemma get_all_documents_keeps_files (f : SqlFault) :
  stable (keeps files) (get_all_documents f).
Proof. stable_tac. Qed.

Lemma get_embedding_function_keeps_database (o : Outcome) (k : EmbKey) :
  stable (keeps database) (get_embedding_function o k).
Proof. stable_tac. Qed.

Lemma get_vector_store_keeps_database (o : ChromaOutcome)
    (emb : option Embeddings) :
  stable (keeps database) (get_vector_store o emb).
Proof. stable_tac. Qed.

Lemma index_document_to_chroma_keeps_database (env : IndexEnv)
    (file_path : string) (file_id : nat) (nomic_api_key : string) :
  stable (keeps database)
    (index_document_to_chroma env file_path file_id nomic_api_key).
Proof. stable_tac. Qed.

Lemma delete_doc_from_chroma_keeps_database (env : DeleteEnv) (file_id : nat)
    (nomic_api_key : string) :
  stable (keeps database) (delete_doc_from_chroma env file_id nomic_api_key).
Proof. stable_tac. Qed.

Lemma get_all_documents_keeps_database (f : SqlFault) :
  stable (keeps database) (get_all_documents f).
Proof. stable_tac. Qed.

Lemma index_document_to_chroma_no_registry_delete (env : IndexEnv)
    (file_path : string) (file_id : nat) (nomic_api_key : string) :
  stable (emits not_registry_delete)
    (index_document_to_chroma env file_path file_id nomic_api_key).
Proof. stable_tac. Qed.

Lemma delete_doc_from_chroma_no_registry_delete (env : DeleteEnv)
    (file_id : nat) (nomic_api_key : string) :
  stable (emits not_registry_delete)
    (delete_doc_from_chroma env file_id nomic_api_key).
Proof. stable_tac. Qed.

Lemma get_all_documents_no_registry_delete (f : SqlFault) :
  stable (emits not_registry_delete) (get_all_documents f).
Proof. stable_tac. Qed.

Lemma insert_document_record_no_registry_delete (f : SqlFault)
    (filename : string) :
  stable (emits not_registry_delete) (insert_document_record f filename).
Proof. stable_tac. Qed.

(** Every computation only appends to the trace. *)
Lemma delete_document_record_appends (f : SqlFault) (file_id : nat) :
  stable (emits (fun _ => True)) (delete_document_record f file_id).
Proof. stable_tac. Qed.

Lemma delete_document_record_enters (f : SqlFault) (file_id : nat)
    (w : World) :
  exists evs,
    trace (after (delete_document_record f file_id) w)
    = trace w ++ Enter (c_delete_document_record file_id) :: evs
    /\ Forall not_registry_delete evs.
Proof.
  unfold delete_document_record, get_db_connection, execute_delete_document,
    sqlite3_connect.
  destruct f; py_run;
    try (destruct (document_store (database w)) as [rows|]; py_run);
    try (destruct (fits_int64 file_id); py_run);
    try match goal with
        | |- context [length ?l] => destruct (length l); py_run
        end;
    rewrite <- ?app_assoc; cbn; eexists; (split; [reflexivity|]);
    repeat constructor; intros ?; discriminate.
Qed.

Lemma delete_doc_from_chroma_appends (env : DeleteEnv) (file_id : nat)
    (nomic_api_key : string) :
  stable (emits (fun _ => True))
    (delete_doc_from_chroma env file_id nomic_api_key).
Proof. stable_tac. Qed.

Lemma get_all_documents_appends (f : SqlFault) :
  stable (emits (fun _ => True)) (get_all_documents f).
Proof. stable_tac. Qed.

#[export] Hint Resolve
  get_db_connection_keeps_files
  delete_document_record_keeps_files
  get_all_documents_keeps_files
  get_all_documents_keeps_database
  get_all_documents_no_registry_delete
  get_all_documents_appends
  delete_document_record_appends
  delete_doc_from_chroma_appends
  delete_doc_from_chroma_keeps_database
  delete_doc_from_chroma_no_registry_delete
  index_document_to_chroma_keeps_database
  index_document_to_chroma_no_registry_delete
  insert_document_record_no_registry_delete : stable.

(** *** Deleting a document *)

(** C3. In the delete flow the registry delete starts only when
    [delete_doc_from_chroma] has returned [True]: when it has not, no call of
    [delete_document_record] is in the trace of the click and the database
    file is what it was, so the document's row is still there; when it has,
    [delete_document_record] is called for the selected id. *)
Theorem registry_delete_only_after_vector_delete (env : RemoveEnv)
    (selected_file_id : nat) (nomic_api_key : string) (w : World) :
  truthy_str nomic_api_key = true ->
  let chroma_deleted :=
    outcome (delete_doc_from_chroma (re_chroma env) selected_file_id
               nomic_api_key) w in
  let w' := after (delete_selected_document env selected_file_id
                     nomic_api_key) w in
  (chroma_deleted <> Ok true ->
   database w' = database w
   /\ forall file_id,
        Enter (c_delete_document_record file_id) ∉ events_since w w')
  /\ (chroma_deleted = Ok true ->
      Enter (c_delete_document_record selected_file_id)
      ∈ events_since w w').
Proof.
  intros Hkey chroma_deleted w'.
  set (c := delete_doc_from_chroma (re_chroma env) selected_file_id
              nomic_api_key) in *.
  set (wc := after c w).
  assert (Hdb : database wc = database w)
    by apply delete_doc_from_chroma_keeps_database.
  assert (Hnrd : emits not_registry_delete w wc)
    by apply delete_doc_from_chroma_no_registry_delete.
  unfold w', delete_selected_document. rewrite Hkey. cbn [negb].
  fold c.
  match goal with |- context [bind c ?k] => set (rest := k) end.
  split.
  - intros Hnot.
    assert (Hrest : keeps database wc (after (bind c rest) w)
                    /\ emits not_registry_delete wc (after (bind c rest) w)).
    { destruct chroma_deleted as [[|]|e] eqn:Ho; [done| |].
      - rewrite (after_bind_ok _ _ _ _ Ho). fold wc.
        assert (Hs1 : stable (keeps database) (rest false))
          by (unfold rest; stable_tac).
        assert (Hs2 : stable (emits not_registry_delete) (rest false))
          by (unfold rest; stable_tac).
        split; [apply Hs1 | apply Hs2].
      - rewrite (after_bind_raise _ _ _ _ Ho). fold wc. split; reflexivity. }
    destruct Hrest as [Hk Hem]. split; [unfold keeps in Hk; congruence|].
    intros file_id. apply not_registry_delete_absent. etrans; eassumption.
  - intros Ho. rewrite (after_bind_ok _ _ _ _ Ho). fold wc. unfold rest.
    set (del := delete_document_record (re_registry env) selected_file_id).
    destruct (delete_document_record_enters (re_registry env)
                selected_file_id wc) as (evs & Htr & _). fold del in Htr.
    eapply (elem_of_events_since _ w wc (after del wc)).
    + eapply emits_weaken; [|exact Hnrd]. done.
    + unfold events_since. rewrite Htr, drop_app_length. now left.
    + apply delete_document_record_appends.
    + match goal with
      | |- emits _ _ (after (bind (bind del ?k1) ?k2) wc) =>
          transitivity (after (bind del k1) wc);
          [apply (bind_appends del k1) | apply (bind_appends (bind del k1) k2)]
      end.
      * intros [|]; stable_tac.
      * intros _. stable_tac.
Qed.

Lemma registry_delete_only_after_vector_delete_witness :
  outcome (delete_doc_from_chroma (re_chroma remove_env_chroma_fails) 1
             "nomic-key") world_a_pdf = Ok false
  /\ database (after (delete_selected_document remove_env_chroma_fails 1
                        "nomic-key") world_a_pdf)
     = database world_a_pdf.
Proof.
  split; [vm_compute; reflexivity|].
  destruct (registry_delete_only_after_vector_delete remove_env_chroma_fails
              1 "nomic-key" world_a_pdf eq_refl) as [H _].
  apply H. vm_compute. discriminate.
Defined.

(** *** The temporary file *)

Lemma remove_temp_file_removes (temp_file_path : string) (w : World) :
  files (after (remove_temp_file temp_file_path) w)
  = files w ∖ {[ temp_file_path ]}.
Proof.
  unfold remove_temp_file. py_run.
  destruct (decide (temp_file_path ∈ files w)) as [Hin|Hout].
  - rewrite bool_decide_eq_true_2 by assumption. reflexivity.
  - rewrite bool_decide_eq_false_2 by assumption. cbn.
    apply set_eq. intros q. rewrite elem_of_difference, elem_of_singleton.
    split; [intros Hq; split; [exact Hq | congruence] | tauto].
Qed.

(** Whatever the guarded block does, returns or raises, the file is gone
    when the [try] / [finally] statement is left. *)
Lemma finally_removes_temp_file {A} (body : M A) (temp_file_path : string)
    (w : World) :
  temp_file_path
  ∉ files (after (try_finally body (remove_temp_file temp_file_path)) w).
Proof.
  rewrite after_try_finally, remove_temp_file_removes.
  rewrite elem_of_difference, elem_of_singleton. tauto.
Qed.

Lemma stage_upload_effect (tmp_stem name : string) (w : World) :
  let temp_file_path := (tmp_stem ++ splitext_ext name)%string in
  outcome (stage_upload Staged tmp_stem name) w = Ok temp_file_path
  /\ files (after (stage_upload Staged tmp_stem name) w)
     = {[ temp_file_path ]} ∪ files w
  /\ database (after (stage_upload Staged tmp_stem name) w) = database w
  /\ trace (after (stage_upload Staged tmp_stem name) w) = trace w.
Proof. repeat split; reflexivity. Qed.

Lemma handle_results_keeps_files (env : UploadEnv)
    (locals : option nat * bool) :
  stable (keeps files) (handle_results env locals).
Proof. stable_tac. Qed.

Lemma register_and_index_removes_only (env : UploadEnv)
    (name temp_file_path nomic_api_key : string) :
  stable (removes_only temp_file_path)
    (register_and_index env name temp_file_path nomic_api_key).
Proof. stable_tac. Qed.

Lemma handle_results_removes_only (env : UploadEnv)
    (locals : option nat * bool) (p : string) :
  stable (removes_only p) (handle_results env locals).
Proof. stable_tac. Qed.

Lemma get_all_documents_removes_only (f : SqlFault) (p : string) :
  stable (removes_only p) (get_all_documents f).
Proof. stable_tac. Qed.

(** The upload flow once the API key is present. *)
Lemma upload_document_unfold (env : UploadEnv) (name nomic_api_key : string)
    (w : World) :
  truthy_str nomic_api_key = true ->
  ue_stage env = Staged ->
  let temp_file_path := (ue_tmp_stem env ++ splitext_ext name)%string in
  upload_document env name nomic_api_key w
  = bind (bind (register_and_index env name temp_file_path nomic_api_key)
            (handle_results env))
      (fun _ => get_all_documents (ue_refresh env))
      (after (stage_upload Staged (ue_tmp_stem env) name) w).
Proof.
  intros Hkey Hstage temp_file_path. unfold upload_document.
  rewrite Hkey, Hstage. cbn [negb]. reflexivity.
Qed.

(** C9 (the part that holds). Once a file has been staged for an upload, it
    is gone when the click has been handled, whatever happened to the
    registration, to the indexing and to the rollback: the file exists after
    the staging, does not exist at the end, and no other path has
    disappeared.  The [finally] block does this for any guarded block, also
    one that raises. *)
Theorem upload_removes_temp_file (env : UploadEnv)
    (name nomic_api_key : string) (w : World) :
  truthy_str nomic_api_key = true ->
  ue_stage env = Staged ->
  let temp_file_path := (ue_tmp_stem env ++ splitext_ext name)%string in
  let w' := after (upload_document env name nomic_api_key) w in
  temp_file_path
  ∈ files (after (stage_upload Staged (ue_tmp_stem env) name) w)
  /\ (temp_file_path ∉ files w')
  /\ (forall q, q <> temp_file_path -> q ∈ files w -> q ∈ files w')
  /\ (forall (A : Type) (body : M A) (w0 : World),
        temp_file_path
        ∉ files (after (try_finally body (remove_temp_file temp_file_path))
                   w0)).
Proof.
  intros Hkey Hstage temp_file_path w'.
  destruct (stage_upload_effect (ue_tmp_stem env) name w)
    as (Hso & Hsf & _ & _). fold temp_file_path in Hso, Hsf.
  set (ws := after (stage_upload Staged (ue_tmp_stem env) name) w) in *.
  assert (Hw' : w' = after
            (bind (bind (register_and_index env name temp_file_path
                           nomic_api_key)
                     (handle_results env))
               (fun _ => get_all_documents (ue_refresh env))) ws).
  { unfold w', after at 1.
    now rewrite (upload_document_unfold env name nomic_api_key w Hkey
                   Hstage). }
  split; [rewrite Hsf; set_solver|]. split; [|split].
  - rewrite Hw'.
    rewrite (after_bind_keeps files)
      by (intros _; apply get_all_documents_keeps_files).
    rewrite (after_bind_keeps files)
      by (intros locals; apply handle_results_keeps_files).
    apply finally_removes_temp_file.
  - intros q Hq Hin. rewrite Hw'.
    assert (Hst : stable (removes_only temp_file_path)
              (bind (bind (register_and_index env name temp_file_path
                             nomic_api_key)
                       (handle_results env))
                 (fun _ => get_all_documents (ue_refresh env)))).
    { apply stable_bind; [tc_solve| |intros _;
                                      apply get_all_documents_removes_only].
      apply stable_bind; [tc_solve| |intros locals;
                                      apply handle_results_removes_only].
      apply register_and_index_removes_only. }
    apply (Hst ws q Hq). rewrite Hsf. set_solver.
  - intros A body w0. apply finally_removes_temp_file.
Qed.

Lemma upload_removes_temp_file_witness :
  "/tmp/tmpk3v9.docx"
  ∉ files (after (upload_document upload_env_loader_fails "b.docx"
                    "nomic-key") world_a_pdf).
Proof.
  destruct (upload_removes_temp_file upload_env_loader_fails "b.docx"
              "nomic-key" world_a_pdf eq_refl eq_refl) as (_ & H & _).
  exact H.
Defined.

(** When the copy into the temporary file raises, the click ends with that
    exception before the [try] statement is reached: nothing is registered,
    nothing is shown or logged, [os.remove] is not called, and the file that
    [NamedTemporaryFile] created is still there. *)
Lemma failed_copy_skips_cleanup (env : UploadEnv)
    (name nomic_api_key : string) (w : World) (e : exn) :
  truthy_str nomic_api_key = true ->
  ue_stage env = CopyFails e ->
  let temp_file_path := (ue_tmp_stem env ++ splitext_ext name)%string in
  let w' := after (upload_document env name nomic_api_key) w in
  outcome (upload_document env name nomic_api_key) w = Raise e
  /\ temp_file_path ∈ files w'
  /\ database w' = database w
  /\ trace w' = trace w.
Proof.
  intros Hkey Hstage temp_file_path w'.
  unfold w', outcome, after, upload_document, stage_upload.
  rewrite Hkey, Hstage. cbn. repeat split. set_solver.
Qed.

(** C9 (the code at the failing input). ["a.pdf"] is uploaded and
    [shutil.copyfileobj] raises [OSError] (the disk is full) after
    [NamedTemporaryFile(delete=False)] has created ["/tmp/tmpk3v9.pdf"]: the
    click ends with the [OSError], no [finally] block has run, and the
    temporary file, which did not exist before the click, exists after it. *)
Theorem failed_copy_leaves_temp_file :
  let click := upload_document upload_env_copy_fails "a.pdf" "nomic-key" in
  ("/tmp/tmpk3v9.pdf" ∉ files world_ready)
  /\ outcome click world_ready = Raise OSError
  /\ "/tmp/tmpk3v9.pdf" ∈ files (after click world_ready)
  /\ events_since world_ready (after click world_ready) = [].
Proof.
  cbv zeta.
  destruct (failed_copy_skips_cleanup upload_env_copy_fails "a.pdf"
              "nomic-key" world_ready OSError eq_refl eq_refl)
    as (Hout & Hin & _ & Htr).
  split; [vm_compute; set_solver|]. split; [exact Hout|].
  split; [exact Hin|].
  unfold events_since. rewrite Htr. apply drop_all.
Qed.

(** *** Rolling back a registration *)

Lemma remove_temp_file_returns (temp_file_path : string) (w : World) :
  outcome (remove_temp_file temp_file_path) w = Ok tt.
Proof.
  unfold remove_temp_file. py_run.
  now destruct (bool_decide (temp_file_path ∈ files w)).
Qed.

Lemma remove_temp_file_keeps_database (temp_file_path : string) :
  stable (keeps database) (remove_temp_file temp_file_path).
Proof. stable_tac. Qed.

Lemma remove_temp_file_no_registry_delete (temp_file_path : string) :
  stable (emits not_registry_delete) (remove_temp_file temp_file_path).
Proof. stable_tac. Qed.

(** A registration that returns an id met no fault and a new name. *)
Lemma insert_document_record_ok_inv (f : SqlFault) (filename : string)
    (w : World) (file_id : nat) :
  outcome (insert_document_record f filename) w = Ok file_id ->
  exists rows,
    document_store (database w) = Some rows
    /\ (filename ∉ map doc_filename rows)
    /\ file_id = S (document_seq (database w))
    /\ document_store
         (database (after (insert_document_record f filename) w))
       = Some (rows ++ [ {| doc_id := file_id; doc_filename := filename;
                            doc_upload_timestamp := clock w |} ]).
Proof.
  destruct f; [|discriminate|discriminate].
  destruct (document_store (database w)) as [rows|] eqn:Hs.
  - destruct (decide (filename ∈ map doc_filename rows)) as [Hin|Hout].
    + destruct (insert_document_record_duplicate w rows filename Hs Hin)
        as [-> _]. discriminate.
    + destruct (insert_document_record_fresh w rows filename Hs Hout)
        as [-> ->]. intros [= <-]. exists rows. cbn. auto.
  - unfold insert_document_record, get_db_connection,
      execute_insert_document, sqlite3_connect.
    py_run. rewrite Hs. discriminate.
Qed.

(** The [try] statement of an upload whose registration returns [file_id]
    and whose indexing returns [False]. *)
Lemma register_and_index_failed (env : UploadEnv)
    (name temp_file_path nomic_api_key : string) (ws : World)
    (file_id : nat) :
  let register := insert_document_record (ue_insert env) name in
  let index := index_document_to_chroma (ue_index env) temp_file_path file_id
                 nomic_api_key in
  outcome register ws = Ok file_id ->
  outcome index (after register ws) = Ok false ->
  register_and_index env name temp_file_path nomic_api_key ws
  = (Ok (Some file_id, false),
     after (remove_temp_file temp_file_path)
       (after index (after register ws))).
Proof.
  intros register index Hreg Hidx.
  destruct (insert_document_record_ok_inv _ _ _ _ Hreg)
    as (rows & _ & _ & Hid & _).
  assert (Ht : truthy_int file_id = true) by (rewrite Hid; reflexivity).
  pose proof (run_eta register ws) as Hr. rewrite Hreg in Hr.
  pose proof (run_eta index (after register ws)) as Hi. rewrite Hidx in Hi.
  pose proof (run_eta (remove_temp_file temp_file_path)
                (after index (after register ws))) as Hf.
  rewrite remove_temp_file_returns in Hf.
  unfold register_and_index. fold register.
  unfold try_finally, try_except, bind. rewrite Hr.
  cbv beta iota delta [ret]. rewrite Ht. fold index. rewrite Hi.
  cbv beta iota. rewrite Hf. reflexivity.
Qed.

(** What [delete_document_record] does to the database file. *)
Lemma delete_document_record_database (f : SqlFault) (file_id : nat)
    (w : World) :
  database (after (delete_document_record f file_id) w)
  = match f, document_store (database w) with
    | NoFault, Some rows =>
        if fits_int64 file_id then
          {| application_logs := application_logs (database w);
             document_store :=
               Some (filter (fun r => doc_id r <> file_id) rows);
             document_seq := document_seq (database w) |}
        else database w
    | _, _ => database w
    end.
Proof.
  unfold delete_document_record, get_db_connection, execute_delete_document,
    sqlite3_connect.
  destruct f; py_run; try reflexivity;
    (destruct (document_store (database w)) as [rows|]; py_run;
     [|reflexivity]);
    (destruct (fits_int64 file_id); py_run; [|reflexivity]);
    try reflexivity.
  match goal with
  | |- context [length ?l] => destruct (length l)
  end; reflexivity.
Qed.

(** Step 5 for a registered document whose indexing failed: the error
    message, then one call of [delete_document_record]. *)
Lemma handle_results_rollback (env : UploadEnv) (file_id : nat) (w : World) :
  truthy_int file_id = true ->
  let rollback := delete_document_record (ue_rollback env) file_id in
  database (after (handle_results env (Some file_id, false)) w)
  = database (after rollback w)
  /\ exists evs,
       trace (after (handle_results env (Some file_id, false)) w)
       = trace w ++ StError :: Enter (c_delete_document_record file_id) :: evs
       /\ Forall not_registry_delete evs.
Proof.
  intros Ht rollback. unfold handle_results. rewrite Ht. cbn [andb negb].
  assert (He : emit StError w
               = (Ok tt, set_trace (trace w ++ [StError]) w)) by reflexivity.
  assert (Hafter : after (bind (emit StError)
                            (fun _ => bind rollback (fun _ => ret tt))) w
                   = after rollback (set_trace (trace w ++ [StError]) w)).
  { unfold after at 1. rewrite (run_bind_ok _ _ _ _ _ He).
    apply after_bind_ret. }
  fold rollback. rewrite Hafter. split.
  - unfold rollback. now rewrite !delete_document_record_database.
  - destruct (delete_document_record_enters (ue_rollback env) file_id
                (set_trace (trace w ++ [StError]) w)) as (evs & Htr & Hall).
    exists evs. split; [|exact Hall]. fold rollback in Htr. rewrite Htr. cbn.
    now rewrite <- app_assoc.
Qed.




(** ** Indexing *)

(** C6 (the code at the failing input). The vector store handle was cached
    while ["a.pdf"] was indexed under ["nomic-key"].  An indexing under
    ["other-key"], whose embedding client cannot be built, gets [None] from
    [get_embedding_function]; [get_vector_store(None)] then returns the cached
    handle, because its cache key does not depend on its argument, and the
    check [if not vs] passes: the chunk is written and the call returns
    [True]. *)
Theorem index_without_embedding_client_writes :
  let call := index_document_to_chroma index_env_no_client "/tmp/tmpb2.pdf" 2
                "other-key" in
  outcome call world_indexed = Ok true
  /\ embedding_cache (caches (after call world_indexed)) !! other_key
     = Some None
  /\ collection (after call world_indexed)
     = collection world_indexed ++ [ tag_file_id "2" example_chunk ]
  /\ events_since world_indexed (after call world_indexed)
     = [ Enter (c_index_document_to_chroma "/tmp/tmpb2.pdf" 2);
         Enter (c_get_embedding_function other_key);
         Lib (l_NomicEmbeddings "nomic-embed-text-v1.5" None);
         Logged ERROR; StError;
         Enter (c_load_and_split_document "/tmp/tmpb2.pdf");
         Lib (l_loader_load "/tmp/tmpb2.pdf");
         Lib (l_add_documents 1) ].
Proof. cbv zeta. repeat split; vm_compute; reflexivity. Qed.

(** *** What an indexing can do *)

Lemma get_vector_store_body_returns (o : ChromaOutcome)
    (emb : option Embeddings) (w : World) :
  exists v, outcome (get_vector_store_body o emb) w = Ok v.
Proof.
  unfold get_vector_store_body, os_makedirs_persist, Chroma_ctor, new_object.
  destruct emb as [e|]; py_run; [|eauto].
  destruct o as [mk ctor ok].
  destruct (bool_decide (persist_directory ∈ files w)); py_run;
    destruct mk; py_run; destruct ctor; py_run; eauto.
Qed.

Lemma get_vector_store_returns (o : ChromaOutcome) (emb : option Embeddings)
    (w : World) :
  exists v, get_vector_store o emb w
            = (Ok v, after (get_vector_store o emb) w).
Proof.
  unfold after, get_vector_store.
  destruct (vector_store_cache (caches w) !! ()) as [v|] eqn:Hk.
  - rewrite (cache_resource_hit vector_store_cache put_vector_store_cache
               () _ w v Hk). eauto.
  - rewrite (cache_resource_miss vector_store_cache put_vector_store_cache
               () _ w Hk).
    destruct (get_vector_store_body_returns o emb w) as [v Hv].
    unfold outcome in Hv.
    destruct (get_vector_store_body o emb w) as [[v'|e] w1]; [|discriminate].
    eauto.
Qed.

(** Whatever client it is given, a later call of [get_vector_store] returns
    what the first one returned, a handle or [None]. *)
Lemma get_vector_store_first_result (o1 o2 : ChromaOutcome)
    (emb1 emb2 : option Embeddings) (w w1 : World) (vs : option Chroma) :
  get_vector_store o1 emb1 w = (Ok vs, w1) ->
  get_vector_store o2 emb2 w1 = (Ok vs, w1).
Proof.
  exact (cache_resource_again vector_store_cache put_vector_store_cache
           (fun _ _ => eq_refl) () _ _ w w1 vs).
Qed.

Lemma get_embedding_function_keeps_collection (o : Outcome) (k : EmbKey) :
  stable (keeps collection) (get_embedding_function o k).
Proof. stable_tac. Qed.

Lemma get_vector_store_keeps_collection (o : ChromaOutcome)
    (emb : option Embeddings) :
  stable (keeps collection) (get_vector_store o emb).
Proof. stable_tac. Qed.

Lemma load_and_split_document_keeps_collection (o : LoadOutcome)
    (file_path : string) :
  stable (keeps collection) (load_and_split_document o file_path).
Proof. stable_tac. Qed.

(** Chunks come from the loader only. *)
Lemma load_and_split_document_chunks (o : LoadOutcome) (file_path : string)
    (w : World) (s : Document) (ss : list Document) :
  outcome (load_and_split_document o file_path) w = Ok (s :: ss) ->
  o = Loaded (s :: ss).
Proof.
  unfold load_and_split_document. py_run.
  destruct (_ || _); py_run; [|discriminate].
  destruct o as [splits|e]; py_run; [congruence|].
  destruct (is_ValueError e); discriminate.
Qed.

(** [bool(vs)] reads the collection at most. *)
Lemma truthy_Chroma_run (vs : Chroma) (w : World) :
  truthy_Chroma vs w
  = (if vs_len vs then
       if vs_collection vs then
         Ok (match collection w with [] => false | _ :: _ => true end)
       else Raise AttributeError
     else Ok true, w).
Proof.
  unfold truthy_Chroma. destruct (vs_len vs), (vs_collection vs); reflexivity.
Qed.

(** The [try] block returns [True] after the loader has given at least one
    chunk and [add_documents] has stored the tagged chunks, and [False] with
    the collection left as it was in every other case. *)
Lemma load_and_add_result (env : IndexEnv) (vs : Chroma) (file_path : string)
    (file_id : nat) (w : World) :
  let call := load_and_add env vs file_path file_id in
  (outcome call w = Ok false /\ collection (after call w) = collection w)
  \/ (outcome call w = Ok true
      /\ exists splits,
           ie_load env = Loaded splits /\ splits <> []
           /\ ie_add env = Succeeds
           /\ collection (after call w)
              = collection w ++ map (tag_file_id (pretty file_id)) splits).
Proof.
  intros call. unfold outcome, after.
  destruct (call w) as [r wfin] eqn:Hcall. cbn [fst snd].
  unfold call, load_and_add in Hcall.
  pose proof (load_and_split_document_keeps_collection (ie_load env)
                file_path w) as Hl. unfold keeps, after in Hl.
  pose proof (load_and_split_document_chunks (ie_load env) file_path w)
    as Hchunks. unfold outcome in Hchunks.
  unfold try_except, bind at 1 in Hcall.
  destruct (load_and_split_document (ie_load env) file_path w)
    as [[splits|e] wl]; cbn in Hl, Hchunks.
  - destruct splits as [|s ss].
    + py_run in Hcall. injection Hcall as <- <-. left. now split.
    + cbn [map] in Hcall. unfold add_documents in Hcall.
      destruct (ie_add env) as [|e].
      * py_run in Hcall. injection Hcall as <- <-. right.
        split; [reflexivity|]. exists (s :: ss). cbn.
        repeat split; try done; [now apply Hchunks | congruence].
      * py_run in Hcall. injection Hcall as <- <-. left. now split.
  - py_run in Hcall. injection Hcall as <- <-. left. now split.
Qed.

(** One call of [index_document_to_chroma], step by step: the embedding
    client [emb] and the handle [vs] it obtains, and what it returns.  It
    raises only when [bool(vs)] does, a handle that counts a collection it
    does not have.  Without a handle, and with a handle that counts an empty
    collection, it returns [False].  It returns [True] only after the loader
    has given at least one chunk and [add_documents] has stored the tagged
    chunks; in every other case the collection is what it was. *)
Lemma index_document_to_chroma_result (env : IndexEnv) (file_path : string)
    (file_id : nat) (nomic_api_key : string) (w : World) :
  let call := index_document_to_chroma env file_path file_id nomic_api_key in
  let w0 := after (emit (Enter (c_index_document_to_chroma file_path
                                  file_id))) w in
  let k := (nomic_api_key, NOMIC_MODEL_NAME w, NOMIC_DIMENSIONALITY w) in
  let we := after (get_embedding_function (ie_embedding env) k) w0 in
  exists emb vs,
    outcome (get_embedding_function (ie_embedding env) k) w0 = Ok emb
    /\ outcome (get_vector_store (ie_chroma env) emb) we = Ok vs
    /\ (forall e, outcome call w = Raise e ->
         e = AttributeError
         /\ exists h, vs = Some h /\ vs_len h = true
                      /\ vs_collection h = false)
    /\ (vs = None -> outcome call w = Ok false)
    /\ (forall h, vs = Some h -> vs_len h = true -> vs_collection h = true ->
         collection w = [] -> outcome call w = Ok false)
    /\ (outcome call w = Ok true ->
        exists splits,
          ie_load env = Loaded splits /\ splits <> []
          /\ ie_add env = Succeeds
          /\ collection (after call w)
             = collection w ++ map (tag_file_id (pretty file_id)) splits)
    /\ (outcome call w <> Ok true -> collection (after call w) = collection w).
Proof.
  intros call w0 k we.
  destruct (get_embedding_function_returns (ie_embedding env) k w0)
    as [emb He]. fold we in He.
  destruct (get_vector_store_returns (ie_chroma env) emb we) as [vs Hv].
  set (wv := after (get_vector_store (ie_chroma env) emb) we) in *.
  assert (Hcol : collection wv = collection w).
  { transitivity (collection we);
      [apply get_vector_store_keeps_collection|].
    transitivity (collection w0);
      [apply get_embedding_function_keeps_collection | reflexivity]. }
  exists emb, vs.
  split; [unfold outcome; now rewrite He|].
  split; [unfold outcome; now rewrite Hv|].
  unfold outcome, after.
  destruct (call w) as [r wfin] eqn:Hcall. cbn [fst snd].
  unfold call, index_document_to_chroma in Hcall.
  unfold bind at 1 2 3 4 5 in Hcall. unfold emit, modify, get in Hcall.
  cbv beta iota in Hcall.
  change (set_trace (trace w ++ [Enter (c_index_document_to_chroma file_path
                                          file_id)]) w) with w0 in Hcall.
  change (NOMIC_MODEL_NAME w0) with (NOMIC_MODEL_NAME w) in Hcall.
  change (NOMIC_DIMENSIONALITY w0) with (NOMIC_DIMENSIONALITY w) in Hcall.
  fold k in Hcall. rewrite He in Hcall. cbv beta iota in Hcall.
  rewrite Hv in Hcall. cbv beta iota in Hcall.
  clearbody wv we w0 k call.
  destruct vs as [v|].
  - (* a handle *)
    unfold bind at 1 in Hcall. rewrite truthy_Chroma_run in Hcall.
    rewrite Hcol in Hcall.
    pose proof (load_and_add_result env v file_path file_id wv) as Hbody.
    cbv zeta in Hbody. unfold outcome, after in Hbody. rewrite Hcol in Hbody.
    destruct (vs_len v) eqn:Hlen; [destruct (vs_collection v) eqn:Hc|].
    + (* the handle counts its collection *)
      destruct (collection w) as [|c cs] eqn:Hw.
      * py_run in Hcall. injection Hcall as <- <-.
        repeat split; try done; cbn; congruence.
      * cbv beta iota in Hcall. cbn [negb] in Hcall. cbv iota in Hcall.
        rewrite Hcall in Hbody. cbn [fst snd] in Hbody.
        destruct Hbody as [[-> Hfin]|[-> Hfin]]; repeat split; try done.
    + (* the handle counts a collection it does not have *)
      injection Hcall as <- <-. repeat split; try done.
      * congruence.
      * now exists v.
      * intros h [= <-]. congruence.
    + (* a plain object *)
      cbv beta iota in Hcall. cbn [negb] in Hcall. cbv iota in Hcall.
      rewrite Hcall in Hbody. cbn [fst snd] in Hbody.
      destruct Hbody as [[-> Hfin]|[-> Hfin]]; repeat split; try done;
        intros h [= <-]; congruence.
  - py_run in Hcall. injection Hcall as <- <-.
    repeat split; try done; cbn; congruence.
Qed.

Lemma get_embedding_function_keeps_vector_store_cache (o : Outcome)
    (k : EmbKey) :
  stable (keeps (fun w => vector_store_cache (caches w)))
    (get_embedding_function o k).
Proof. stable_tac. Qed.

(** With a supported file, chunks from the loader and a store that takes
    them, the [try] block stores the tagged chunks. *)
Lemma load_and_add_stores (env : IndexEnv) (vs : Chroma) (file_path : string)
    (file_id : nat) (w : World) (s : Document) (ss : list Document) :
  supported file_path = true ->
  ie_load env = Loaded (s :: ss) ->
  ie_add env = Succeeds ->
  outcome (load_and_add env vs file_path file_id) w = Ok true
  /\ collection (after (load_and_add env vs file_path file_id) w)
     = collection w ++ map (tag_file_id (pretty file_id)) (s :: ss).
Proof.
  unfold supported. intros Hs Hl Ha.
  unfold load_and_add, load_and_split_document, add_documents.
  rewrite Hl, Ha. py_run. rewrite Hs. py_run. split; reflexivity.
Qed.

(** With a handle in the cache that is truthy (a plain object, or one that
    counts a collection that is not empty), an indexing under a key for which
    [get_embedding_function] returns [None] stores the chunks and returns
    [True]: [get_vector_store(None)] answers from the cache. *)
Lemma index_with_cached_handle_ignores_client (env : IndexEnv) (file_path : string)
    (file_id : nat) (nomic_api_key : string) (w : World) (h : Chroma)
    (s : Document) (ss : list Document) :
  let call := index_document_to_chroma env file_path file_id nomic_api_key in
  let w0 := after (emit (Enter (c_index_document_to_chroma file_path
                                  file_id))) w in
  let k := (nomic_api_key, NOMIC_MODEL_NAME w, NOMIC_DIMENSIONALITY w) in
  vector_store_cache (caches w) !! () = Some (Some h) ->
  vs_len h = false \/ (vs_collection h = true /\ collection w <> []) ->
  outcome (get_embedding_function (ie_embedding env) k) w0 = Ok None ->
  supported file_path = true ->
  ie_load env = Loaded (s :: ss) ->
  ie_add env = Succeeds ->
  outcome call w = Ok true
  /\ collection (after call w)
     = collection w ++ map (tag_file_id (pretty file_id)) (s :: ss).
Proof.
  intros call w0 k Hc Htruthy He Hs Hl Ha.
  set (we := after (get_embedding_function (ie_embedding env) k) w0).
  assert (He' : get_embedding_function (ie_embedding env) k w0 = (Ok None, we)).
  { rewrite (run_eta _ w0). now rewrite He. }
  assert (Hcache : vector_store_cache (caches we) !! () = Some (Some h)).
  { unfold we.
    rewrite (get_embedding_function_keeps_vector_store_cache _ k w0).
    exact Hc. }
  assert (Hcol : collection we = collection w).
  { unfold we. now rewrite (get_embedding_function_keeps_collection _ k w0). }
  assert (Hv : get_vector_store (ie_chroma env) None we = (Ok (Some h), we)).
  { unfold get_vector_store.
    now rewrite (cache_resource_hit vector_store_cache put_vector_store_cache
                   () _ we (Some h) Hcache). }
  assert (Ht : truthy_Chroma h we = (Ok true, we)).
  { rewrite truthy_Chroma_run, Hcol.
    destruct Htruthy as [->|[-> Hne]]; [reflexivity|].
    destruct (vs_len h); [|reflexivity].
    destruct (collection w); [done | reflexivity]. }
  destruct (load_and_add_stores env h file_path file_id we s ss Hs Hl Ha)
    as [Ho Hfin].
  assert (Hrun : call w = load_and_add env h file_path file_id we).
  { unfold call, index_document_to_chroma.
    unfold bind at 1 2 3 4 5. unfold emit, modify, get. cbv beta iota.
    change (set_trace (trace w ++ [Enter (c_index_document_to_chroma file_path
                                          file_id)]) w) with w0.
    change (NOMIC_MODEL_NAME w0) with (NOMIC_MODEL_NAME w).
    change (NOMIC_DIMENSIONALITY w0) with (NOMIC_DIMENSIONALITY w).
    fold k. rewrite He'. cbv beta iota. rewrite Hv. cbv beta iota.
    unfold bind at 1. rewrite Ht. reflexivity. }
  unfold outcome, after in *. rewrite Hrun. split; [exact Ho|].
  now rewrite Hfin, Hcol.
Qed.

(** ** Invariants of the reachable worlds *)

(** *** The embedding cache stays sound *)

Lemma new_object_sound : stable (preserves cache_sound) new_object.
Proof.
  intros w [Hlt Hinj]. split.
  - intros k e Hk. specialize (Hlt k e Hk). cbn. lia.
  - exact Hinj.
Qed.

Lemma get_embedding_function_preserves_sound (o : Outcome) (k : EmbKey) :
  stable (preserves cache_sound) (get_embedding_function o k).
Proof. intros w. exact (get_embedding_function_sound o k w). Qed.

#[export] Hint Resolve new_object_sound
  get_embedding_function_preserves_sound : stable.

Lemma perform_sound (op : Op) (w : World) :
  cache_sound w -> cache_sound (perform op w).
Proof.
  destruct op; cbn [perform];
    match goal with
    | |- _ -> cache_sound (after ?c w) =>
        assert (Hst : stable (preserves cache_sound) c) by stable_tac;
        exact (Hst w)
    end.
Qed.

(** Every reachable world has a sound embedding cache. *)
Lemma reachable_invariant (w : World) : reachable w -> cache_sound w.
Proof.
  induction 1 as [imported model dimensionality | op w _ IH].
  - split; intros *; cbn; rewrite lookup_empty; discriminate.
  - now apply perform_sound.
Qed.

Lemma world_ready_reachable : reachable world_ready.
Proof.
  exact (reachable_perform (op_ensure_db_initialized InitNoFault) _
           (reachable_fresh true "nomic-embed-text-v1.5" None)).
Defined.

(** ** The chat history and the cached clients *)

(** C5 (as amended). [get_chat_history] returns the rows of the session
    ordered by [created_at], the reading of the wall clock when each row was
    written, rows with the same reading in the order they were inserted; each
    row gives its user entry and then its assistant entry, empty fields
    skipped; a session without rows gives the empty list.  After
    [append_turns ts] on a session that was unknown, with [N] turns of the
    session that have both fields present, the history is exactly the [N]
    exchanges, user then assistant ([2 * N] entries), the turns ordered by
    their clock readings.  Whenever the readings of the session's rows do not
    decrease in the order of insertion (the wall clock was not set back
    between two of them), all this is in insertion order: the history is
    that of the rows in the order they were inserted, and after
    [append_turns ts] the turns of the session follow what was there. *)
Theorem get_chat_history_roundtrip (w : World) (rows : list LogRow)
    (session_id : string) (ts : list Turn) :
  application_logs (database w) = Some rows ->
  let known := filter (fun r => log_session_id r = session_id) rows in
  let mine := filter (fun t => turn_session_id t = session_id) ts in
  let w' := after (append_turns ts) w in
  let by_created_at :=
    order_by (fun a b => log_created_at a <=? log_created_at b)%nat in
  let by_clock := order_by (fun a b => turn_clock a <=? turn_clock b)%nat in
  outcome (get_chat_history NoFault session_id) w
  = Ok (concat (map row_messages (by_created_at known)))
  /\ StronglySorted earlier (by_created_at known)
  /\ by_created_at known ≡ₚ known
  /\ (known = [] -> outcome (get_chat_history NoFault session_id) w = Ok [])
  /\ outcome (get_chat_history NoFault session_id) w'
     = Ok (concat (map row_messages
                     (by_created_at (known ++ map turn_row mine))))
  /\ (known = [] ->
      Forall (fun t => turn_query t <> "" /\ turn_response t <> "") mine ->
      outcome (get_chat_history NoFault session_id) w'
      = Ok (concat (map exchange (by_clock mine)))
      /\ by_clock mine ≡ₚ mine
      /\ length (concat (map exchange (by_clock mine))) = 2 * length mine)
  /\ (in_clock_order (known ++ map turn_row mine) ->
      outcome (get_chat_history NoFault session_id) w
      = Ok (concat (map row_messages known))
      /\ outcome (get_chat_history NoFault session_id) w'
         = Ok (concat (map row_messages known)
               ++ concat (map turn_messages mine))
      /\ (known = [] ->
          Forall (fun t => turn_query t <> "" /\ turn_response t <> "")
            mine ->
          outcome (get_chat_history NoFault session_id) w'
          = Ok (concat (map exchange mine))
          /\ length (concat (map exchange mine)) = 2 * length mine)).
Proof.
  intros Hs known mine w' by_created_at by_clock.
  assert (Hnow : outcome (get_chat_history NoFault session_id) w
                 = Ok (concat (map row_messages (by_created_at known))))
    by exact (get_chat_history_outcome w rows session_id Hs).
  assert (Hthen : outcome (get_chat_history NoFault session_id) w'
                  = Ok (concat (map row_messages
                                  (by_created_at
                                     (known ++ map turn_row mine))))).
  { destruct (append_turns_effect ts w rows Hs) as [_ Hdb]. fold w' in Hdb.
    rewrite (get_chat_history_outcome w' _ session_id Hdb).
    now rewrite filter_app, filter_turn_rows. }
  assert (Hperm : by_clock mine ≡ₚ mine) by apply (order_by_perm turn_clock).
  split; [exact Hnow|].
  split; [apply (order_by_sorted log_created_at)|].
  split; [apply (order_by_perm log_created_at)|].
  split; [intros Hnone; now rewrite Hnow, Hnone|].
  split; [exact Hthen|]. split.
  - intros Hnone Hfull. split; [|split; [exact Hperm|]].
    + rewrite Hthen, Hnone. cbn [app]. unfold by_created_at.
      rewrite (order_by_map turn_row). fold by_clock.
      f_equal. apply turn_rows_full.
      apply Forall_forall. intros t Ht. rewrite Forall_forall in Hfull.
      apply Hfull. now rewrite <- Hperm.
    + rewrite length_concat_exchange. now rewrite Hperm.
  - intros Horder. unfold in_clock_order in Horder.
    assert (Hknown : StronglySorted earlier known)
      by exact (StronglySorted_app_1_l _ _ _ Horder).
    assert (Hthen' : outcome (get_chat_history NoFault session_id) w'
                     = Ok (concat (map row_messages known)
                           ++ concat (map turn_messages mine))).
    { rewrite Hthen. unfold by_created_at.
      rewrite (order_by_id log_created_at _ Horder).
      now rewrite map_app, concat_app, turn_rows_messages. }
    split; [|split; [exact Hthen'|]].
    + rewrite Hnow. unfold by_created_at.
      now rewrite (order_by_id log_created_at known Hknown).
    + intros Hnone Hfull. split; [|apply length_concat_exchange].
      rewrite Hthen', Hnone. cbn [map concat app].
      now rewrite <- (turn_rows_full mine Hfull), turn_rows_messages.
Qed.

Lemma get_chat_history_roundtrip_witness :
  let later := [ example_turn 9 "s2" "Who?" "Me.";
                 example_turn 12 "s1" "And Y?" "Y is another.";
                 example_turn 12 "s1" "And Z?" "The last." ] in
  outcome (get_chat_history NoFault "s1")
    (after (append_turns later) world_chatted)
  = Ok [ {| role := user; content := "What is X?" |};
         {| role := assistant; content := "X is a letter." |};
         {| role := user; content := "And Y?" |};
         {| role := assistant; content := "Y is another." |};
         {| role := user; content := "And Z?" |};
         {| role := assistant; content := "The last." |} ].
Proof.
  intros later.
  destruct (get_chat_history_roundtrip world_chatted
              (map turn_row chatted_turns) "s1" later eq_refl)
    as (_ & _ & _ & _ & _ & _ & H).
  destruct H as (_ & H & _); [|exact H].
  unfold in_clock_order, earlier. cbn.
  repeat (constructor; cbn; try lia).
Defined.

(** C5 (as stated) fails: a turn of ["s1"] is logged when the wall clock
    reads 100, the clock is set back, and a second turn of ["s1"] is logged
    when it reads 40.  [ORDER BY created_at] puts the second turn first: the
    history has the two user and the two assistant entries, but not in the
    order of insertion. *)
Lemma backward_clock_reorders_history :
  let first := example_turn 100 "s1" "What is X?" "X is a letter." in
  let second := example_turn 40 "s1" "And Y?" "Y is another." in
  let w' := after (append_turns [first; second]) world_ready in
  outcome (get_chat_history NoFault "s1") world_ready = Ok []
  /\ outcome (get_chat_history NoFault "s1") w'
     = Ok (exchange second ++ exchange first)
  /\ outcome (get_chat_history NoFault "s1") w'
     <> Ok (exchange first ++ exchange second).
Proof. cbv zeta. repeat split; vm_compute; [reflexivity..|discriminate]. Qed.

(** C8. Two calls of [get_embedding_function] in a row with the same
    [(api_key, model, dimensionality)] return the same value, the very object
    of the first call, and the second call leaves the world as it is: the body
    does not run again.  In every world the application can reach, a call
    under another key never returns that client: the clients of two keys have
    different identities.  Two calls of [get_cached_rag_chain] with the same
    key likewise return the same chain and the second changes nothing. *)
Theorem cached_resource_identity (o1 o2 : Outcome) (k : EmbKey) (w : World) :
  let w1 := after (get_embedding_function o1 k) w in
  (exists v,
     get_embedding_function o1 k w = (Ok v, w1)
     /\ get_embedding_function o2 k w1 = (Ok v, w1))
  /\ (forall k2 e1 e2,
        reachable w -> k2 <> k ->
        outcome (get_embedding_function o1 k) w = Ok (Some e1) ->
        outcome (get_embedding_function o2 k2) w1 = Ok (Some e2) ->
        emb_obj e1 <> emb_obj e2)
  /\ (forall env1 env2 ck chain w2,
        get_cached_rag_chain env1 ck w = (Ok chain, w2) ->
        get_cached_rag_chain env2 ck w2 = (Ok chain, w2)).
Proof.
  intros w1. split; [|split].
  - destruct (get_embedding_function_returns o1 k w) as [v Hc]. fold w1 in Hc.
    exists v. split; [exact Hc|].
    exact (cache_resource_again embedding_cache put_embedding_cache
             (fun _ _ => eq_refl) _ _ _ _ _ _ Hc).
  - intros k2 e1 e2 Hreach Hne H1 H2.
    exact (get_embedding_function_distinct o1 o2 k k2 w e1 e2
             (reachable_invariant w Hreach)
             (fun Heq => Hne (eq_sym Heq)) H1 H2).
  - intros env1 env2 ck chain w2 Hc.
    exact (cache_resource_again rag_chain_cache put_rag_chain_cache
             (fun _ _ => eq_refl) _ _ _ _ _ _ Hc).
Qed.

Lemma cached_resource_identity_witness :
  exists e1 e2,
    outcome (get_embedding_function Succeeds example_key) world_ready
    = Ok (Some e1)
    /\ outcome (get_embedding_function Succeeds other_key)
         (after (get_embedding_function Succeeds example_key) world_ready)
       = Ok (Some e2)
    /\ emb_obj e1 <> emb_obj e2.
Proof.
  eexists _, _. split; [vm_compute; reflexivity|].
  split; [vm_compute; reflexivity|].
  destruct (cached_resource_identity Succeeds Succeeds example_key
              world_ready) as (_ & H & _).
  apply (H other_key);
    [exact world_ready_reachable | discriminate
    | vm_compute; reflexivity | vm_compute; reflexivity].
Defined.

(** * Further properties of the code *)

(** ** The document registry *)

Lemma execute_create_registry_wf (name : string) (fails : bool)
    (create : Db -> Db) :
  create = create_application_logs \/ create = create_document_store ->
  stable (preserves registry_wf) (execute_create name fails create).
Proof.
  intros Hc w HI rows. unfold execute_create. destruct fails; py_run.
  - apply HI.
  - destruct Hc as [-> | ->]; cbn.
    + apply HI.
    + destruct (document_store (database w)) as [t|] eqn:Ht.
      * intros [= <-]. now apply HI.
      * intros [= <-]. repeat split; constructor.
Qed.

Lemma create_application_logs_registry_wf (fails : bool) :
  stable (preserves registry_wf)
    (execute_create "application_logs" fails create_application_logs).
Proof. apply execute_create_registry_wf. now left. Qed.

Lemma create_document_store_registry_wf (fails : bool) :
  stable (preserves registry_wf)
    (execute_create "document_store" fails create_document_store).
Proof. apply execute_create_registry_wf. now right. Qed.

Lemma execute_insert_log_registry_wf (f : SqlFault)
    (session_id user_query gpt_response model : string) :
  stable (preserves registry_wf)
    (execute_insert_log f session_id user_query gpt_response model).
Proof.
  intros w HI rows. unfold execute_insert_log. py_run.
  destruct f; py_run; try apply HI.
  destruct (application_logs (database w)); py_run; apply HI.
Qed.

Lemma execute_insert_document_registry_wf (f : SqlFault) (filename : string) :
  stable (preserves registry_wf) (execute_insert_document f filename).
Proof.
  intros w HI rows. unfold execute_insert_document. py_run.
  destruct f; py_run; try apply HI.
  destruct (document_store (database w)) as [t|] eqn:Ht; py_run;
    [|rewrite Ht; discriminate].
  destruct (HI t Ht) as (Hid & Hname & Hall).
  case_bool_decide as Hin; py_run; [rewrite Ht; intros [= <-]; auto|].
  intros [= <-]. rewrite !map_app. cbn. repeat split.
  - apply NoDup_app. split; [exact Hid|]. split; [|apply NoDup_singleton].
    intros i Hi Hi'. apply list_elem_of_singleton in Hi'. subst i.
    apply list_elem_of_fmap in Hi as (r & Hr & Hrin).
    rewrite Forall_forall in Hall. specialize (Hall r Hrin). lia.
  - apply NoDup_app. split; [exact Hname|]. split; [|apply NoDup_singleton].
    intros n Hn Hn'. apply list_elem_of_singleton in Hn'. now subst n.
  - apply Forall_app. split.
    + eapply Forall_impl; [exact Hall|]. cbn. intros r Hr. lia.
    + constructor; [cbn; lia | constructor].
Qed.

Lemma execute_delete_document_registry_wf (f : SqlFault) (file_id : nat) :
  stable (preserves registry_wf) (execute_delete_document f file_id).
Proof.
  intros w HI rows. unfold execute_delete_document. py_run.
  destruct (document_store (database w)) as [t|] eqn:Ht; py_run;
    [|rewrite Ht; discriminate].
  destruct (fits_int64 file_id); py_run; [|apply HI].
  destruct f; py_run; try apply HI.
  destruct (HI t Ht) as (Hid & Hname & Hall).
  intros [= <-].
  assert (Hsub : filter (fun r => doc_id r <> file_id) t `sublist_of` t)
    by apply sublist_filter.
  repeat split.
  - eapply sublist_NoDup; [exact Hid|]. now apply fmap_sublist.
  - eapply sublist_NoDup; [exact Hname|]. now apply fmap_sublist.
  - rewrite Forall_forall in Hall. apply Forall_forall. intros r Hr.
    apply list_elem_of_filter in Hr as [_ Hr]. now apply Hall.
Qed.

#[export] Hint Resolve create_application_logs_registry_wf
  create_document_store_registry_wf execute_insert_log_registry_wf
  execute_insert_document_registry_wf execute_delete_document_registry_wf
  : stable.

Lemma perform_registry_wf (op : Op) (w : World) :
  registry_wf w -> registry_wf (perform op w).
Proof.
  destruct op; cbn [perform];
    match goal with
    | |- _ -> registry_wf (after ?c w) =>
        assert (Hst : stable (preserves registry_wf) c) by stable_tac;
        exact (Hst w)
    end.
Qed.

Lemma reachable_registry_wf (w : World) : reachable w -> registry_wf w.
Proof.
  induction 1 as [imported model dimensionality | op w _ IH].
  - intros rows. discriminate.
  - now apply perform_registry_wf.
Qed.

(** *** The id counter never goes back *)

Lemma execute_create_seq_from (n : nat) (name : string) (fails : bool)
    (create : Db -> Db) :
  create = create_application_logs \/ create = create_document_store ->
  stable (preserves (seq_from n)) (execute_create name fails create).
Proof.
  intros Hc w HI. unfold execute_create.
  destruct fails; py_run; [exact HI|]. now destruct Hc as [-> | ->].
Qed.

Lemma create_application_logs_seq_from (n : nat) (fails : bool) :
  stable (preserves (seq_from n))
    (execute_create "application_logs" fails create_application_logs).
Proof. apply execute_create_seq_from. now left. Qed.

Lemma create_document_store_seq_from (n : nat) (fails : bool) :
  stable (preserves (seq_from n))
    (execute_create "document_store" fails create_document_store).
Proof. apply execute_create_seq_from. now right. Qed.

Lemma execute_insert_log_seq_from (n : nat) (f : SqlFault)
    (session_id user_query gpt_response model : string) :
  stable (preserves (seq_from n))
    (execute_insert_log f session_id user_query gpt_response model).
Proof.
  intros w HI. unfold execute_insert_log. py_run.
  destruct f; py_run; try exact HI.
  destruct (application_logs (database w)); py_run; exact HI.
Qed.

Lemma execute_insert_document_seq_from (n : nat) (f : SqlFault)
    (filename : string) :
  stable (preserves (seq_from n)) (execute_insert_document f filename).
Proof.
  intros w HI. unfold execute_insert_document. py_run.
  destruct f; py_run; try exact HI.
  destruct (document_store (database w)); py_run; [|exact HI].
  case_bool_decide; py_run; [exact HI|]. unfold seq_from in *. cbn. lia.
Qed.

Lemma execute_delete_document_seq_from (n : nat) (f : SqlFault)
    (file_id : nat) :
  stable (preserves (seq_from n)) (execute_delete_document f file_id).
Proof.
  intros w HI. unfold execute_delete_document. py_run.
  destruct (document_store (database w)); py_run; [|exact HI].
  destruct (fits_int64 file_id); py_run; [|exact HI].
  destruct f; py_run; exact HI.
Qed.

#[export] Hint Resolve create_application_logs_seq_from
  create_document_store_seq_from execute_insert_log_seq_from
  execute_insert_document_seq_from execute_delete_document_seq_from
  : stable.

Lemma perform_seq_from (n : nat) (op : Op) (w : World) :
  seq_from n w -> seq_from n (perform op w).
Proof.
  destruct op; cbn [perform];
    match goal with
    | |- _ -> seq_from n (after ?c w) =>
        assert (Hst : stable (preserves (seq_from n)) c) by stable_tac;
        exact (Hst w)
    end.
Qed.

Lemma performs_seq_from (n : nat) (ops : list Op) (w : World) :
  seq_from n w -> seq_from n (performs ops w).
Proof.
  revert w. induction ops as [|op ops IH]; intros w H; [exact H|].
  cbn. apply IH. now apply perform_seq_from.
Qed.

Lemma performs_reachable (ops : list Op) (w : World) :
  reachable w -> reachable (performs ops w).
Proof.
  revert w. induction ops as [|op ops IH]; intros w H; [exact H|].
  cbn. apply IH. now constructor.
Qed.

(** X1. The registry of every reachable world has distinct ids and distinct
    file names, with ids between 1 and the counter.  An id that
    [insert_document_record] returns, after any further operations, is
    truthy, is larger than every id the registry held before them, deleted
    rows included (it is above the counter of that time), and is the id of
    the one row with that file name. *)
Theorem registered_id_is_new (w : World) (ops : list Op) (f : SqlFault)
    (filename : string) (file_id : nat) :
  reachable w ->
  outcome (insert_document_record f filename) (performs ops w) = Ok file_id ->
  registry_wf w
  /\ truthy_int file_id = true
  /\ document_seq (database w) < file_id
  /\ (forall rows r,
        document_store (database w) = Some rows -> r ∈ rows ->
        doc_id r < file_id)
  /\ registry_wf (after (insert_document_record f filename) (performs ops w)).
Proof.
  intros Hreach Hins.
  pose proof (reachable_registry_wf w Hreach) as Hwf.
  pose proof (performs_seq_from (document_seq (database w)) ops w
                (Nat.le_refl _)) as Hseq. unfold seq_from in Hseq.
  destruct (insert_document_record_ok_inv _ _ _ _ Hins)
    as (rows' & _ & _ & -> & _).
  split; [exact Hwf|]. split; [reflexivity|]. split; [lia|]. split.
  - intros rows r Hs Hin. destruct (Hwf rows Hs) as (_ & _ & Hall).
    rewrite Forall_forall in Hall. specialize (Hall r Hin). lia.
  - apply (reachable_registry_wf _
             (reachable_perform (op_insert_document_record f filename) _
                (performs_reachable ops w Hreach))).
Qed.
Lemma world_a_pdf_reachable : reachable world_a_pdf.
Proof.
  change (reachable (perform (op_insert_document_record NoFault "a.pdf")
                       world_ready)).
  apply reachable_perform. exact world_ready_reachable.
Defined.

Lemma registered_id_is_new_witness :
  outcome (insert_document_record NoFault "b.docx")
    (performs [op_delete_document_record NoFault 1] world_a_pdf) = Ok 2
  /\ document_store
       (database (performs [op_delete_document_record NoFault 1] world_a_pdf))
     = Some []
  /\ document_seq (database world_a_pdf) < 2.
Proof.
  assert (Hins : outcome (insert_document_record NoFault "b.docx")
                   (performs [op_delete_document_record NoFault 1]
                      world_a_pdf) = Ok 2) by (vm_compute; reflexivity).
  split; [exact Hins|]. split; [vm_compute; reflexivity|].
  destruct (registered_id_is_new world_a_pdf
              [op_delete_document_record NoFault 1] NoFault "b.docx" 2
              world_a_pdf_reachable Hins) as (_ & _ & H & _).
  exact H.
Defined.

(** What [get_chat_history] returns, as a function of the database file. *)
Lemma get_chat_history_result (f : SqlFault) (session_id : string)
    (w : World) :
  outcome (get_chat_history f session_id) w
  = match f with
    | ConnectFault => Raise ConnectionError
    | StmtFault => Ok []
    | NoFault =>
        match application_logs (database w) with
        | Some rows =>
            Ok (concat
                  (map row_messages
                     (order_by
                        (fun a b => log_created_at a <=? log_created_at b)%nat
                        (filter (fun r => log_session_id r = session_id)
                           rows))))
        | None => Ok []
        end
    end.
Proof.
  unfold get_chat_history, get_db_connection, execute_select_history,
    sqlite3_connect.
  destruct f; py_run; try reflexivity.
  destruct (application_logs (database w)); reflexivity.
Qed.

(** What [insert_application_logs] does to the database file. *)
Lemma insert_application_logs_database (f : SqlFault)
    (session_id user_query gpt_response model : string) (w : World) :
  database (after (insert_application_logs f session_id user_query
                     gpt_response model) w)
  = match f, application_logs (database w) with
    | NoFault, Some rows =>
        {| application_logs :=
             Some (rows ++ [ {| log_session_id := session_id;
                                log_user_query := user_query;
                                log_gpt_response := gpt_response;
                                log_model := model;
                                log_created_at := clock w |} ]);
           document_store := document_store (database w);
           document_seq := document_seq (database w) |}
    | _, _ => database w
    end.
Proof.
  unfold insert_application_logs, get_db_connection, execute_insert_log,
    sqlite3_connect.
  destruct f; py_run; try reflexivity.
  destruct (application_logs (database w)); reflexivity.
Qed.

(** [ORDER BY] rearranges, whatever the order. *)
Lemma insert_sorted_Permutation {A} (le : A -> A -> bool) (x : A)
    (l : list A) :
  insert_sorted le x l ≡ₚ x :: l.
Proof.
  induction l as [|y l IH]; [reflexivity|]. cbn.
  destruct (le x y); [reflexivity|]. rewrite IH. apply Permutation_swap.
Qed.

Lemma order_by_Permutation {A} (le : A -> A -> bool) (l : list A) :
  order_by le l ≡ₚ l.
Proof.
  induction l as [|x l IH]; [reflexivity|]. cbn.
  fold (order_by le l). now rewrite insert_sorted_Permutation, IH.
Qed.

(** [ORDER BY upload_timestamp DESC] puts the newest first. *)
Local Abbreviation newest_first :=
  (fun a b : DocRow => (doc_upload_timestamp b <=? doc_upload_timestamp a)%nat).

Lemma insert_newest_first (x : DocRow) (l : list DocRow) :
  StronglySorted
    (fun a b => doc_upload_timestamp b <= doc_upload_timestamp a) l ->
  StronglySorted
    (fun a b => doc_upload_timestamp b <= doc_upload_timestamp a)
    (insert_sorted newest_first x l).
Proof.
  induction 1 as [|y l Hl IH Hy]; cbn; [repeat constructor|].
  destruct (doc_upload_timestamp y <=? doc_upload_timestamp x)%nat eqn:Hle.
  - apply Nat.leb_le in Hle. constructor; [now constructor|].
    constructor; [exact Hle|].
    eapply Forall_impl; [exact Hy|]. cbn. intros z Hz. lia.
  - apply Nat.leb_gt in Hle. constructor; [exact IH|].
    rewrite insert_sorted_Permutation. constructor; [lia | exact Hy].
Qed.

Lemma order_by_newest_first (l : list DocRow) :
  StronglySorted
    (fun a b => doc_upload_timestamp b <= doc_upload_timestamp a)
    (order_by newest_first l).
Proof.
  induction l as [|x l IH]; [constructor|]. cbn.
  now apply insert_newest_first.
Qed.

(** X2. A document that [insert_document_record] has registered is in what
    [get_all_documents] returns next, with the id that was returned, its
    file name and the time of the insert; the list is a rearrangement of the
    rows the table had and the new row, the newest first. *)
Theorem registered_document_is_listed (f : SqlFault) (filename : string)
    (file_id : nat) (w : World) :
  outcome (insert_document_record f filename) w = Ok file_id ->
  let w1 := after (insert_document_record f filename) w in
  let row := {| doc_id := file_id; doc_filename := filename;
                doc_upload_timestamp := clock w |} in
  exists rows docs,
    document_store (database w) = Some rows
    /\ outcome (get_all_documents NoFault) w1 = Ok docs
    /\ row ∈ docs
    /\ docs ≡ₚ rows ++ [row]
    /\ StronglySorted
         (fun a b => doc_upload_timestamp b <= doc_upload_timestamp a) docs.
Proof.
  intros Hins w1 row.
  destruct (insert_document_record_ok_inv _ _ _ _ Hins)
    as (rows & Hs & _ & _ & Hs1).
  fold w1 row in Hs1.
  exists rows, (order_by newest_first (rows ++ [row])).
  split; [exact Hs|]. split; [|split; [|split]].
  - rewrite get_all_documents_outcome. unfold list_documents_result.
    now rewrite Hs1.
  - rewrite order_by_Permutation. apply elem_of_app. right.
    apply list_elem_of_here.
  - apply order_by_Permutation.
  - apply order_by_newest_first.
Qed.

Lemma registered_document_is_listed_witness :
  exists docs,
    outcome (get_all_documents NoFault)
      (after (insert_document_record NoFault "a.pdf") world_ready) = Ok docs
    /\ {| doc_id := 1; doc_filename := "a.pdf"; doc_upload_timestamp := 0 |}
       ∈ docs.
Proof.
  assert (Hins : outcome (insert_document_record NoFault "a.pdf") world_ready
                 = Ok 1) by (vm_compute; reflexivity).
  destruct (registered_document_is_listed NoFault "a.pdf" 1 world_ready Hins)
    as (rows & docs & _ & Hdocs & Hin & _).
  exists docs. split; [exact Hdocs | exact Hin].
Defined.
(** What [delete_document_record] returns. *)
Lemma delete_document_record_outcome (f : SqlFault) (file_id : nat)
    (w : World) :
  outcome (delete_document_record f file_id) w
  = match f, document_store (database w) with
    | ConnectFault, _ => Raise ConnectionError
    | _, None => Ok false
    | NoFault, Some _ =>
        if fits_int64 file_id then Ok true else Raise OverflowError
    | StmtFault, Some _ =>
        if fits_int64 file_id then Ok false else Raise OverflowError
    end.
Proof.
  unfold delete_document_record, get_db_connection, execute_delete_document,
    sqlite3_connect.
  destruct f; py_run; try reflexivity;
    (destruct (document_store (database w)) as [rows|]; py_run;
     [|reflexivity]);
    (destruct (fits_int64 file_id); py_run; [|reflexivity]);
    try reflexivity.
  match goal with
  | |- context [length ?l] => destruct (length l)
  end; reflexivity.
Qed.

Lemma filter_other_ids (file_id : nat) (rows : list DocRow) :
  file_id ∉ map doc_id rows ->
  filter (fun r => doc_id r <> file_id) rows = rows.
Proof.
  intros Hout. induction rows as [|r rows IH]; [reflexivity|].
  rewrite filter_cons. destruct (decide (doc_id r <> file_id)) as [_|Heq].
  - f_equal. apply IH. intros Hin. apply Hout. now right.
  - exfalso. apply Hout. apply dec_stable in Heq. rewrite <- Heq. now left.
Qed.

(** X3. Registering a document and then deleting the id that was returned
    (an id that fits 64 bits, as every id SQLite hands out does) gives the
    registry back: the rows, the chat log and what [get_all_documents]
    returns are what they were before the registration.  Only the id counter
    stays advanced. *)
Theorem unregister_restores_registry (f : SqlFault) (filename : string)
    (file_id : nat) (w : World) :
  reachable w ->
  outcome (insert_document_record f filename) w = Ok file_id ->
  fits_int64 file_id = true ->
  let w1 := after (insert_document_record f filename) w in
  let w2 := after (delete_document_record NoFault file_id) w1 in
  outcome (delete_document_record NoFault file_id) w1 = Ok true
  /\ document_store (database w2) = document_store (database w)
  /\ application_logs (database w2) = application_logs (database w)
  /\ outcome (get_all_documents NoFault) w2
     = outcome (get_all_documents NoFault) w
  /\ document_seq (database w2) = file_id.
Proof.
  intros Hreach Hins Hfits w1 w2.
  destruct (insert_document_record_ok_inv _ _ _ _ Hins)
    as (rows & Hs & Hout & Hid & Hs1).
  fold w1 in Hs1.
  destruct (reachable_registry_wf w Hreach rows Hs) as (_ & _ & Hall).
  assert (Hf : f = NoFault) by (destruct f; [reflexivity|discriminate..]).
  subst f.
  destruct (insert_document_record_fresh w rows filename Hs Hout)
    as [_ Hdb1]. fold w1 in Hdb1. cbv zeta in Hdb1. rewrite <- Hid in Hdb1.
  assert (Hdb2 : database w2
                 = {| application_logs := application_logs (database w);
                      document_store := Some rows;
                      document_seq := file_id |}).
  { unfold w2. rewrite delete_document_record_database, Hs1, Hdb1, Hfits.
    cbn. f_equal. f_equal. rewrite filter_app, filter_other_ids.
    - rewrite filter_cons, decide_False, filter_nil by (cbn; tauto).
      apply app_nil_r.
    - intros Hin. apply list_elem_of_fmap in Hin as (r & Hr & Hrin).
      rewrite Forall_forall in Hall. specialize (Hall r Hrin). lia. }
  split; [now rewrite delete_document_record_outcome, Hs1, Hfits|].
  rewrite !get_all_documents_outcome. unfold list_documents_result.
  rewrite Hdb2, Hs. cbn. auto.
Qed.

Lemma unregister_restores_registry_witness :
  document_store
    (database
       (after (delete_document_record NoFault 2)
          (after (insert_document_record NoFault "b.docx") world_a_pdf)))
  = document_store (database world_a_pdf).
Proof.
  assert (Hins : outcome (insert_document_record NoFault "b.docx")
                   world_a_pdf = Ok 2) by (vm_compute; reflexivity).
  destruct (unregister_restores_registry NoFault "b.docx" 2 world_a_pdf
              world_a_pdf_reachable Hins eq_refl) as (_ & H & _).
  exact H.
Defined.

(** X4. With the table in place and no fault, [delete_document_record] of an
    id that fits 64 bits returns [True] whether or not a row had the id:
    afterwards no row has it, and every other row is kept, in order.  When
    no row had the id, the database file is what it was and the only record
    is a warning in the log.  Deleting the same id again returns [True] and
    changes nothing.  An id that does not fit 64 bits is never looked up:
    with the table in place, under any fault but one of the connection, the
    call raises [OverflowError], which its [except sqlite3.Error] does not
    catch, and the database file is what it was. *)
Theorem delete_reports_success_without_a_row (file_id : nat) (w : World)
    (rows : list DocRow) :
  document_store (database w) = Some rows ->
  let delete := delete_document_record NoFault file_id in
  let w1 := after delete w in
  (fits_int64 file_id = true ->
   outcome delete w = Ok true
   /\ document_store (database w1)
      = Some (filter (fun r => doc_id r <> file_id) rows)
   /\ (file_id ∉ map doc_id rows ->
       database w1 = database w
       /\ events_since w w1
          = [ Enter (c_delete_document_record file_id);
              Enter c_get_db_connection; Lib l_sqlite3_connect;
              Logged WARNING ])
   /\ outcome delete w1 = Ok true
   /\ database (after delete w1) = database w1)
  /\ (fits_int64 file_id = false ->
      forall f, f <> ConnectFault ->
        outcome (delete_document_record f file_id) w = Raise OverflowError
        /\ database (after (delete_document_record f file_id) w)
           = database w).
Proof.
  intros Hs delete w1. split; [intros Hfits|intros Hbig f Hf].
  2:{ rewrite delete_document_record_outcome,
        delete_document_record_database, Hs, Hbig.
      now destruct f. }

  assert (Hdb1 : database w1
                 = {| application_logs := application_logs (database w);
                      document_store :=
                        Some (filter (fun r => doc_id r <> file_id) rows);
                      document_seq := document_seq (database w) |}).
  { unfold w1, delete.
    now rewrite delete_document_record_database, Hs, Hfits. }
  split; [unfold delete;
          now rewrite delete_document_record_outcome, Hs, Hfits|].
  split; [now rewrite Hdb1|]. split; [|split].
  - intros Hout. split.
    + rewrite Hdb1, (filter_other_ids _ _ Hout), <- Hs.
      now destruct (database w).
    + unfold w1, delete, delete_document_record, get_db_connection,
        execute_delete_document, sqlite3_connect, events_since.
      py_run. rewrite Hs. py_run. rewrite Hfits. py_run.
      assert (Hnone : filter (fun r => doc_id r = file_id) rows = []).
      { clear -Hout. induction rows as [|r rows IH]; [reflexivity|].
        rewrite filter_cons. destruct (decide (doc_id r = file_id)) as [Heq|_].
        - exfalso. apply Hout. rewrite <- Heq. now left.
        - apply IH. intros Hin. apply Hout. now right. }
      rewrite Hnone. cbn. rewrite <- !app_assoc. cbn.
      now rewrite drop_app_length.
  - unfold delete. now rewrite delete_document_record_outcome, Hdb1, Hfits.
  - unfold delete at 1.
    rewrite delete_document_record_database, Hdb1, Hfits. cbn.
    f_equal. f_equal. apply filter_other_ids.
    intros Hin. apply list_elem_of_fmap in Hin as (r & Hr & Hrin).
    apply list_elem_of_filter in Hrin as [Hne _]. now apply Hne.
Qed.

Lemma delete_reports_success_without_a_row_witness :
  outcome (delete_document_record NoFault 7) world_a_pdf = Ok true
  /\ database (after (delete_document_record NoFault 7) world_a_pdf)
     = database world_a_pdf
  /\ outcome (delete_document_record NoFault (N.to_nat (2 ^ 63)))
       world_a_pdf
     = Raise OverflowError.
Proof.
  assert (Hs : document_store (database world_a_pdf)
               = Some [ {| doc_id := 1; doc_filename := "a.pdf";
                           doc_upload_timestamp := 0 |} ]) by reflexivity.
  destruct (delete_reports_success_without_a_row 7 world_a_pdf _ Hs)
    as [Hsmall _].
  destruct (Hsmall eq_refl) as (H1 & _ & H2 & _).
  split; [exact H1|]. split.
  - apply H2. cbn. intros Hin.
    apply list_elem_of_singleton in Hin. discriminate.
  - destruct (delete_reports_success_without_a_row (N.to_nat (2 ^ 63))
                world_a_pdf _ Hs) as [_ Hbig].
    apply (Hbig (f_equal (fun n => (n <? 2 ^ 63)%N) (N2Nat.id (2 ^ 63)))
             NoFault).
    discriminate.
Defined.
(** ** The chat log and the registry do not touch each other *)

Lemma filter_other_session (other : string) (rows : list LogRow)
    (row : LogRow) :
  log_session_id row <> other ->
  filter (fun r => log_session_id r = other) (rows ++ [row])
  = filter (fun r => log_session_id r = other) rows.
Proof.
  intros Hne. rewrite filter_app, filter_cons, decide_False by exact Hne.
  now rewrite filter_nil, app_nil_r.
Qed.

Lemma insert_document_record_keeps_logs (f : SqlFault) (filename : string)
    (w : World) :
  application_logs (database (after (insert_document_record f filename) w))
  = application_logs (database w).
Proof.
  unfold insert_document_record, get_db_connection, execute_insert_document,
    sqlite3_connect.
  destruct f; py_run; try reflexivity.
  destruct (document_store (database w)); py_run; [|reflexivity].
  case_bool_decide; reflexivity.
Qed.

(** X5. A turn logged under one session leaves the history of every other
    session as it was, whatever fault it meets, and never changes the
    document table; registering and deleting documents leave every history
    as it was. *)
Theorem chat_histories_are_separate (f f' : SqlFault)
    (session_id other user_query gpt_response model : string) (w : World) :
  other <> session_id ->
  let logged := after (insert_application_logs f session_id user_query
                         gpt_response model) w in
  outcome (get_chat_history f' other) logged
  = outcome (get_chat_history f' other) w
  /\ document_store (database logged) = document_store (database w)
  /\ (forall g filename,
        outcome (get_chat_history f' other)
          (after (insert_document_record g filename) w)
        = outcome (get_chat_history f' other) w)
  /\ (forall g file_id,
        outcome (get_chat_history f' other)
          (after (delete_document_record g file_id) w)
        = outcome (get_chat_history f' other) w).
Proof.
  intros Hne logged.
  assert (Hdb : database logged
                = match f, application_logs (database w) with
                  | NoFault, Some rows =>
                      {| application_logs :=
                           Some (rows ++ [ {| log_session_id := session_id;
                                              log_user_query := user_query;
                                              log_gpt_response := gpt_response;
                                              log_model := model;
                                              log_created_at := clock w |} ]);
                         document_store := document_store (database w);
                         document_seq := document_seq (database w) |}
                  | _, _ => database w
                  end) by apply insert_application_logs_database.
  split; [|split; [|split]].
  - rewrite !get_chat_history_result. destruct f'; try reflexivity.
    destruct f; try (now rewrite Hdb).
    destruct (application_logs (database w)) as [rows|] eqn:Hs;
      rewrite Hdb; [|now rewrite Hs].
    cbn [application_logs]. rewrite filter_other_session; [done|].
    cbn. congruence.
  - rewrite Hdb. destruct f; try reflexivity.
    now destruct (application_logs (database w)).
  - intros g filename. rewrite !get_chat_history_result.
    destruct f'; try reflexivity.
    assert (Hk : application_logs
                   (database (after (insert_document_record g filename) w))
                 = application_logs (database w)).
    { apply insert_document_record_keeps_logs. }
    now rewrite Hk.
  - intros g file_id. rewrite !get_chat_history_result.
    destruct f'; try reflexivity.
    rewrite delete_document_record_database.
    destruct g; try reflexivity.
    destruct (document_store (database w)); [|reflexivity].
    now destruct (fits_int64 file_id).
Qed.

Lemma chat_histories_are_separate_witness :
  outcome (get_chat_history NoFault "s2")
    (after (insert_application_logs NoFault "s1" "What is X?"
              "X is a letter." "llama-3.1-8b-instant") world_ready)
  = outcome (get_chat_history NoFault "s2") world_ready.
Proof.
  assert (Hne : "s2" <> "s1") by discriminate.
  exact (proj1 (chat_histories_are_separate NoFault NoFault "s1" "s2"
                  "What is X?" "X is a letter." "llama-3.1-8b-instant"
                  world_ready Hne)).
Defined.

(** ** Initialisation keeps what the database file holds *)

(** X6. Whatever goes wrong or not, [_initialize_database] loses no row: a
    table that exists keeps its rows, and the id counter keeps its value.
    This covers a new process started over the database file of an earlier
    one (the guard is unset, the tables are there).  A table that is missing
    is either still missing afterwards or empty. *)
Theorem initialization_keeps_rows (f : InitFault) (w : World) :
  let w' := after (_initialize_database f) w in
  (forall rows,
     application_logs (database w) = Some rows ->
     application_logs (database w') = Some rows)
  /\ (forall rows,
        document_store (database w) = Some rows ->
        document_store (database w') = Some rows)
  /\ document_seq (database w') = document_seq (database w)
  /\ (application_logs (database w) = None ->
      application_logs (database w') = None
      \/ application_logs (database w') = Some [])
  /\ (document_store (database w) = None ->
      document_store (database w') = None
      \/ document_store (database w') = Some []).
Proof.
  unfold _initialize_database, os_makedirs_exist_ok, get_db_connection,
    sqlite3_connect, execute_create.
  destruct (db_initialized w) eqn:Hg; py_run; rewrite Hg; py_run.
  - repeat split; auto.
  - destruct f; py_run; repeat split; auto;
      try (intros rows Hs; now rewrite Hs);
      try (intros Hs; rewrite Hs; auto).
Qed.

(** ** File names and their extensions *)

Lemma list_ascii_of_string_app (s t : string) :
  String.list_ascii_of_string (s ++ t)
  = String.list_ascii_of_string s ++ String.list_ascii_of_string t.
Proof.
  induction s as [|c s IH]; [reflexivity|].
  change (c :: String.list_ascii_of_string (s ++ t)
          = c :: (String.list_ascii_of_string s
                  ++ String.list_ascii_of_string t)).
  now rewrite IH.
Qed.

Lemma after_last_absent (c : ascii) (l : list ascii) :
  Forall (fun x => x <> c) l -> after_last c l = None.
Proof.
  induction 1 as [|x l Hx _ IH]; [reflexivity|]. cbn. rewrite IH.
  now rewrite bool_decide_eq_false_2.
Qed.

Lemma after_last_found (c : ascii) (l r : list ascii) :
  Forall (fun x => x <> c) r -> after_last c (l ++ c :: r) = Some r.
Proof.
  intros Hr. induction l as [|x l IH]; cbn.
  - rewrite (after_last_absent c r Hr).
    now rewrite bool_decide_eq_true_2.
  - now rewrite IH.
Qed.

Lemma after_last_inv (c : ascii) (l r : list ascii) :
  after_last c l = Some r ->
  Forall (fun x => x <> c) r /\ exists pre, l = pre ++ c :: r.
Proof.
  revert r. induction l as [|x l IH]; intros r; [discriminate|]. cbn.
  destruct (after_last c l) as [r'|] eqn:Hl.
  - intros [= <-]. destruct (IH r' eq_refl) as [Hr (pre & ->)].
    split; [exact Hr|]. now exists (x :: pre).
  - case_bool_decide as Hx; [|discriminate]. intros [= <-]. subst x.
    split; [|now exists []].
    clear IH. induction l as [|y l IH]; [constructor|]. cbn in Hl.
    destruct (after_last c l); [discriminate|].
    case_bool_decide; [discriminate|]. constructor; [done | now apply IH].
Qed.

Lemma Forall_suffix_of_after_last (P : ascii -> Prop) (c : ascii)
    (l r : list ascii) :
  after_last c l = Some r -> Forall P l -> Forall P r.
Proof.
  intros H Hl. apply after_last_inv in H as [_ (pre & ->)].
  apply Forall_app in Hl as [_ Hl]. now inversion Hl.
Qed.

(** The last component of a path. *)
Lemma basename_of_join (dir base : list ascii) :
  Forall (fun x => x <> "/"%char) base ->
  default (dir ++ "/"%char :: base) (after_last "/"%char
                                        (dir ++ "/"%char :: base))
  = base.
Proof. intros H. now rewrite after_last_found. Qed.

(** The extension is empty, or a dot and characters that are neither dots
    nor slashes. *)
Lemma splitext_ext_shape (p : string) :
  splitext_ext p = ""
  \/ exists r, splitext_ext p = String "."%char r /\ dot_free r.
Proof.
  unfold splitext_ext.
  set (chars := String.list_ascii_of_string p).
  set (base := default chars (after_last "/"%char chars)).
  assert (Hbase : Forall (fun x => x <> "/"%char) base).
  { unfold base. destruct (after_last "/"%char chars) as [b|] eqn:Hb; cbn.
    - now apply after_last_inv in Hb as [Hb _].
    - clear -Hb. induction chars as [|x l IH]; [constructor|]. cbn in Hb.
      destruct (after_last "/"%char l); [discriminate|].
      case_bool_decide; [discriminate|]. constructor; [done | now apply IH]. }
  assert (Hskip : Forall (fun x => x <> "/"%char)
                    (skip_leading "."%char base)).
  { clear -Hbase. induction Hbase as [|x l Hx Hl IH]; [constructor|]. cbn.
    case_bool_decide; [exact IH | now constructor]. }
  destruct (after_last "."%char (skip_leading "."%char base)) as [r|] eqn:Hr;
    [right | now left].
  exists (String.string_of_list_ascii r). split; [reflexivity|].
  unfold dot_free. rewrite String.list_ascii_of_string_of_list_ascii.
  pose proof (Forall_suffix_of_after_last _ _ _ _ Hr Hskip) as Hs.
  apply after_last_inv in Hr as [Hd _].
  apply Forall_forall. intros x Hx. rewrite Forall_forall in Hd, Hs.
  split; [now apply Hd | now apply Hs].
Qed.

Lemma dot_free_slash_free (s : string) : dot_free s -> slash_free s.
Proof. intros H. eapply Forall_impl; [exact H|]. cbn. tauto. Qed.

(** The extension of [dir/base.ext]. *)
Lemma splitext_ext_of_join (dir base ext : string) (c : ascii) (rest : string) :
  base = String c rest -> c <> "."%char -> slash_free base -> dot_free ext ->
  splitext_ext (dir ++ "/" ++ base ++ "." ++ ext)%string
  = ("." ++ ext)%string.
Proof.
  intros -> Hc Hb He. unfold splitext_ext.
  rewrite !list_ascii_of_string_app. cbn [String.list_ascii_of_string app].
  rewrite (basename_of_join (String.list_ascii_of_string dir)).
  2:{ unfold slash_free in Hb. cbn in Hb. inversion Hb; subst.
      constructor; [done|]. apply Forall_app. split; [done|].
      constructor; [done|]. now apply dot_free_slash_free. }
  cbn [skip_leading]. rewrite bool_decide_eq_false_2 by exact Hc.
  assert (Hd : Forall (fun x => x <> "."%char)
                 (String.list_ascii_of_string ext)).
  { eapply Forall_impl; [exact He|]. cbn. tauto. }
  pose proof (after_last_found "."%char
                (c :: String.list_ascii_of_string rest) _ Hd) as Hal.
  cbn [app] in Hal. rewrite Hal. cbn [String.string_of_list_ascii].
  now rewrite String.string_of_list_ascii_of_string.
Qed.

(** The extension of [dir/.ext]: none. *)
Lemma splitext_ext_of_dotfile (dir ext : string) :
  dot_free ext -> splitext_ext (dir ++ "/." ++ ext)%string = "".
Proof.
  intros He. unfold splitext_ext.
  rewrite !list_ascii_of_string_app. cbn [String.list_ascii_of_string app].
  rewrite (basename_of_join (String.list_ascii_of_string dir)).
  2:{ constructor; [done|]. now apply dot_free_slash_free. }
  cbn [skip_leading]. rewrite bool_decide_eq_true_2 by reflexivity.
  assert (Hskip : skip_leading "."%char (String.list_ascii_of_string ext)
                  = String.list_ascii_of_string ext).
  { unfold dot_free in He. destruct He as [|x l [Hx _] _]; [reflexivity|].
    cbn. now rewrite bool_decide_eq_false_2. }
  rewrite Hskip, after_last_absent; [reflexivity|].
  eapply Forall_impl; [exact He|]. cbn. tauto.
Qed.

(** X7. The extension of a path, as [os.path.splitext] gives it.  The
    extension of [dir/base.ext] is [.ext] when [base] does not start with a
    dot; a name that is only a dot and an extension ([.pdf]) has none, so it
    is not a supported file type.  The temporary file of an upload, named
    [dir/stem] plus the extension of the uploaded name with a [stem] of
    letters, digits and underscores, has the extension of the uploaded name:
    the loader is chosen by the name the user uploaded. *)
Theorem staged_file_keeps_extension (dir stem name : string) (c : ascii)
    (rest : string) :
  stem = String c rest -> dot_free stem ->
  splitext_ext (dir ++ "/" ++ stem ++ splitext_ext name)%string
  = splitext_ext name
  /\ supported (dir ++ "/" ++ stem ++ splitext_ext name)%string
     = supported name
  /\ (forall ext,
        dot_free ext ->
        splitext_ext (dir ++ "/" ++ stem ++ "." ++ ext)%string
        = ("." ++ ext)%string
        /\ splitext_ext (dir ++ "/." ++ ext)%string = ""
        /\ supported (dir ++ "/." ++ ext)%string = false).
Proof.
  intros Hstem Hfree.
  assert (Hc : c <> "."%char).
  { subst stem. unfold dot_free in Hfree. cbn in Hfree.
    inversion Hfree as [|? ? [H _] _]. exact H. }
  assert (Hkeep : splitext_ext (dir ++ "/" ++ stem ++ splitext_ext name)%string
                  = splitext_ext name).
  { destruct (splitext_ext_shape name) as [-> | (r & -> & Hr)].
    - unfold splitext_ext.
      rewrite !list_ascii_of_string_app.
      cbn [String.list_ascii_of_string app]. rewrite app_nil_r.
      rewrite (basename_of_join (String.list_ascii_of_string dir))
        by now apply dot_free_slash_free.
      subst stem. cbn [String.list_ascii_of_string skip_leading].
      rewrite bool_decide_eq_false_2 by exact Hc.
      rewrite after_last_absent; [reflexivity|].
      eapply Forall_impl; [exact Hfree|]. cbn. tauto.
    - exact (splitext_ext_of_join dir stem r c rest Hstem Hc
               (dot_free_slash_free _ Hfree) Hr). }
  split; [exact Hkeep|]. split; [unfold supported; now rewrite Hkeep|].
  intros ext He. split; [|split].
  - exact (splitext_ext_of_join dir stem ext c rest Hstem Hc
             (dot_free_slash_free _ Hfree) He).
  - now apply splitext_ext_of_dotfile.
  - unfold supported. now rewrite splitext_ext_of_dotfile.
Qed.

Lemma staged_file_keeps_extension_witness :
  splitext_ext "/tmp/tmpk3v9.PDF" = ".PDF"
  /\ supported "/tmp/tmpk3v9.PDF" = true
  /\ supported "/tmp/.pdf" = false.
Proof.
  assert (Hfree : dot_free "tmpk3v9")
    by (repeat constructor; discriminate).
  destruct (staged_file_keeps_extension "/tmp" "tmpk3v9" "Report.PDF"
              "t"%char "mpk3v9" eq_refl Hfree) as (H1 & H2 & H3).
  split; [exact H1|]. split; [exact H2|].
  refine (proj2 (proj2 (H3 "pdf" _))). repeat constructor; discriminate.
Defined.

(** ** Indexing and deleting chunks *)

(** How a call of [index_document_to_chroma] ends: without reaching the
    [try] block, or as the [try] block does, started on the same
    collection. *)
Lemma index_document_to_chroma_cases (env : IndexEnv) (file_path : string)
    (file_id : nat) (nomic_api_key : string) (w : World) :
  let call := index_document_to_chroma env file_path file_id nomic_api_key in
  ((outcome call w = Ok false \/ outcome call w = Raise AttributeError)
   /\ collection (after call w) = collection w)
  \/ exists v wv,
       collection wv = collection w
       /\ call w = load_and_add env v file_path file_id wv.
Proof.
  intros call.
  set (w0 := after (emit (Enter (c_index_document_to_chroma file_path
                                   file_id))) w).
  set (k := (nomic_api_key, NOMIC_MODEL_NAME w, NOMIC_DIMENSIONALITY w)).
  set (we := after (get_embedding_function (ie_embedding env) k) w0).
  destruct (get_embedding_function_returns (ie_embedding env) k w0)
    as [emb He]. fold we in He.
  destruct (get_vector_store_returns (ie_chroma env) emb we) as [vs Hv].
  set (wv := after (get_vector_store (ie_chroma env) emb) we) in *.
  assert (Hcol : collection wv = collection w).
  { transitivity (collection we);
      [apply get_vector_store_keeps_collection|].
    transitivity (collection w0);
      [apply get_embedding_function_keeps_collection | reflexivity]. }
  unfold outcome, after.
  destruct (call w) as [r wfin] eqn:Hcall. cbn [fst snd].
  unfold call, index_document_to_chroma in Hcall.
  unfold bind at 1 2 3 4 5 in Hcall. unfold emit, modify, get in Hcall.
  cbv beta iota in Hcall.
  change (set_trace (trace w ++ [Enter (c_index_document_to_chroma file_path
                                          file_id)]) w) with w0 in Hcall.
  change (NOMIC_MODEL_NAME w0) with (NOMIC_MODEL_NAME w) in Hcall.
  change (NOMIC_DIMENSIONALITY w0) with (NOMIC_DIMENSIONALITY w) in Hcall.
  fold k in Hcall. rewrite He in Hcall. cbv beta iota in Hcall.
  rewrite Hv in Hcall. cbv beta iota in Hcall.
  clearbody wv we w0 k call.
  destruct vs as [v|].
  - unfold bind at 1 in Hcall. rewrite truthy_Chroma_run in Hcall.
    destruct (vs_len v); [destruct (vs_collection v)|].
    + destruct (collection wv) as [|c cs] eqn:Hwv.
      * py_run in Hcall. injection Hcall as <- <-. left.
        split; [now left|]. cbn. congruence.
      * cbv beta iota in Hcall. cbn [negb] in Hcall. cbv iota in Hcall.
        right. exists v, wv. split; [congruence | now rewrite Hcall].
    + injection Hcall as <- <-. left. split; [now right | exact Hcol].
    + cbv beta iota in Hcall. cbn [negb] in Hcall. cbv iota in Hcall.
      right. exists v, wv. split; [exact Hcol | now rewrite Hcall].
  - py_run in Hcall. injection Hcall as <- <-. left.
    split; [now left | exact Hcol].
Qed.

(** The loader refuses a file type it has no loader for. *)
Lemma load_and_split_document_unsupported (o : LoadOutcome)
    (file_path : string) (w : World) :
  supported file_path = false ->
  load_and_split_document o file_path w
  = (Raise ValueError,
     set_trace (trace w ++ [ Enter (c_load_and_split_document file_path);
                             Logged ERROR; Logged ERROR ]) w).
Proof.
  unfold supported. intros Hs. unfold load_and_split_document.
  py_run. rewrite Hs. py_run. now rewrite <- !app_assoc.
Qed.

Lemma load_and_add_unsupported (env : IndexEnv) (vs : Chroma)
    (file_path : string) (file_id : nat) (w : World) :
  supported file_path = false ->
  load_and_add env vs file_path file_id w
  = (Ok false,
     set_trace (trace w ++ [ Enter (c_load_and_split_document file_path);
                             Logged ERROR; Logged ERROR; Logged ERROR;
                             StError ]) w).
Proof.
  intros Hs. unfold load_and_add, try_except, bind at 1.
  rewrite (load_and_split_document_unsupported _ _ _ Hs).
  py_run. now rewrite <- !app_assoc.
Qed.

(** X8. A file whose extension is not [.pdf], [.docx] or [.html] (in any
    case) is never indexed: [index_document_to_chroma] does not return
    [True], the collection is what it was, no loader is run and nothing is
    added to the collection, whatever the loader or the store would have
    done. *)
Theorem unsupported_file_is_not_indexed (env : IndexEnv)
    (file_path : string) (file_id : nat) (nomic_api_key : string)
    (w : World) :
  supported file_path = false ->
  let call := index_document_to_chroma env file_path file_id nomic_api_key in
  outcome call w <> Ok true
  /\ collection (after call w) = collection w
  /\ Forall not_load_or_add (events_since w (after call w)).
Proof.
  intros Hs call.
  assert (Hcases := index_document_to_chroma_cases env file_path file_id
                      nomic_api_key w). cbv zeta in Hcases. fold call in Hcases.
  split; [|split].
  - destruct Hcases as [[[-> | ->] _] | (v & wv & _ & Hrun)];
      try discriminate.
    unfold outcome. rewrite Hrun, (load_and_add_unsupported _ _ _ _ _ Hs).
    discriminate.
  - destruct Hcases as [[_ H] | (v & wv & Hcol & Hrun)]; [exact H|].
    unfold after. now rewrite Hrun, (load_and_add_unsupported _ _ _ _ _ Hs).
  - assert (Hl : forall v,
              stable (emits not_load_or_add)
                (load_and_add env v file_path file_id)).
    { intros v w1. unfold after.
      rewrite (load_and_add_unsupported _ _ _ _ _ Hs).
      eexists. split; [reflexivity|].
      repeat constructor; intros ?; discriminate. }
    assert (Hst : stable (emits not_load_or_add) call).
    { unfold call, index_document_to_chroma.
      stable_tac; try (split; intros ?; discriminate). }
    apply (events_since_emits _ _ _ (Hst w)).
Qed.

Lemma unsupported_file_is_not_indexed_witness :
  collection
    (after (index_document_to_chroma index_env_ok "/tmp/tmpk3v9.txt" 2
              "nomic-key") world_indexed)
  = collection world_indexed.
Proof.
  assert (Hs : supported "/tmp/tmpk3v9.txt" = false) by reflexivity.
  exact (proj1 (proj2 (unsupported_file_is_not_indexed index_env_ok
                         "/tmp/tmpk3v9.txt" 2 "nomic-key" world_indexed Hs))).
Defined.

(** How a call of [delete_doc_from_chroma] ends: it returns [True] after
    the chunks of the document have been removed, or something else with
    the collection left as it was. *)
Lemma delete_doc_from_chroma_cases (env : DeleteEnv) (file_id : nat)
    (nomic_api_key : string) (w : World) :
  let call := delete_doc_from_chroma env file_id nomic_api_key in
  (outcome call w = Ok true
   /\ collection (after call w)
      = filter (fun d => metadata d !! "file_id" <> Some (pretty file_id))
          (collection w))
  \/ (outcome call w <> Ok true
      /\ collection (after call w) = collection w).
Proof.
  intros call.
  set (w0 := after (emit (Enter (c_delete_doc_from_chroma file_id))) w).
  set (k := (nomic_api_key, NOMIC_MODEL_NAME w, NOMIC_DIMENSIONALITY w)).
  set (we := after (get_embedding_function (de_embedding env) k) w0).
  destruct (get_embedding_function_returns (de_embedding env) k w0)
    as [emb He]. fold we in He.
  destruct (get_vector_store_returns (de_chroma env) emb we) as [vs Hv].
  set (wv := after (get_vector_store (de_chroma env) emb) we) in *.
  assert (Hcol : collection wv = collection w).
  { transitivity (collection we);
      [apply get_vector_store_keeps_collection|].
    transitivity (collection w0);
      [apply get_embedding_function_keeps_collection | reflexivity]. }
  unfold outcome, after.
  destruct (call w) as [r wfin] eqn:Hcall. cbn [fst snd].
  unfold call, delete_doc_from_chroma in Hcall.
  unfold bind at 1 2 3 4 5 in Hcall. unfold emit, modify, get in Hcall.
  cbv beta iota in Hcall.
  change (set_trace (trace w ++ [Enter (c_delete_doc_from_chroma file_id)]) w)
    with w0 in Hcall.
  change (NOMIC_MODEL_NAME w0) with (NOMIC_MODEL_NAME w) in Hcall.
  change (NOMIC_DIMENSIONALITY w0) with (NOMIC_DIMENSIONALITY w) in Hcall.
  fold k in Hcall. rewrite He in Hcall. cbv beta iota in Hcall.
  rewrite Hv in Hcall. cbv beta iota in Hcall.
  clearbody wv we w0 k call.
  assert (Hbody : forall v r' w',
            try_except
              (if vs_collection v
               then bind (collection_delete (de_delete env) (pretty file_id))
                      (fun _ => ret true)
               else bind (emit (Logged ERROR))
                      (fun _ => bind (emit StError) (fun _ => ret false)))
              [ (is_Exception,
                 fun _ => bind (emit (Logged ERROR))
                            (fun _ => bind (emit StError)
                                        (fun _ => ret false))) ] wv
            = (r', w') ->
            (r' = Ok true
             /\ collection w'
                = filter (fun d => metadata d !! "file_id"
                                   <> Some (pretty file_id)) (collection w))
            \/ (r' <> Ok true /\ collection w' = collection w)).
  { intros v r' w'. unfold collection_delete.
    destruct (vs_collection v); [destruct (de_delete env)|]; py_run;
      intros [= <- <-]; cbn; rewrite ?Hcol; auto. }
  destruct vs as [v|].
  - unfold bind at 1 in Hcall. rewrite truthy_Chroma_run in Hcall.
    destruct (vs_len v) eqn:Hlen; [destruct (vs_collection v) eqn:Hc|].
    + destruct (collection wv) as [|c cs] eqn:Hwv.
      * py_run in Hcall. injection Hcall as <- <-. right.
        split; [discriminate | cbn; congruence].
      * cbv beta iota in Hcall. cbn [negb] in Hcall. cbv iota in Hcall.
        apply (Hbody v). now rewrite Hc.
    + injection Hcall as <- <-. right. split; [discriminate | exact Hcol].
    + cbv beta iota in Hcall. cbn [negb] in Hcall. cbv iota in Hcall.
      now apply (Hbody v).
  - py_run in Hcall. injection Hcall as <- <-. right.
    split; [discriminate | exact Hcol].
Qed.

(** X9. Indexing a document and then deleting its chunks gives the
    collection back: when no chunk carried the id before,
    [index_document_to_chroma] returned [True] and a later
    [delete_doc_from_chroma] of the same id returns [True], the collection
    is what it was before the indexing. *)
Theorem deleting_chunks_undoes_indexing (ienv : IndexEnv) (denv : DeleteEnv)
    (file_path : string) (file_id : nat) (key key' : string) (w : World) :
  Forall (fun d => ~ chunk_of file_id d) (collection w) ->
  outcome (index_document_to_chroma ienv file_path file_id key) w = Ok true ->
  let w1 := after (index_document_to_chroma ienv file_path file_id key) w in
  outcome (delete_doc_from_chroma denv file_id key') w1 = Ok true ->
  collection (after (delete_doc_from_chroma denv file_id key') w1)
  = collection w.
Proof.
  intros Hfresh Hidx w1 Hdel.
  destruct (index_document_to_chroma_result ienv file_path file_id key w)
    as (emb & vs & _ & _ & _ & _ & _ & Htrue & _).
  destruct (Htrue Hidx) as (splits & _ & _ & _ & Hcol1). fold w1 in Hcol1.
  destruct (delete_doc_from_chroma_cases denv file_id key' w1)
    as [[_ Hcol2] | [Hne _]]; [|contradiction].
  rewrite Hcol2, Hcol1, filter_app.
  assert (Hold : filter (fun d => metadata d !! "file_id"
                                  <> Some (pretty file_id)) (collection w)
                 = collection w).
  { clear -Hfresh. induction Hfresh as [|d l Hd _ IH]; [reflexivity|].
    rewrite filter_cons, decide_True by exact Hd. now rewrite IH. }
  assert (Hnew : filter (fun d => metadata d !! "file_id"
                                  <> Some (pretty file_id))
                   (map (tag_file_id (pretty file_id)) splits) = []).
  { clear. induction splits as [|s ss IH]; [reflexivity|]. cbn [map].
    rewrite filter_cons, decide_False; [exact IH|].
    cbn. rewrite lookup_insert_eq. tauto. }
  now rewrite Hold, Hnew, app_nil_r.
Qed.

Lemma deleting_chunks_undoes_indexing_witness :
  collection
    (after (delete_doc_from_chroma
              {| de_embedding := Succeeds; de_chroma := chroma_ok;
                 de_delete := Succeeds |} 1 "nomic-key") world_indexed)
  = collection world_a_pdf.
Proof.
  apply (deleting_chunks_undoes_indexing index_env_ok
           {| de_embedding := Succeeds; de_chroma := chroma_ok;
              de_delete := Succeeds |} "/tmp/tmpa1.pdf" 1 "nomic-key"
           "nomic-key" world_a_pdf).
  - constructor.
  - vm_compute. reflexivity.
  - vm_compute. reflexivity.
Defined.

(** X10. [delete_doc_from_chroma] removes chunks of the given document
    only: a chunk tagged with another id is still in the collection
    afterwards, whatever the call returns; the collection never gains a
    chunk; and when the call returns [True], no chunk of the document is
    left. *)
Theorem delete_removes_only_own_chunks (env : DeleteEnv) (file_id : nat)
    (nomic_api_key : string) (w : World) :
  let call := delete_doc_from_chroma env file_id nomic_api_key in
  (forall other d,
     other <> file_id -> d ∈ collection w -> chunk_of other d ->
     d ∈ collection (after call w))
  /\ collection (after call w) `sublist_of` collection w
  /\ (outcome call w = Ok true ->
      Forall (fun d => ~ chunk_of file_id d) (collection (after call w))).
Proof.
  intros call.
  destruct (delete_doc_from_chroma_cases env file_id nomic_api_key w)
    as [[Hr Hcol] | [Hr Hcol]]; fold call in Hr, Hcol; rewrite Hcol.
  - split; [|split].
    + intros other d Hne Hin Hd. apply list_elem_of_filter. split; [|exact Hin].
      unfold chunk_of in Hd. rewrite Hd. intros [= Heq].
      apply Hne. exact (inj pretty _ _ Heq).
    + apply sublist_filter.
    + intros _. apply Forall_forall. intros d Hd.
      now apply list_elem_of_filter in Hd as [Hd _].
  - split; [auto|]. split; [reflexivity | contradiction].
Qed.

(** ** The vector store cache *)

Lemma get_vector_store_keeps_cached (v : option Chroma) (o : ChromaOutcome)
    (emb : option Embeddings) :
  stable (preserves (fun w => cached_vector_store w = Some v))
    (get_vector_store o emb).
Proof.
  intros w HI. unfold after, get_vector_store.
  now rewrite (cache_resource_hit vector_store_cache put_vector_store_cache
                 () _ w v HI).
Qed.

Lemma get_embedding_function_keeps_cached (v : option Chroma) (o : Outcome)
    (k : EmbKey) :
  stable (preserves (fun w => cached_vector_store w = Some v))
    (get_embedding_function o k).
Proof.
  intros w HI. unfold cached_vector_store.
  now rewrite (get_embedding_function_keeps_vector_store_cache o k w).
Qed.

Lemma get_cached_rag_chain_keeps_cached (v : option Chroma) (env : ChainEnv)
    (k : ChainKey) :
  stable (preserves (fun w => cached_vector_store w = Some v))
    (get_cached_rag_chain env k).
Proof.
  pose proof (get_vector_store_keeps_cached v) as Hv.
  pose proof (get_embedding_function_keeps_cached v) as He.
  intros w HI. unfold get_cached_rag_chain.
  destruct (rag_chain_cache (caches w) !! k) as [c|] eqn:Hk.
  - unfold after.
    now rewrite (cache_resource_hit rag_chain_cache put_rag_chain_cache
                   k _ w c Hk).
  - unfold after.
    rewrite (cache_resource_miss rag_chain_cache put_rag_chain_cache k _ w Hk).
    assert (Hb : stable (preserves (fun w => cached_vector_store w = Some v))
                   (get_cached_rag_chain_body env k)) by stable_tac.
    specialize (Hb w HI). unfold after in Hb.
    destruct (get_cached_rag_chain_body env k w) as [[c|e] w1]; exact Hb.
Qed.

#[export] Hint Resolve get_vector_store_keeps_cached
  get_embedding_function_keeps_cached get_cached_rag_chain_keeps_cached
  : stable.

Lemma perform_keeps_cached (v : option Chroma) (op : Op) (w : World) :
  cached_vector_store w = Some v -> cached_vector_store (perform op w) = Some v.
Proof.
  destruct op; cbn [perform];
    match goal with
    | |- _ -> cached_vector_store (after ?c w) = _ =>
        assert (Hst : stable
                        (preserves (fun w => cached_vector_store w = Some v))
                        c) by stable_tac;
        exact (Hst w)
    end.
Qed.

Lemma performs_keeps_cached (v : option Chroma) (ops : list Op) (w : World) :
  cached_vector_store w = Some v ->
  cached_vector_store (performs ops w) = Some v.
Proof.
  revert w. induction ops as [|op ops IH]; intros w H; [exact H|].
  cbn. apply IH. now apply perform_keeps_cached.
Qed.

(** Without a vector store in the cache slot, nothing is indexed and
    nothing is deleted. *)
Lemma index_without_store (env : IndexEnv) (file_path : string)
    (file_id : nat) (key : string) (w : World) :
  cached_vector_store w = Some None ->
  outcome (index_document_to_chroma env file_path file_id key) w = Ok false
  /\ collection (after (index_document_to_chroma env file_path file_id key) w)
     = collection w.
Proof.
  intros Hc.
  destruct (index_document_to_chroma_result env file_path file_id key w)
    as (emb & vs & _ & Hvs & _ & Hnone & _ & _ & Hcol).
  cbv zeta in Hvs.
  set (we := after (get_embedding_function (ie_embedding env)
                      (key, NOMIC_MODEL_NAME w, NOMIC_DIMENSIONALITY w))
               (after (emit (Enter (c_index_document_to_chroma file_path
                                      file_id))) w)) in *.
  assert (Hwe : cached_vector_store we = Some None).
  { apply get_embedding_function_keeps_cached. exact Hc. }
  unfold outcome, get_vector_store in Hvs.
  rewrite (cache_resource_hit vector_store_cache put_vector_store_cache
             () _ we None Hwe) in Hvs.
  injection Hvs as <-. rewrite (Hnone eq_refl).
  split; [reflexivity|]. apply Hcol. now rewrite (Hnone eq_refl).
Qed.

Lemma delete_without_store (env : DeleteEnv) (file_id : nat) (key : string)
    (w : World) :
  cached_vector_store w = Some None ->
  outcome (delete_doc_from_chroma env file_id key) w = Ok false
  /\ collection (after (delete_doc_from_chroma env file_id key) w)
     = collection w.
Proof.
  intros Hc.
  set (call := delete_doc_from_chroma env file_id key).
  set (w0 := after (emit (Enter (c_delete_doc_from_chroma file_id))) w).
  set (k := (key, NOMIC_MODEL_NAME w, NOMIC_DIMENSIONALITY w)).
  set (we := after (get_embedding_function (de_embedding env) k) w0).
  destruct (get_embedding_function_returns (de_embedding env) k w0)
    as [emb He]. fold we in He.
  assert (Hwe : cached_vector_store we = Some None).
  { apply get_embedding_function_keeps_cached. exact Hc. }
  assert (Hv : get_vector_store (de_chroma env) emb we = (Ok None, we)).
  { exact (cache_resource_hit vector_store_cache put_vector_store_cache
             () _ we None Hwe). }
  assert (Hcol : collection we = collection w).
  { transitivity (collection w0);
      [apply get_embedding_function_keeps_collection | reflexivity]. }
  unfold outcome, after.
  destruct (call w) as [r wfin] eqn:Hcall. cbn [fst snd].
  unfold call, delete_doc_from_chroma in Hcall.
  unfold bind at 1 2 3 4 5 in Hcall. unfold emit, modify, get in Hcall.
  cbv beta iota in Hcall.
  change (set_trace (trace w ++ [Enter (c_delete_doc_from_chroma file_id)]) w)
    with w0 in Hcall.
  change (NOMIC_MODEL_NAME w0) with (NOMIC_MODEL_NAME w) in Hcall.
  change (NOMIC_DIMENSIONALITY w0) with (NOMIC_DIMENSIONALITY w) in Hcall.
  fold k in Hcall. rewrite He in Hcall. cbv beta iota in Hcall.
  rewrite Hv in Hcall. cbv beta iota in Hcall.
  clearbody we w0 k call. py_run in Hcall. injection Hcall as <- <-.
  split; [reflexivity | exact Hcol].
Qed.

(** X11. What [get_vector_store] returned first is what the cache holds for
    the rest of the process, whatever operations follow.  A first call
    without an embedding client, or whose constructor raises, stores [None]:
    from then on [get_vector_store] returns [None] also when it is given a
    client, and [index_document_to_chroma] and [delete_doc_from_chroma]
    return [False] without touching the collection, whatever key they are
    given. *)
Theorem vector_store_result_is_permanent (o : ChromaOutcome)
    (emb : option Embeddings) (w : World) (v : option Chroma)
    (ops : list Op) :
  outcome (get_vector_store o emb) w = Ok v ->
  let w' := performs ops (after (get_vector_store o emb) w) in
  cached_vector_store w' = Some v
  /\ (forall o' emb', get_vector_store o' emb' w' = (Ok v, w'))
  /\ (cached_vector_store w = None -> emb = None -> v = None)
  /\ (cached_vector_store w = None ->
      (exists e, co_constructor o = Fails e) -> v = None)
  /\ (v = None ->
      (forall env file_path file_id key,
         outcome (index_document_to_chroma env file_path file_id key) w'
         = Ok false
         /\ collection
              (after (index_document_to_chroma env file_path file_id key) w')
            = collection w')
      /\ (forall env file_id key,
            outcome (delete_doc_from_chroma env file_id key) w' = Ok false
            /\ collection (after (delete_doc_from_chroma env file_id key) w')
               = collection w')).
Proof.
  intros Hcall w'.
  assert (Hrun : get_vector_store o emb w
                 = (Ok v, after (get_vector_store o emb) w)).
  { rewrite (run_eta _ w). now rewrite Hcall. }
  assert (Hstored : cached_vector_store (after (get_vector_store o emb) w)
                    = Some v).
  { exact (cache_resource_stored vector_store_cache put_vector_store_cache
             (fun _ _ => eq_refl) () _ w _ v Hrun). }
  assert (Hw' : cached_vector_store w' = Some v)
    by now apply performs_keeps_cached.
  assert (Hhit : forall o' emb', get_vector_store o' emb' w' = (Ok v, w')).
  { intros o' emb'.
    exact (cache_resource_hit vector_store_cache put_vector_store_cache
             () _ w' v Hw'). }
  split; [exact Hw'|]. split; [exact Hhit|]. split; [|split].
  - intros Hmiss ->. unfold get_vector_store in Hrun.
    rewrite (cache_resource_miss vector_store_cache put_vector_store_cache
               () _ w Hmiss) in Hrun.
    unfold get_vector_store_body in Hrun. py_run in Hrun. congruence.
  - intros Hmiss [e He]. unfold get_vector_store in Hrun.
    rewrite (cache_resource_miss vector_store_cache put_vector_store_cache
               () _ w Hmiss) in Hrun.
    unfold get_vector_store_body, Chroma_ctor, os_makedirs_persist in Hrun.
    destruct emb as [em|]; py_run in Hrun; [|congruence].
    rewrite He in Hrun.
    destruct (bool_decide (persist_directory ∈ files w)); py_run in Hrun;
      [congruence|].
    destruct (co_makedirs o); py_run in Hrun; congruence.
  - intros ->. split.
    + intros env file_path file_id key. now apply index_without_store.
    + intros env file_id key. now apply delete_without_store.
Qed.

Lemma vector_store_result_is_permanent_witness :
  outcome (index_document_to_chroma index_env_ok "/tmp/tmpa1.pdf" 1
             "nomic-key")
    (performs [op_elapse 60] (after (get_vector_store chroma_ok None)
                                world_a_pdf))
  = Ok false.
Proof.
  assert (Hcall : outcome (get_vector_store chroma_ok None) world_a_pdf
                  = Ok None) by (vm_compute; reflexivity).
  destruct (vector_store_result_is_permanent chroma_ok None world_a_pdf None
              [op_elapse 60] Hcall) as (_ & _ & _ & _ & H).
  destruct (H eq_refl) as [Hidx _].
  exact (proj1 (Hidx index_env_ok "/tmp/tmpa1.pdf" 1 "nomic-key")).
Defined.

(** ** Calls that cannot raise *)

Lemma returns_ret {A} (a : A) : returns (ret a).
Proof. intros w. now exists a. Qed.

Lemma returns_get {A} (f : World -> A) : returns (get f).
Proof. intros w. now exists (f w). Qed.

Lemma returns_modify (f : World -> World) : returns (modify f).
Proof. intros w. now exists tt. Qed.

Lemma returns_emit (ev : Event) : returns (emit ev).
Proof. apply returns_modify. Qed.

Lemma returns_bind {A B} (c : M A) (k : A -> M B) :
  returns c -> (forall a, returns (k a)) -> returns (bind c k).
Proof.
  intros Hc Hk w. destruct (Hc w) as [a Ha]. unfold outcome, bind in *.
  destruct (c w) as [[a'|e] w1]; cbn in Ha; [|discriminate].
  apply Hk.
Qed.

(** A [try] whose last clause is [except Exception] with a handler that
    returns. *)
Lemma returns_try_except {A} (body : M A) (h : exn -> M A) :
  (forall e, returns (h e)) -> returns (try_except body [(is_Exception, h)]).
Proof.
  intros Hh w. unfold outcome, try_except.
  destruct (body w) as [[a|e] w1]; cbn; [now exists a|]. apply Hh.
Qed.

Lemma returns_cache_resource {K V} `{Countable K}
    (store : Caches -> gmap K V) (put : gmap K V -> Caches -> Caches)
    (k : K) (body : M V) :
  returns body -> returns (cache_resource store put k body).
Proof.
  intros Hb w. unfold cache_resource, outcome. py_run.
  destruct (store (caches w) !! k) as [v|]; [now exists v|].
  destruct (Hb w) as [v Hv]. unfold outcome in Hv.
  destruct (body w) as [[v'|e] w1]; cbn in *; [|discriminate]. now exists v'.
Qed.

Ltac returns_tac :=
  repeat first
    [ apply returns_ret | apply returns_get | apply returns_emit
    | apply returns_modify
    | apply returns_try_except; intros ?
    | apply returns_bind; [|intros ?]
    | apply returns_cache_resource
    | match goal with
      | |- returns (match ?x with _ => _ end) => destruct x
      end ].

Lemma get_cached_rag_chain_body_returns (env : ChainEnv) (k : ChainKey) :
  returns (get_cached_rag_chain_body env k).
Proof.
  destruct k as [[model nomic_api_key] groq_api_key].
  unfold get_cached_rag_chain_body, retrieve_vector_store.
  returns_tac.
Qed.

Lemma get_cached_rag_chain_keeps_database (env : ChainEnv) (k : ChainKey) :
  stable (keeps database) (get_cached_rag_chain env k).
Proof. stable_tac. Qed.

Lemma get_cached_rag_chain_keeps_collection (env : ChainEnv) (k : ChainKey) :
  stable (keeps collection) (get_cached_rag_chain env k).
Proof. stable_tac. Qed.

(** ** The chain getter *)

(** The handle a successful first [try] of the body returns is the one in
    the cache slot. *)
Lemma retrieve_vector_store_cached (env : ChainEnv) (nomic_api_key : string)
    (w w1 : World) (vs : Chroma) :
  retrieve_vector_store env nomic_api_key w = (Ok (Some vs), w1) ->
  cached_vector_store w1 = Some (Some vs).
Proof.
  unfold retrieve_vector_store, try_except.
  unfold bind at 1 2. unfold get. cbv beta iota.
  unfold bind at 1.
  destruct (get_embedding_function (ce_embedding env)
              (nomic_api_key, NOMIC_MODEL_NAME w, NOMIC_DIMENSIONALITY w) w)
    as [[[emb|]|e] we]; cbv beta iota; try (py_run; discriminate).
  unfold bind at 1.
  destruct (get_vector_store (ce_chroma env) (Some emb) we)
    as [[[v|]|e] wv] eqn:Hv; cbv beta iota; try (py_run; discriminate).
  unfold ret. intros [= <- <-].
  exact (cache_resource_stored vector_store_cache put_vector_store_cache
           (fun _ _ => eq_refl) () _ we wv (Some v) Hv).
Qed.

Lemma as_retriever_keeps_cached (v : option Chroma) (o : Outcome) :
  stable (preserves (fun w => cached_vector_store w = Some v))
    (as_retriever o).
Proof. stable_tac. Qed.

Lemma build_chain_keeps_cached (v : option Chroma) (o : Outcome)
    (model : string) (vs : Chroma) :
  stable (preserves (fun w => cached_vector_store w = Some v))
    (build_chain o model vs).
Proof. stable_tac. Qed.

(** A chain the body returns answers with the requested model over the
    handle of the cache slot, and both keys were given. *)
Lemma get_cached_rag_chain_body_some (env : ChainEnv)
    (model nomic_api_key groq_api_key : string) (w w1 : World)
    (c : RagChain) :
  get_cached_rag_chain_body env (model, nomic_api_key, groq_api_key) w
  = (Ok (Some c), w1) ->
  truthy_str nomic_api_key = true
  /\ truthy_str groq_api_key = true
  /\ chain_model c = model
  /\ cached_vector_store w1 = Some (Some (chain_vectorstore c)).
Proof.
  unfold get_cached_rag_chain_body.
  unfold bind at 1. unfold emit at 1, modify. cbv beta iota.
  destruct (truthy_str nomic_api_key); cbn [negb];
    [|py_run; discriminate].
  destruct (truthy_str groq_api_key); cbn [negb];
    [|py_run; discriminate].
  unfold bind at 1.
  destruct (retrieve_vector_store env nomic_api_key _)
    as [[[vs|]|e] wv] eqn:Hvs; cbv beta iota; try (py_run; discriminate).
  apply retrieve_vector_store_cached in Hvs.
  unfold bind at 1. unfold try_except at 1.
  pose proof (as_retriever_keeps_cached (Some vs) (ce_retriever env) wv Hvs)
    as Hr.
  unfold after in Hr. unfold bind at 1.
  destruct (as_retriever (ce_retriever env) wv) as [[[]|e] wr];
    cbn -[build_chain] in *; [|py_run; discriminate].
  unfold try_except, bind at 1.
  pose proof (build_chain_keeps_cached (Some vs) (ce_llm env) model vs wr Hr)
    as Hb.
  unfold after in Hb.
  assert (Hm : forall c' w', build_chain (ce_llm env) model vs wr
                             = (Ok c', w') ->
                             chain_model c' = model
                             /\ chain_vectorstore c' = vs).
  { unfold build_chain, new_object. destruct (ce_llm env); py_run;
      [|discriminate]. intros c' w' [= <- <-]. now split. }
  destruct (build_chain (ce_llm env) model vs wr) as [[c'|e] wb];
    cbn in *; [|py_run; discriminate].
  intros [= <- <-]. destruct (Hm c' wb eq_refl) as [-> ->]. auto.
Qed.

(** X12. [get_cached_rag_chain] never raises: the
    [RAGChainInitializationError] it raises inside is caught by its own
    [except Exception], so every failure comes out as [None].  It leaves the
    database and the collection as they were.  On a cache miss with a key
    missing it returns [None] after an error message and builds nothing; a
    chain it returns on a miss has the requested model and retrieves from
    the handle in the vector store cache, and both keys were given. *)
Theorem rag_chain_getter_never_raises (env : ChainEnv)
    (model nomic_api_key groq_api_key : string) (w : World) :
  let k := (model, nomic_api_key, groq_api_key) in
  let call := get_cached_rag_chain env k in
  (exists r, outcome call w = Ok r)
  /\ database (after call w) = database w
  /\ collection (after call w) = collection w
  /\ (rag_chain_cache (caches w) !! k = None ->
      truthy_str nomic_api_key = false \/ truthy_str groq_api_key = false ->
      outcome call w = Ok None
      /\ events_since w (after call w)
         = [ Enter (c_get_cached_rag_chain k); Logged ERROR; StError ])
  /\ (forall c,
        rag_chain_cache (caches w) !! k = None ->
        outcome call w = Ok (Some c) ->
        truthy_str nomic_api_key = true
        /\ truthy_str groq_api_key = true
        /\ chain_model c = model
        /\ cached_vector_store (after call w)
           = Some (Some (chain_vectorstore c))).
Proof.
  intros k call. split; [|split; [|split; [|split]]].
  - apply returns_cache_resource, get_cached_rag_chain_body_returns.
  - apply get_cached_rag_chain_keeps_database.
  - apply get_cached_rag_chain_keeps_collection.
  - intros Hmiss Hkey. unfold call, get_cached_rag_chain, outcome, after,
      events_since.
    rewrite (cache_resource_miss rag_chain_cache put_rag_chain_cache k _ w
               Hmiss).
    unfold get_cached_rag_chain_body, k.
    destruct Hkey as [-> | Hg]; [|destruct (truthy_str nomic_api_key);
                                   rewrite Hg];
      py_run; rewrite <- !app_assoc; cbn; now rewrite drop_app_length.
  - intros c Hmiss Hc. unfold call, get_cached_rag_chain, outcome, after in *.
    rewrite (cache_resource_miss rag_chain_cache put_rag_chain_cache k _ w
               Hmiss) in *.
    destruct (get_cached_rag_chain_body env k w) as [[r|e] w1] eqn:Hb;
      cbn in Hc; [|discriminate].
    injection Hc as ->.
    exact (get_cached_rag_chain_body_some env model nomic_api_key
             groq_api_key w w1 c Hb).
Qed.

(** ** One prompt of the chat *)

Lemma returns_dispatch {A} (cs : list (Clause A)) (e : exn) :
  Forall (fun cl => forall e', returns (cl.2 e')) cs ->
  Exists (fun cl => forall e', cl.1 e' = true) cs ->
  returns (dispatch cs e).
Proof.
  intros Hall Hex. induction Hall as [|[p h] cs Hh _ IH]; [inversion Hex|].
  cbn. destruct (p e) eqn:Hp; [apply Hh|].
  apply IH. inversion Hex as [? ? Hp'|]; [|assumption].
  cbn in Hp'. rewrite Hp' in Hp. discriminate.
Qed.

Lemma returns_try_except_clauses {A} (body : M A) (cs : list (Clause A)) :
  Forall (fun cl => forall e', returns (cl.2 e')) cs ->
  Exists (fun cl => forall e', cl.1 e' = true) cs ->
  returns (try_except body cs).
Proof.
  intros Hall Hex w. unfold outcome, try_except.
  destruct (body w) as [[a|e] w1]; cbn; [now exists a|].
  now apply returns_dispatch.
Qed.

Lemma handle_prompt_returns (env : ChatEnv) (prompt session_id selected_model
    nomic_api_key groq_api_key : string) :
  returns (handle_prompt env prompt session_id selected_model nomic_api_key
             groq_api_key).
Proof.
  unfold handle_prompt. destruct (_ || _).
  - returns_tac.
  - apply returns_bind; [apply returns_emit | intros _].
    apply returns_try_except_clauses.
    + repeat constructor; intros e'; cbn; returns_tac.
    + right. left. reflexivity.
Qed.

Lemma execute_insert_log_keeps_documents (f : SqlFault)
    (session_id user_query gpt_response model : string) :
  stable (keeps (fun w => document_store (database w)))
    (execute_insert_log f session_id user_query gpt_response model).
Proof.
  intros w. unfold keeps, execute_insert_log. py_run.
  destruct f; py_run; try reflexivity.
  destruct (application_logs (database w)); reflexivity.
Qed.

Lemma execute_select_history_keeps_documents (f : SqlFault)
    (session_id : string) :
  stable (keeps (fun w => document_store (database w)))
    (execute_select_history f session_id).
Proof.
  intros w. unfold keeps, execute_select_history. py_run.
  destruct f; py_run; try reflexivity.
  destruct (application_logs (database w)); reflexivity.
Qed.

Lemma handle_prompt_keeps_documents (env : ChatEnv) (prompt session_id
    selected_model nomic_api_key groq_api_key : string) :
  stable (keeps (fun w => document_store (database w)))
    (handle_prompt env prompt session_id selected_model nomic_api_key
       groq_api_key).
Proof.
  pose proof execute_insert_log_keeps_documents.
  pose proof execute_select_history_keeps_documents.
  stable_tac.
Qed.

Lemma execute_select_history_keeps_collection (f : SqlFault)
    (session_id : string) :
  stable (keeps collection) (execute_select_history f session_id).
Proof.
  intros w. unfold keeps, execute_select_history. py_run.
  destruct f; py_run; try reflexivity.
  destruct (application_logs (database w)); reflexivity.
Qed.

Lemma execute_insert_log_keeps_collection (f : SqlFault)
    (session_id user_query gpt_response model : string) :
  stable (keeps collection)
    (execute_insert_log f session_id user_query gpt_response model).
Proof.
  intros w. unfold keeps, execute_insert_log. py_run.
  destruct f; py_run; try reflexivity.
  destruct (application_logs (database w)); reflexivity.
Qed.

Lemma handle_prompt_keeps_collection (env : ChatEnv) (prompt session_id
    selected_model nomic_api_key groq_api_key : string) :
  stable (keeps collection)
    (handle_prompt env prompt session_id selected_model nomic_api_key
       groq_api_key).
Proof.
  pose proof execute_insert_log_keeps_collection.
  pose proof execute_select_history_keeps_collection.
  stable_tac.
Qed.

Lemma get_cached_rag_chain_keeps_clock (env : ChainEnv) (k : ChainKey) :
  stable (keeps clock) (get_cached_rag_chain env k).
Proof. stable_tac. Qed.

Lemma get_chat_history_keeps_database (f : SqlFault) (session_id : string)
    (w : World) :
  database (after (get_chat_history f session_id) w) = database w
  /\ clock (after (get_chat_history f session_id) w) = clock w.
Proof.
  unfold get_chat_history, get_db_connection, execute_select_history,
    sqlite3_connect.
  destruct f; py_run; try (split; reflexivity).
  destruct (application_logs (database w)); split; reflexivity.
Qed.

(** How the handling of a prompt ends when both keys are present: with the
    prompt alone after an error message, or with the prompt and the answer
    of the chain, the answer being shown last and after the log write. *)
Lemma handle_prompt_inv (env : ChatEnv) (prompt session_id selected_model
    nomic_api_key groq_api_key : string) (w w' : World)
    (msgs : list Message) :
  truthy_str nomic_api_key = true -> truthy_str groq_api_key = true ->
  handle_prompt env prompt session_id selected_model nomic_api_key
    groq_api_key w = (Ok msgs, w') ->
  let asked := {| role := user; content := prompt |} in
  (msgs = [asked] /\ last (trace w') = Some StError)
  \/ exists answer,
       let answered := {| role := assistant; content := answer |} in
       msgs = [asked; answered]
       /\ ch_invoke env = Answers answer
       /\ ch_log env <> ConnectFault
       /\ last (trace w') = Some (Displayed answered)
       /\ database w'
          = match ch_log env, application_logs (database w) with
            | NoFault, Some rows =>
                {| application_logs :=
                     Some (rows ++ [ {| log_session_id := session_id;
                                        log_user_query := prompt;
                                        log_gpt_response := answer;
                                        log_model := selected_model;
                                        log_created_at := clock w |} ]);
                   document_store := document_store (database w);
                   document_seq := document_seq (database w) |}
            | _, _ => database w
            end.
Proof.
  intros Hn Hg. unfold handle_prompt. rewrite Hn, Hg. cbn [negb orb].
  unfold bind at 1. unfold emit at 1, modify. cbv beta iota.
  set (w0 := set_trace (trace w ++ [Displayed {| role := user;
                                                 content := prompt |}]) w).
  assert (Herr : forall w1 : World,
            (bind (emit (Logged ERROR))
               (fun _ => bind (emit StError)
                           (fun _ => ret [ {| role := user;
                                              content := prompt |} ]))) w1
            = (Ok msgs, w') ->
            msgs = [ {| role := user; content := prompt |} ]
            /\ last (trace w') = Some StError).
  { intros w1. py_run. intros [= <- <-]. split; [reflexivity|]. cbn.
    now rewrite last_snoc. }
  unfold try_except, bind at 1.
  set (k := (selected_model, nomic_api_key, groq_api_key)).
  pose proof (get_cached_rag_chain_keeps_database (ch_chain env) k w0) as Hd1.
  pose proof (get_cached_rag_chain_keeps_clock (ch_chain env) k w0) as Hc1.
  unfold keeps, after in Hd1, Hc1.
  destruct (get_cached_rag_chain (ch_chain env) k w0) as [[[chain|]|e] w1];
    cbn [fst snd] in Hd1, Hc1; cbv beta iota.
  2:{ intros H. left. exact (Herr _ H). }
  2:{ cbn [dispatch]. destruct (is_RAGChainInitializationError e);
        [|cbn [is_Exception]]; intros H; left; exact (Herr _ H). }
  unfold bind at 1.
  destruct (get_chat_history_keeps_database (ch_history env) session_id w1)
    as [Hd2 Hc2]. unfold after in Hd2, Hc2.
  destruct (get_chat_history (ch_history env) session_id w1)
    as [[history|e] w2]; cbn [fst snd] in Hd2, Hc2; cbv beta iota.
  2:{ cbn [dispatch]. destruct (is_RAGChainInitializationError e);
        [|cbn [is_Exception]]; intros H; left; exact (Herr _ H). }
  unfold bind at 1. unfold rag_chain_invoke at 1.
  unfold bind at 1. unfold emit at 1, modify. cbv beta iota.
  set (wi := set_trace (trace w2 ++ [Lib (l_invoke prompt)]) w2).
  destruct (ch_invoke env) as [answer|e] eqn:Hinv;
    [unfold ret at 1 | unfold raise at 1]; cbv beta iota.
  2:{ cbn [dispatch]. destruct (is_RAGChainInitializationError e);
        [|cbn [is_Exception]]; intros H; left; exact (Herr _ H). }
  unfold bind at 1.
  pose proof (insert_application_logs_database (ch_log env) session_id prompt
                answer selected_model wi) as Hd3.
  assert (Hraise : forall e w3,
            insert_application_logs (ch_log env) session_id prompt answer
              selected_model wi = (Raise e, w3) ->
            ch_log env = ConnectFault).
  { intros e w3. unfold insert_application_logs, get_db_connection,
      execute_insert_log, sqlite3_connect.
    destruct (ch_log env); py_run; try discriminate; [|reflexivity].
    destruct (application_logs (database w2)); discriminate. }
  assert (Hok : forall u w3,
            insert_application_logs (ch_log env) session_id prompt answer
              selected_model wi = (Ok u, w3) ->
            ch_log env <> ConnectFault).
  { intros u w3. unfold insert_application_logs, get_db_connection,
      execute_insert_log, sqlite3_connect.
    destruct (ch_log env); py_run; discriminate. }
  unfold after in Hd3.
  destruct (insert_application_logs (ch_log env) session_id prompt answer
              selected_model wi) as [[[]|e] w3]; cbn [fst snd] in Hd3;
    cbv beta iota.
  2:{ cbn [dispatch]. destruct (is_RAGChainInitializationError e);
        [|cbn [is_Exception]]; intros H; left; exact (Herr _ H). }
  py_run. intros [= <- <-]. right. exists answer. cbv zeta.
  split; [reflexivity|]. split; [reflexivity|].
  split; [exact (Hok tt w3 eq_refl)|]. split; [cbn; now rewrite last_snoc|].
  cbn. rewrite Hd3. cbn. now rewrite Hd2, Hd1, Hc2, Hc1.
Qed.

(** X13. Handling a prompt never raises; it never changes the document
    table or the collection.  With a key missing it only shows a warning:
    the prompt is neither kept nor logged.  With both keys, the prompt is
    always kept; what follows is either an error message and nothing else,
    or the answer of the chain, kept in the session and shown last, which
    happens only when the log write did not fail to connect. *)
Theorem chat_turn_never_raises (env : ChatEnv) (prompt session_id
    selected_model nomic_api_key groq_api_key : string) (w : World) :
  let call := handle_prompt env prompt session_id selected_model
                nomic_api_key groq_api_key in
  let asked := {| role := user; content := prompt |} in
  (exists msgs, outcome call w = Ok msgs)
  /\ document_store (database (after call w)) = document_store (database w)
  /\ collection (after call w) = collection w
  /\ (truthy_str nomic_api_key = false \/ truthy_str groq_api_key = false ->
      call w = (Ok [], set_trace (trace w ++ [StWarning]) w))
  /\ (forall msgs,
        truthy_str nomic_api_key = true -> truthy_str groq_api_key = true ->
        outcome call w = Ok msgs ->
        (msgs = [asked] /\ last (trace (after call w)) = Some StError)
        \/ exists answer,
             let answered := {| role := assistant; content := answer |} in
             msgs = [asked; answered]
             /\ ch_invoke env = Answers answer
             /\ ch_log env <> ConnectFault
             /\ last (trace (after call w)) = Some (Displayed answered)).
Proof.
  intros call asked. split; [apply handle_prompt_returns|].
  split; [apply handle_prompt_keeps_documents|].
  split; [apply handle_prompt_keeps_collection|]. split.
  - intros Hkey. unfold call, handle_prompt.
    destruct Hkey as [-> | ->]; [|rewrite orb_true_r]; reflexivity.
  - intros msgs Hn Hg Hout.
    assert (Hrun : call w = (Ok msgs, after call w))
      by (rewrite (run_eta call w); now rewrite Hout).
    destruct (handle_prompt_inv env prompt session_id selected_model
                nomic_api_key groq_api_key w _ msgs Hn Hg Hrun)
      as [H | (answer & H1 & H2 & H3 & H4 & _)]; [now left|].
    right. exists answer. cbv zeta. auto.
Qed.

(** X14. A turn that ended with an answer is remembered: with the log table
    in place, when the log write meets no fault, neither the prompt nor the
    answer is empty, and no row of the session carries a timestamp later
    than the wall clock reads now (the clock was not set back behind one of
    them), [get_chat_history] of the session afterwards returns what it
    returned before the turn, followed by the prompt as a user entry and the
    answer as an assistant entry. *)
Theorem chat_turn_is_remembered (env : ChatEnv) (prompt answer session_id
    selected_model nomic_api_key groq_api_key : string) (w : World)
    (rows : list LogRow) :
  application_logs (database w) = Some rows ->
  truthy_str nomic_api_key = true -> truthy_str groq_api_key = true ->
  truthy_str prompt = true -> truthy_str answer = true ->
  ch_log env = NoFault ->
  Forall (fun r => log_created_at r <= clock w)
    (filter (fun r => log_session_id r = session_id) rows) ->
  let call := handle_prompt env prompt session_id selected_model
                nomic_api_key groq_api_key in
  let turn := [ {| role := user; content := prompt |};
                {| role := assistant; content := answer |} ] in
  outcome call w = Ok turn ->
  exists before,
    outcome (get_chat_history NoFault session_id) w = Ok before
    /\ outcome (get_chat_history NoFault session_id) (after call w)
       = Ok (before ++ turn).
Proof.
  intros Hs Hn Hg Hp Ha Hlog Hpast call turn Hout.
  assert (Hrun : call w = (Ok turn, after call w))
    by (rewrite (run_eta call w); now rewrite Hout).
  destruct (handle_prompt_inv env prompt session_id selected_model
              nomic_api_key groq_api_key w _ turn Hn Hg Hrun)
    as [[H _] | (answer' & H1 & _ & _ & _ & Hdb)]; [discriminate|].
  injection H1 as <-. rewrite Hlog, Hs in Hdb.
  set (known := filter (fun r => log_session_id r = session_id) rows) in *.
  set (row := {| log_session_id := session_id; log_user_query := prompt;
                 log_gpt_response := answer; log_model := selected_model;
                 log_created_at := clock w |}) in *.
  exists (concat (map row_messages
                    (order_by
                       (fun a b => log_created_at a <=? log_created_at b)%nat
                       known))).
  split.
  - rewrite get_chat_history_result, Hs. reflexivity.
  - rewrite get_chat_history_result, Hdb. cbn [application_logs].
    rewrite filter_app, filter_cons, decide_True, filter_nil by reflexivity.
    fold known. rewrite (order_by_snoc log_created_at row known Hpast).
    rewrite map_app, concat_app. cbn.
    unfold row_messages. cbn. now rewrite Hp, Ha.
Qed.

Lemma chat_turn_is_remembered_witness :
  outcome (get_chat_history NoFault "s1")
    (after (handle_prompt (chat_env NoFault) "And Y?" "s1"
              "llama-3.1-8b-instant" "nomic-key" "groq-key") world_chatted)
  = Ok [ {| role := user; content := "What is X?" |};
         {| role := assistant; content := "X is a letter." |};
         {| role := user; content := "And Y?" |};
         {| role := assistant; content := "X is a letter." |} ].
Proof.
  assert (Hpast : Forall (fun r => log_created_at r <= clock world_chatted)
                    (filter (fun r => log_session_id r = "s1")
                       (map turn_row chatted_turns)))
    by (vm_compute; repeat constructor).
  destruct (chat_turn_is_remembered (chat_env NoFault) "And Y?"
              "X is a letter." "s1" "llama-3.1-8b-instant" "nomic-key"
              "groq-key" world_chatted (map turn_row chatted_turns) eq_refl
              eq_refl eq_refl eq_refl eq_refl eq_refl Hpast)
    as (before & Hb & Ha); [vm_compute; reflexivity|].
  assert (before = [ {| role := user; content := "What is X?" |};
                     {| role := assistant; content := "X is a letter." |} ])
    as ->.
  { assert (Hnow : outcome (get_chat_history NoFault "s1") world_chatted
                   = Ok [ {| role := user; content := "What is X?" |};
                          {| role := assistant;
                             content := "X is a letter." |} ])
      by (vm_compute; reflexivity).
    rewrite Hnow in Hb. now injection Hb. }
  exact Ha.
Defined.

(** ** The labels of the delete selection *)

Lemma pretty_N_char_digit (x : N) : is_digit (pretty_N_char x).
Proof.
  unfold is_digit. destruct x as [|p]; [vm_compute; lia|].
  do 4 (try match goal with q : positive |- _ => destruct q end);
    vm_compute; lia.
Qed.

Lemma pretty_N_go_digits (x : N) (s : string) :
  Forall is_digit (String.list_ascii_of_string s) ->
  Forall is_digit (String.list_ascii_of_string (pretty_N_go x s)).
Proof.
  revert s. induction (N.lt_wf_0 x) as [x _ IH]. intros s Hs.
  assert (x = 0 \/ 0 < x)%N as [->|Hx] by lia.
  - now rewrite pretty_N_go_0.
  - rewrite pretty_N_go_step by exact Hx. apply IH.
    + now apply N.div_lt.
    + cbn. constructor; [apply pretty_N_char_digit | exact Hs].
Qed.

(** [str(n)] of a natural number is made of digits. *)
Lemma pretty_nat_digits (n : nat) :
  Forall is_digit (String.list_ascii_of_string (pretty n)).
Proof.
  unfold pretty, pretty_nat, pretty, pretty_N.
  case_decide; [repeat constructor; unfold is_digit; vm_compute; lia|].
  apply pretty_N_go_digits. constructor.
Qed.

(** Two lists that start with digits and go on with something else are
    equal piece by piece. *)
Lemma digits_prefix_unique (l1 l2 r1 r2 : list ascii) (x y : ascii) :
  Forall is_digit l1 -> Forall is_digit l2 ->
  ~ is_digit x -> ~ is_digit y ->
  l1 ++ x :: r1 = l2 ++ y :: r2 -> l1 = l2 /\ r1 = r2.
Proof.
  intros H1. revert l2. induction H1 as [|a l1 Ha _ IH]; intros l2 H2 Hx Hy.
  - destruct H2 as [|b l2 Hb _]; cbn.
    + now intros [= _ ->].
    + intros [= -> _]. contradiction.
  - destruct H2 as [|b l2 Hb H2]; cbn.
    + intros [= -> _]. contradiction.
    + intros [= -> Heq]. destruct (IH l2 H2 Hx Hy Heq) as [-> ->]. now split.
Qed.

(** The label shows one file name and one id. *)
Lemma doc_label_inj (d1 d2 : DocRow) :
  doc_label d1 = doc_label d2 ->
  doc_id d1 = doc_id d2 /\ doc_filename d1 = doc_filename d2.
Proof.
  unfold doc_label. intros Heq.
  apply (f_equal String.list_ascii_of_string) in Heq.
  rewrite !list_ascii_of_string_app in Heq.
  apply (f_equal (@rev ascii)) in Heq.
  rewrite !rev_app_distr in Heq. cbn in Heq.
  injection Heq as Heq. rewrite <- !app_assoc in Heq. cbn [app] in Heq.
  apply digits_prefix_unique in Heq as [Hp Hf].
  - split.
    + apply (f_equal (@rev ascii)) in Hp. rewrite !rev_involutive in Hp.
      apply (inj pretty).
      rewrite <- (String.string_of_list_ascii_of_string (pretty (doc_id d1))),
        <- (String.string_of_list_ascii_of_string (pretty (doc_id d2))).
      now rewrite Hp.
    + injection Hf as Hf. apply (f_equal (@rev ascii)) in Hf.
      rewrite !rev_involutive in Hf.
      rewrite <- (String.string_of_list_ascii_of_string (doc_filename d1)),
        <- (String.string_of_list_ascii_of_string (doc_filename d2)).
      now rewrite Hf.
  - apply Forall_rev, pretty_nat_digits.
  - apply Forall_rev, pretty_nat_digits.
  - unfold is_digit. vm_compute. lia.
  - unfold is_digit. vm_compute. lia.
Qed.

Lemma dict_get_set (key : string) (value : nat) (d : list (string * nat))
    (k : string) :
  dict_get k (dict_set key value d)
  = if bool_decide (k = key) then Some value else dict_get k d.
Proof.
  induction d as [|[k' v'] d IH]; cbn.
  - repeat case_bool_decide; congruence.
  - destruct (decide (k' = key)) as [->|Hne].
    + rewrite (bool_decide_eq_true_2 (key = key)) by done. cbn.
      repeat case_bool_decide; congruence.
    + rewrite (bool_decide_eq_false_2 (k' = key)) by done. cbn. rewrite IH.
      repeat case_bool_decide; congruence.
Qed.

Lemma dict_set_keys (key : string) (value : nat) (d : list (string * nat))
    (k : string) :
  k ∈ map fst (dict_set key value d) <-> k = key \/ k ∈ map fst d.
Proof.
  induction d as [|[k' v'] d IH]; cbn.
  - rewrite list_elem_of_singleton. split; [auto|].
    intros [H|H]; [exact H|]. now apply elem_of_nil in H.
  - destruct (decide (k' = key)) as [->|Hne].
    + rewrite (bool_decide_eq_true_2 (key = key)) by done. cbn.
      rewrite !elem_of_cons. tauto.
    + rewrite (bool_decide_eq_false_2 (k' = key)) by done. cbn.
      rewrite !elem_of_cons, IH. tauto.
Qed.

Lemma dict_get_keys (d : list (string * nat)) (k : string) :
  k ∈ map fst d -> exists v, dict_get k d = Some v.
Proof.
  induction d as [|[k' v'] d IH]; cbn.
  - intros H. now apply elem_of_nil in H.
  - rewrite elem_of_cons. case_bool_decide as H1; [eauto|].
    intros [H|H]; [congruence | now apply IH].
Qed.

(** What the dict comprehension holds: every key is the label of a listed
    document, and its value is the id of such a document. *)
Lemma doc_options_entries (documents : list DocRow) (k : string) (v : nat) :
  dict_get k (doc_options documents) = Some v ->
  exists doc, doc ∈ documents /\ doc_label doc = k /\ doc_id doc = v.
Proof.
  unfold doc_options.
  assert (Hgen : forall acc,
            (forall v', dict_get k acc = Some v' ->
                        exists doc, doc ∈ documents /\ doc_label doc = k
                                    /\ doc_id doc = v') ->
            forall docs,
              (forall doc, doc ∈ docs -> doc ∈ documents) ->
              dict_get k
                (foldl (fun d doc => dict_set (doc_label doc) (doc_id doc) d)
                   acc docs) = Some v ->
              exists doc, doc ∈ documents /\ doc_label doc = k
                          /\ doc_id doc = v).
  { intros acc Hacc docs. revert acc Hacc.
    induction docs as [|d docs IH]; intros acc Hacc Hsub; cbn.
    - apply Hacc.
    - apply IH; [|intros doc Hdoc; apply Hsub; now right].
      intros v'. rewrite dict_get_set. case_bool_decide as Hk.
      + intros [= <-]. exists d. split; [apply Hsub; now left | auto].
      + apply Hacc. }
  apply (Hgen [] (fun v' H => ltac:(discriminate)) documents). auto.
Qed.

Lemma doc_options_keys (documents : list DocRow) (k : string) :
  k ∈ map fst (doc_options documents)
  <-> exists doc, doc ∈ documents /\ doc_label doc = k.
Proof.
  unfold doc_options.
  assert (Hgen : forall docs acc,
            k ∈ map fst
                  (foldl (fun d doc =>
                            dict_set (doc_label doc) (doc_id doc) d)
                     acc docs)
            <-> k ∈ map fst acc
                \/ exists doc, doc ∈ docs /\ doc_label doc = k).
  { induction docs as [|d docs IH]; intros acc; cbn.
    - split; [auto|]. intros [H|(doc & H & _)]; [exact H|].
      now apply elem_of_nil in H.
    - rewrite IH, dict_set_keys. split.
      + intros [[-> | H] | (doc & H & Hl)]; [right|now left|right].
        * exists d. split; [now left | reflexivity].
        * exists doc. split; [now right | exact Hl].
      + intros [H | (doc & H & Hl)]; [left; now right|].
        apply elem_of_cons in H as [-> | H]; [left; left; now symmetry|].
        right. now exists doc. }
  rewrite Hgen. split; [|auto].
  intros [H|H]; [now apply elem_of_nil in H | exact H].
Qed.

Lemma selectbox_elem_of {A} (options : list A) (choice : nat) (x : A) :
  selectbox options choice = Some x -> x ∈ options.
Proof.
  unfold selectbox. destruct (options !! choice) as [y|] eqn:Hy.
  - intros [= <-]. now apply list_elem_of_lookup_2 in Hy.
  - destruct options as [|y options]; [discriminate|].
    intros [= <-]. now left.
Qed.

(** The value under a key of the dict is the id of a listed document with
    that label. *)
Lemma doc_options_lookup (documents : list DocRow) (label : string) :
  label ∈ map fst (doc_options documents) ->
  exists doc,
    doc ∈ documents /\ doc_label doc = label
    /\ dict_get label (doc_options documents) = Some (doc_id doc).
Proof.
  intros Hin. destruct (dict_get_keys _ _ Hin) as [v Hv].
  destruct (doc_options_entries documents label v Hv)
    as (doc & Hdoc & Hl & <-). now exists doc.
Qed.

(** X15. The delete selection of the sidebar.  Every listed document has
    its label among the options, and the dict gives its id for its label; a
    label shows one file name and one id, so the id looked up for the
    selected label is the id of every listed document with that label, and
    the lookup never fails with [KeyError]. *)
Theorem selected_label_gives_its_document (documents : list DocRow) :
  (forall doc,
     doc ∈ documents ->
     doc_label doc ∈ map fst (doc_options documents)
     /\ dict_get (doc_label doc) (doc_options documents) = Some (doc_id doc))
  /\ (forall d1 d2,
        doc_label d1 = doc_label d2 ->
        doc_id d1 = doc_id d2 /\ doc_filename d1 = doc_filename d2)
  /\ (forall choice label,
        selectbox (map fst (doc_options documents)) choice = Some label ->
        exists doc,
          doc ∈ documents /\ doc_label doc = label
          /\ dict_get label (doc_options documents) = Some (doc_id doc)).
Proof.
  pose proof (doc_options_lookup documents) as Hlookup.
  split; [|split; [apply doc_label_inj|]].
  - intros doc Hdoc.
    assert (Hin : doc_label doc ∈ map fst (doc_options documents)).
    { apply doc_options_keys. now exists doc. }
    split; [exact Hin|].
    destruct (Hlookup _ Hin) as (doc' & _ & Hl & ->).
    now destruct (doc_label_inj _ _ Hl) as [-> _].
  - intros choice label Hsel. apply Hlookup.
    now apply selectbox_elem_of in Hsel.
Qed.

(** ** Runs of the pages *)

Ltac ui_unfold :=
  unfold ui_outcome, ui_session, ui_after, ui_bind, ui_ret, call, read,
    has_key, assign, init_key.

Ltac ui_run := repeat (progress (try ui_unfold; cbn)).

Lemma ui_keeps_ret {A} (I : Session -> World -> Prop) (a : A) :
  ui_keeps I (ui_ret a).
Proof. intros ss w H. exact H. Qed.

Lemma ui_keeps_bind {A B} (I : Session -> World -> Prop) (c : UI A)
    (k : A -> UI B) :
  ui_keeps I c -> (forall a, ui_keeps I (k a)) -> ui_keeps I (ui_bind c k).
Proof.
  intros Hc Hk ss w H. specialize (Hc ss w H).
  unfold ui_session, ui_after, ui_bind in *.
  destruct (c ss w) as [[[a|e] ss1] w1]; cbn in *; [|exact Hc].
  now apply Hk.
Qed.

Lemma ui_keeps_call {A} (I : Session -> World -> Prop) (c : M A) :
  (forall ss, stable (preserves (I ss)) c) -> ui_keeps I (call c).
Proof.
  intros Hc ss w H. specialize (Hc ss w H).
  unfold ui_session, ui_after, call, after in *.
  now destruct (c w) as [r w1].
Qed.

Lemma ui_keeps_read {A} (I : Session -> World -> Prop)
    (field : Session -> option A) :
  ui_keeps I (read field).
Proof.
  intros ss w H. unfold ui_session, ui_after, read.
  now destruct (field ss).
Qed.

Lemma ui_keeps_has_key {A} (I : Session -> World -> Prop)
    (field : Session -> option A) :
  ui_keeps I (has_key field).
Proof. intros ss w H. exact H. Qed.

Lemma ui_keeps_assign {A} (I : Session -> World -> Prop)
    (set : A -> Session -> Session) (value : A) :
  (forall ss w, I ss w -> I (set value ss) w) ->
  ui_keeps I (assign set value).
Proof. intros Hs ss w H. now apply Hs. Qed.

Lemma ui_keeps_init_key {A} (I : Session -> World -> Prop)
    (field : Session -> option A) (set : A -> Session -> Session)
    (value : A) :
  (forall ss w, I ss w -> I (set value ss) w) ->
  ui_keeps I (init_key field set value).
Proof.
  intros Hs ss w H. unfold ui_session, ui_after, init_key, setdefault. cbn.
  destruct (field ss); [exact H | now apply Hs].
Qed.

(** Proving [ui_keeps I c] by following the structure of [c]; calls into
    the code below are left to [stable_tac]. *)
Ltac ui_keeps_step :=
  match goal with
  | |- ui_keeps _ (ui_ret _) => apply ui_keeps_ret
  | |- ui_keeps _ (ui_bind _ _) => apply ui_keeps_bind; [|intros ?]
  | |- ui_keeps _ (read _) => apply ui_keeps_read
  | |- ui_keeps _ (assign _ _) =>
      apply ui_keeps_assign; intros ? ? ?; assumption
  | |- ui_keeps _ (init_key _ _ _) =>
      apply ui_keeps_init_key; intros ? ? ?; assumption
  | |- ui_keeps _ (call _) => apply ui_keeps_call; intros ?
  | |- ui_keeps _ (let _ := _ in _) => cbv zeta
  | |- ui_keeps _ (match ?x with _ => _ end) => destruct x
  | |- ui_keeps _ (has_key _) => apply ui_keeps_has_key
  | |- ui_keeps _ ?c => let h := head_of c in unfold h
  end.

Lemma display_messages_run (messages : list Message) (w : World) :
  display_messages messages w
  = (Ok tt, set_trace (trace w ++ map Displayed messages) w).
Proof.
  revert w. induction messages as [|m ms IH]; intros w; cbn.
  - unfold ret. rewrite app_nil_r. now destruct w.
  - unfold bind, emit, modify. rewrite IH. cbn. now rewrite <- app_assoc.
Qed.

(** Without a click on "Delete Selected Document" the last section of the
    sidebar does nothing. *)
Lemma sidebar_delete_idle (inp : SidebarInput) (ss : Session) (w : World)
    (documents : option (list DocRow)) :
  si_delete_clicked inp = false ->
  ss_documents ss = Some documents ->
  sidebar_delete inp ss w = (Ok tt, ss, w).
Proof.
  intros Hno Hdocs. unfold sidebar_delete, ui_bind, read. rewrite Hdocs.
  destruct documents as [[|d docs]|]; try reflexivity.
  destruct (doc_options (d :: docs)) as [|o os] eqn:Ho; [reflexivity|].
  rewrite <- Ho.
  destruct (selectbox (map fst (doc_options (d :: docs)))
              (si_doc_choice inp)) as [label|] eqn:Hsel; [|reflexivity].
  destruct (doc_options_lookup (d :: docs) label
              (selectbox_elem_of _ _ _ Hsel)) as (doc & _ & _ & ->).
  now rewrite Hno.
Qed.

(** What the [try] around the initialisation gives. *)
Lemma initialize_or_report_result (f : InitFault) (w : World) :
  let w' := after (initialize_or_report f) w in
  (db_initialized w = true \/ f = InitNoFault ->
   outcome (initialize_or_report f) w = Ok true
   /\ db_initialized w' = true)
  /\ (db_initialized w = false -> f <> InitNoFault ->
      outcome (initialize_or_report f) w = Ok false
      /\ db_initialized w' = false
      /\ last (trace w') = Some StError).
Proof.
  unfold initialize_or_report, ensure_db_initialized, _initialize_database,
    os_makedirs_exist_ok, get_db_connection, sqlite3_connect, execute_create.
  split.
  - intros [Hg | ->]; py_run; [rewrite Hg; py_run; now rewrite Hg|].
    destruct (db_initialized w) eqn:Hg; py_run; now rewrite ?Hg.
  - intros Hg Hf. destruct f; try contradiction; py_run; rewrite Hg; py_run;
      rewrite ?Hg, ?last_snoc; auto.
Qed.

Lemma ui_bind_outcome_inv {A B} (c : UI A) (k : A -> UI B) (ss : Session)
    (w : World) (b : B) :
  ui_outcome (ui_bind c k) ss w = Ok b ->
  exists a ss1 w1,
    c ss w = (Ok a, ss1, w1) /\ ui_outcome (k a) ss1 w1 = Ok b.
Proof.
  unfold ui_outcome, ui_bind.
  destruct (c ss w) as [[[a|e] ss1] w1]; cbn; [|discriminate].
  intros H. now exists a, ss1, w1.
Qed.

Lemma display_sidebar_keeps_guard (inp : SidebarInput) :
  ui_keeps (fun _ w => db_initialized w = true) (display_sidebar inp).
Proof. repeat ui_keeps_step; stable_tac. Qed.

(** Showing the transcript only adds to the trace. *)
Lemma display_messages_stable (R : relation World) `{!PreOrder R}
    (messages : list Message) :
  (forall w evs, R w (set_trace (trace w ++ evs) w)) ->
  stable R (display_messages messages).
Proof.
  intros HR w. unfold after. rewrite display_messages_run. apply HR.
Qed.

Lemma display_chat_interface_keeps_guard (inp : ChatInput) :
  ui_keeps (fun _ w => db_initialized w = true) (display_chat_interface inp).
Proof.
  assert (Hd : forall messages,
            stable (preserves (fun w => db_initialized w = true))
              (display_messages messages)).
  { intros messages. apply display_messages_stable; [tc_solve|].
    intros w evs H. exact H. }
  repeat ui_keeps_step; stable_tac.
Qed.

(** X16. One run of the script.  When the database cannot be initialised,
    the run ends in [sys.exit(1)] after the error message and nothing else
    happens: no session key is set, neither page runs, and the guard stays
    unset, so the next run tries again.  Otherwise the run never ends in
    [sys.exit], and the guard is set when it ends, however it ends. *)
Theorem failed_initialization_stops_the_run (inp : AppInput) (ss : Session)
    (w : World) :
  (db_initialized w = false -> ai_init inp <> InitNoFault ->
   streamlit_app inp ss w
   = (Ok (Exited 1), ss, after (initialize_or_report (ai_init inp)) w)
   /\ db_initialized (ui_after (streamlit_app inp) ss w) = false
   /\ last (trace (ui_after (streamlit_app inp) ss w)) = Some StError)
  /\ (db_initialized w = true \/ ai_init inp = InitNoFault ->
      (forall status,
         ui_outcome (streamlit_app inp) ss w <> Ok (Exited status))
      /\ db_initialized (ui_after (streamlit_app inp) ss w) = true).
Proof.
  destruct (initialize_or_report_result (ai_init inp) w) as [Hok Hfail].
  cbv zeta in Hok, Hfail. split.
  - intros Hg Hf. destruct (Hfail Hg Hf) as (Hout & Hg' & Hlast).
    assert (Hrun : streamlit_app inp ss w
                   = (Ok (Exited 1), ss,
                      after (initialize_or_report (ai_init inp)) w)).
    { unfold streamlit_app, ui_bind at 1, call at 1.
      rewrite (run_eta (initialize_or_report (ai_init inp)) w), Hout.
      reflexivity. }
    split; [exact Hrun|]. unfold ui_after. rewrite Hrun. now split.
  - intros Hcase. destruct (Hok Hcase) as [Hout Hg'].
    set (rest := (init_key ss_messages set_ss_messages [app_greeting] ;;
                  init_key ss_session_id set_ss_session_id (ai_uuid inp) ;;
                  display_sidebar (ai_sidebar inp) ;;
                  display_chat_interface (ai_chat inp) ;;
                  ui_ret Finished)%ui).
    assert (Hrun : streamlit_app inp ss w
                   = rest ss (after (initialize_or_report (ai_init inp)) w)).
    { unfold streamlit_app, ui_bind at 1, call at 1.
      rewrite (run_eta (initialize_or_report (ai_init inp)) w), Hout.
      reflexivity. }
    unfold ui_outcome, ui_after. rewrite Hrun. split.
    + intros status Hexit.
      unfold rest in Hexit.
      apply (ui_bind_outcome_inv _ _ _ _ _) in Hexit
        as (? & ? & ? & _ & Hexit).
      apply (ui_bind_outcome_inv _ _ _ _ _) in Hexit
        as (? & ? & ? & _ & Hexit).
      apply (ui_bind_outcome_inv _ _ _ _ _) in Hexit
        as (? & ? & ? & _ & Hexit).
      apply (ui_bind_outcome_inv _ _ _ _ _) in Hexit
        as (? & ? & ? & _ & Hexit).
      discriminate Hexit.
    + assert (Hk : ui_keeps (fun _ w => db_initialized w = true) rest).
      { pose proof display_sidebar_keeps_guard.
        pose proof display_chat_interface_keeps_guard.
        unfold rest.
        repeat first [ solve [auto]
                     | apply ui_keeps_ret
                     | apply ui_keeps_init_key; intros ? ? ?; assumption
                     | apply ui_keeps_bind; [|intros ?] ]. }
      exact (Hk ss _ Hg').
Qed.

Lemma set_trace_twice (w : World) (evs1 evs2 : list Event) :
  set_trace (trace (set_trace (trace w ++ evs1) w) ++ evs2)
    (set_trace (trace w ++ evs1) w)
  = set_trace (trace w ++ (evs1 ++ evs2)) w.
Proof. unfold set_trace. cbn. now rewrite app_assoc. Qed.

Lemma set_trace_nil (w : World) : set_trace (trace w ++ []) w = w.
Proof. unfold set_trace. rewrite app_nil_r. now destruct w. Qed.

(** The head of the sidebar stores what was typed and picked; it only shows
    warnings. *)
Lemma sidebar_settings_run (inp : SidebarInput) (ss : Session) (w : World) :
  sidebar_settings inp ss w
  = (Ok tt,
     match selectbox model_options (si_model_choice inp) with
     | Some selected_model => set_ss_model selected_model
     | None => fun s => s
     end
       (set_ss_groq_api_key (si_groq_key_input inp)
          (set_ss_nomic_api_key (si_nomic_key_input inp)
             (setdefault ss_groq_api_key set_ss_groq_api_key ""
                (setdefault ss_nomic_api_key set_ss_nomic_api_key "" ss)))),
     set_trace
       (trace w
        ++ ((if truthy_str (si_nomic_key_input inp) then [] else [StWarning])
            ++ (if truthy_str (si_groq_key_input inp) then []
                else [StWarning]))) w).
Proof.
  unfold sidebar_settings.
  destruct (selectbox model_options (si_model_choice inp)) as [m|];
    destruct (truthy_str (si_nomic_key_input inp)) eqn:Hn;
    destruct (truthy_str (si_groq_key_input inp)) eqn:Hg;
    repeat (progress (rewrite ?Hn, ?Hg; ui_run));
    unfold emit, modify; cbn; rewrite ?set_trace_nil; try reflexivity;
    unfold set_trace; cbn; now rewrite <- ?app_assoc.
Qed.

(** Without a click and with the list loaded, the document section does
    nothing. *)
Lemma sidebar_documents_idle (inp : SidebarInput) (ss : Session) (w : World)
    (documents : list DocRow) :
  si_uploaded_file inp = None \/ si_upload_clicked inp = false ->
  si_refresh_clicked inp = false ->
  ss_documents ss = Some (Some documents) ->
  sidebar_documents inp ss w = (Ok tt, ss, w).
Proof.
  intros Hup Hre Hdocs. unfold sidebar_documents. rewrite Hre.
  destruct Hup as [-> | Hup];
    [|rewrite Hup; destruct (si_uploaded_file inp)];
    ui_run; rewrite Hdocs; ui_run; now rewrite Hdocs.
Qed.

(** Without a prompt the chat page sets its defaults and shows the
    transcript. *)
Lemma display_chat_interface_idle (inp : ChatInput) (ss : Session)
    (w : World) :
  ci_prompt inp = None ->
  let ss' :=
    setdefault ss_messages set_ss_messages [chat_greeting]
      (setdefault ss_session_id set_ss_session_id (ci_uuid inp)
         (setdefault ss_model set_ss_model "llama-3.1-8b-instant"
            (setdefault ss_groq_api_key set_ss_groq_api_key ""
               (setdefault ss_nomic_api_key set_ss_nomic_api_key "" ss)))) in
  display_chat_interface inp ss w
  = (Ok tt, ss',
     set_trace
       (trace w
        ++ map Displayed (default [chat_greeting] (ss_messages ss))) w).
Proof.
  intros Hp. unfold display_chat_interface. rewrite Hp.
  unfold setdefault.
  destruct ss as [n g m s msgs d].
  destruct n, g, m, s, msgs; ui_run; rewrite ?display_messages_run;
    reflexivity.
Qed.

Lemma ui_bind_run {A B} (c : UI A) (k : A -> UI B) (ss ss1 : Session)
    (w w1 : World) (a : A) :
  c ss w = (Ok a, ss1, w1) -> ui_bind c k ss w = k a ss1 w1.
Proof. intros H. unfold ui_bind. now rewrite H. Qed.

Lemma Forall_shows_only_warnings (b1 b2 : bool) :
  Forall shows_only
    ((if b1 then [] else [StWarning]) ++ (if b2 then [] else [StWarning])).
Proof. destruct b1, b2; repeat constructor. Qed.

Lemma Forall_shows_only_displayed (messages : list Message) :
  Forall shows_only (map Displayed messages).
Proof.
  induction messages as [|m ms IH]; constructor; [right; now exists m | exact IH].
Qed.

(** X17. A run of the script in which the user clicks nothing and sends no
    prompt, with the database initialised and the document list loaded,
    finishes and touches nothing but the page: the world it leaves differs
    from the one before only by warnings and messages shown, so no function
    of the store, the registry or the vector store has run; the document
    list and the session id are what they were, and the transcript is the
    one the session held (or the greeting of a new session). *)
Theorem idle_run_changes_nothing (inp : AppInput) (ss : Session) (w : World)
    (documents : list DocRow) :
  db_initialized w = true ->
  ss_documents ss = Some (Some documents) ->
  si_uploaded_file (ai_sidebar inp) = None
  \/ si_upload_clicked (ai_sidebar inp) = false ->
  si_refresh_clicked (ai_sidebar inp) = false ->
  si_delete_clicked (ai_sidebar inp) = false ->
  ci_prompt (ai_chat inp) = None ->
  let run := streamlit_app inp in
  ui_outcome run ss w = Ok Finished
  /\ (exists evs,
        ui_after run ss w = set_trace (trace w ++ evs) w
        /\ Forall shows_only evs)
  /\ ss_documents (ui_session run ss w) = Some (Some documents)
  /\ ss_messages (ui_session run ss w)
     = Some (default [app_greeting] (ss_messages ss))
  /\ (forall v,
        ss_session_id ss = Some v ->
        ss_session_id (ui_session run ss w) = Some v).
Proof.
  intros Hg Hdocs Hup Hre Hdel Hp run.
  set (ss1 := setdefault ss_session_id set_ss_session_id (ai_uuid inp)
                (setdefault ss_messages set_ss_messages [app_greeting] ss)).
  set (ss2 := match selectbox model_options
                      (si_model_choice (ai_sidebar inp)) with
              | Some selected_model => set_ss_model selected_model
              | None => fun s => s
              end
                (set_ss_groq_api_key (si_groq_key_input (ai_sidebar inp))
                   (set_ss_nomic_api_key (si_nomic_key_input (ai_sidebar inp))
                      (setdefault ss_groq_api_key set_ss_groq_api_key ""
                         (setdefault ss_nomic_api_key set_ss_nomic_api_key
                            "" ss1))))).
  set (evs1 := (if truthy_str (si_nomic_key_input (ai_sidebar inp))
                then [] else [StWarning])
               ++ (if truthy_str (si_groq_key_input (ai_sidebar inp))
                   then [] else [StWarning])).
  set (w2 := set_trace (trace w ++ evs1) w).
  assert (Hdocs2 : ss_documents ss2 = Some (Some documents)).
  { unfold ss2, ss1, setdefault.
    destruct (selectbox _ _), ss as [[] [] ? [] [] ?]; cbn in *;
      exact Hdocs. }
  assert (Hmsgs2 : ss_messages ss2
                   = Some (default [app_greeting] (ss_messages ss))).
  { unfold ss2, ss1, setdefault.
    destruct (selectbox _ _), ss as [[] [] ? [] [] ?]; reflexivity. }
  assert (Hsid2 : forall v, ss_session_id ss = Some v ->
                            ss_session_id ss2 = Some v).
  { intros v. unfold ss2, ss1, setdefault.
    destruct (selectbox _ _), ss as [[] [] ? [] [] ?]; cbn;
      (exact (fun H => H) || discriminate). }
  set (ss3 := setdefault ss_messages set_ss_messages [chat_greeting]
                (setdefault ss_session_id set_ss_session_id
                   (ci_uuid (ai_chat inp))
                   (setdefault ss_model set_ss_model "llama-3.1-8b-instant"
                      (setdefault ss_groq_api_key set_ss_groq_api_key ""
                         (setdefault ss_nomic_api_key set_ss_nomic_api_key
                            "" ss2))))).
  set (w3 := set_trace
               (trace w2
                ++ map Displayed (default [chat_greeting] (ss_messages ss2)))
               w2).
  assert (Hrun : run ss w = (Ok Finished, ss3, w3)).
  { unfold run, streamlit_app.
    assert (Hinit : call (initialize_or_report (ai_init inp)) ss w
                    = (Ok true, ss, w)).
    { unfold call, initialize_or_report, ensure_db_initialized, try_except,
        bind. now rewrite (initialize_skips _ _ Hg). }
    rewrite (ui_bind_run _ _ _ _ _ _ _ Hinit). cbn [negb].
    unfold ui_bind at 1, init_key at 1. unfold ui_bind at 1, init_key at 1.
    fold ss1. unfold display_sidebar.
    unfold ui_bind at 1.
    rewrite (ui_bind_run _ _ _ _ _ _ _
               (sidebar_settings_run (ai_sidebar inp) ss1 w)).
    fold ss2 evs1 w2.
    rewrite (ui_bind_run _ _ _ _ _ _ _
               (sidebar_documents_idle (ai_sidebar inp) ss2 w2 documents
                  Hup Hre Hdocs2)).
    rewrite (sidebar_delete_idle (ai_sidebar inp) ss2 w2 _ Hdel Hdocs2).
    rewrite (ui_bind_run _ _ _ _ _ _ _
               (display_chat_interface_idle (ai_chat inp) ss2 w2 Hp)).
    reflexivity. }
  unfold ui_outcome, ui_after, ui_session. rewrite Hrun. cbn [fst snd].
  split; [reflexivity|]. split; [|split; [|split]].
  - exists (evs1 ++ map Displayed (default [chat_greeting] (ss_messages ss2))).
    split; [unfold w3, w2; apply set_trace_twice|].
    apply Forall_app. split;
      [apply Forall_shows_only_warnings | apply Forall_shows_only_displayed].
  - unfold ss3, setdefault.
    destruct ss2 as [[] [] [] [] [] ?]; cbn in *; exact Hdocs2.
  - unfold ss3, setdefault. rewrite <- Hmsgs2.
    destruct ss2 as [[] [] [] [] [] ?]; cbn in *;
      (reflexivity || discriminate).
  - intros v Hv. specialize (Hsid2 v Hv). unfold ss3, setdefault.
    destruct ss2 as [[] [] [] [] [] ?]; cbn in *;
      (exact Hsid2 || discriminate).
Qed.

Lemma idle_run_changes_nothing_witness :
  ui_outcome (streamlit_app idle_input) session_with_list world_a_pdf
  = Ok Finished
  /\ ss_documents
       (ui_session (streamlit_app idle_input) session_with_list world_a_pdf)
     = ss_documents session_with_list.
Proof.
  assert (Hg : db_initialized world_a_pdf = true) by (vm_compute; reflexivity).
  destruct (idle_run_changes_nothing idle_input session_with_list world_a_pdf
              _ Hg eq_refl (or_introl eq_refl) eq_refl eq_refl eq_refl)
    as (H1 & _ & H2 & _).
  split; [exact H1 | exact H2].
Defined.

Lemma sidebar_rest_keeps_session (P : Session -> Prop) (inp : SidebarInput) :
  (forall v ss, P ss -> P (set_ss_documents v ss)) ->
  ui_keeps (fun ss _ => P ss)
    (ui_bind (sidebar_documents inp) (fun _ => sidebar_delete inp)).
Proof.
  intros HP.
  repeat first
    [ apply ui_keeps_ret | apply ui_keeps_read | apply ui_keeps_has_key
    | apply ui_keeps_bind; [|intros ?]
    | apply ui_keeps_assign; intros ? ? ?; now apply HP
    | apply ui_keeps_call; intros ? ? H; exact H
    | match goal with
      | |- ui_keeps _ (let _ := _ in _) => cbv zeta
      | |- ui_keeps _ (match ?x with _ => _ end) => destruct x
      | |- ui_keeps _ ?c => let h := head_of c in unfold h
      end ].
Qed.

(** X18. What the user typed and picked in the sidebar is stored before
    anything else of the run can fail: whatever the run of
    [display_sidebar] does afterwards, also when an exception ends it, the
    session holds the two keys as typed and one of the two models, and its
    transcript and session id are what they were. *)
Theorem sidebar_stores_what_was_typed (inp : SidebarInput) (ss : Session)
    (w : World) :
  let ss' := ui_session (display_sidebar inp) ss w in
  ss_nomic_api_key ss' = Some (si_nomic_key_input inp)
  /\ ss_groq_api_key ss' = Some (si_groq_key_input inp)
  /\ (exists selected_model,
        selected_model ∈ model_options /\ ss_model ss' = Some selected_model)
  /\ ss_messages ss' = ss_messages ss
  /\ ss_session_id ss' = ss_session_id ss.
Proof.
  set (P := fun s : Session =>
              ss_nomic_api_key s = Some (si_nomic_key_input inp)
              /\ ss_groq_api_key s = Some (si_groq_key_input inp)
              /\ (exists selected_model,
                    selected_model ∈ model_options
                    /\ ss_model s = Some selected_model)
              /\ ss_messages s = ss_messages ss
              /\ ss_session_id s = ss_session_id ss).
  change (P (ui_session (display_sidebar inp) ss w)).
  unfold display_sidebar, ui_session.
  rewrite (ui_bind_run _ _ _ _ _ _ _ (sidebar_settings_run inp ss w)).
  apply (sidebar_rest_keeps_session P inp).
  - intros v s H. exact H.
  - unfold P, setdefault, selectbox, model_options.
    destruct (si_model_choice inp) as [|[|n]], ss as [[] [] ? ? ? ?]; cbn;
      repeat split; try reflexivity; eexists; (split; [|reflexivity]);
      set_solver.
Qed.

Lemma handle_prompt_at_most_two (env : ChatEnv) (prompt session_id
    selected_model nomic_api_key groq_api_key : string) (w : World)
    (msgs : list Message) :
  outcome (handle_prompt env prompt session_id selected_model nomic_api_key
             groq_api_key) w = Ok msgs ->
  length msgs <= 2.
Proof.
  intros Hout.
  destruct (truthy_str nomic_api_key) eqn:Hn;
    [destruct (truthy_str groq_api_key) eqn:Hg|].
  - assert (Hrun := run_eta (handle_prompt env prompt session_id
                               selected_model nomic_api_key groq_api_key) w).
    rewrite Hout in Hrun.
    destruct (handle_prompt_inv _ _ _ _ _ _ _ _ _ Hn Hg Hrun)
      as [[-> _] | (answer & -> & _)]; cbn; lia.
  - unfold handle_prompt in Hout. rewrite Hg, orb_true_r in Hout.
    injection Hout as <-. cbn. lia.
  - unfold handle_prompt in Hout. rewrite Hn in Hout.
    injection Hout as <-. cbn. lia.
Qed.

(** X19. [display_chat_interface] never raises, and the transcript of the
    session only grows: afterwards it is the transcript from before (the
    greeting, for a session without one) followed by at most two messages,
    the prompt and its answer.  The keys, the model and the session id are
    set afterwards, and one that was set keeps its value. *)
Theorem chat_page_only_appends (inp : ChatInput) (ss : Session) (w : World) :
  let run := display_chat_interface inp in
  let ss' := ui_session run ss w in
  ui_outcome run ss w = Ok tt
  /\ (exists appended,
        ss_messages ss'
        = Some (default [chat_greeting] (ss_messages ss) ++ appended)
        /\ length appended <= 2)
  /\ ss_nomic_api_key ss' = Some (default "" (ss_nomic_api_key ss))
  /\ ss_groq_api_key ss' = Some (default "" (ss_groq_api_key ss))
  /\ ss_model ss' = Some (default "llama-3.1-8b-instant" (ss_model ss))
  /\ ss_session_id ss' = Some (default (ci_uuid inp) (ss_session_id ss))
  /\ ss_documents ss' = ss_documents ss.
Proof.
  intros run ss'. unfold ss', run, display_chat_interface, setdefault.
  destruct ss as [n g m s msgs d].
  destruct (ci_prompt inp) as [prompt|];
    [destruct (truthy_str prompt) eqn:Hp|].
  2,3: destruct n, g, m, s, msgs; ui_run; rewrite ?display_messages_run;
       cbn; (split; [reflexivity|]);
       (split; [exists []; split; [now rewrite ?app_nil_r | cbn; lia]|]);
       repeat split; reflexivity.
  remember (handle_prompt (ci_env inp) prompt) as handle eqn:Hhandle.
  destruct n, g, m, s, msgs; ui_run; rewrite ?display_messages_run; cbn;
    subst handle;
    match goal with
    | |- context [handle_prompt ?e ?p ?s ?m ?n ?g ?w0] =>
        destruct (handle_prompt_returns e p s m n g w0) as [appended Ha];
        pose proof (handle_prompt_at_most_two e p s m n g w0 appended Ha);
        unfold outcome in Ha;
        destruct (handle_prompt e p s m n g w0) as [[a|ex] w1];
        cbn in Ha; [injection Ha as ->|discriminate]
    end; cbn; (split; [reflexivity|]);
    (split; [now exists appended|]); repeat split; reflexivity.
Qed.

(** ** An upload that succeeds, a delete that succeeds *)

(** The [try] statement of an upload whose registration returns [file_id]
    and whose indexing returns [indexing_success]. *)
Lemma register_and_index_returned (env : UploadEnv)
    (name temp_file_path nomic_api_key : string) (ws : World)
    (file_id : nat) (indexing_success : bool) :
  let register := insert_document_record (ue_insert env) name in
  let index := index_document_to_chroma (ue_index env) temp_file_path file_id
                 nomic_api_key in
  outcome register ws = Ok file_id ->
  outcome index (after register ws) = Ok indexing_success ->
  register_and_index env name temp_file_path nomic_api_key ws
  = (Ok (Some file_id, indexing_success),
     after (remove_temp_file temp_file_path)
       (after index (after register ws))).
Proof.
  intros register index Hreg Hidx.
  destruct (insert_document_record_ok_inv _ _ _ _ Hreg)
    as (rows & _ & _ & Hid & _).
  assert (Ht : truthy_int file_id = true) by (rewrite Hid; reflexivity).
  pose proof (run_eta register ws) as Hr. rewrite Hreg in Hr.
  pose proof (run_eta index (after register ws)) as Hi. rewrite Hidx in Hi.
  pose proof (run_eta (remove_temp_file temp_file_path)
                (after index (after register ws))) as Hf.
  rewrite remove_temp_file_returns in Hf.
  unfold register_and_index. fold register.
  unfold try_finally, try_except, bind. rewrite Hr.
  cbv beta iota delta [ret]. rewrite Ht. fold index. rewrite Hi.
  cbv beta iota. rewrite Hf. reflexivity.
Qed.

Lemma insert_document_record_keeps_collection (f : SqlFault)
    (filename : string) :
  stable (keeps collection) (insert_document_record f filename).
Proof. stable_tac. Qed.

Lemma remove_temp_file_keeps_collection (temp_file_path : string) :
  stable (keeps collection) (remove_temp_file temp_file_path).
Proof. stable_tac. Qed.

Lemma get_all_documents_keeps_collection (f : SqlFault) :
  stable (keeps collection) (get_all_documents f).
Proof. stable_tac. Qed.



(** X21. A delete that succeeds removes the document from both stores:
    when [delete_doc_from_chroma] returned [True], the registry delete
    meets no fault and the selected id fits 64 bits (as the id of every
    listed document does), the document table has lost the rows with the selected
    id and no other, the collection has lost the chunks tagged with it and
    no other, and the success message is shown; without a fault of the
    refresh, no document of the list the click stores has the id. *)
Theorem deleted_document_is_gone (env : RemoveEnv) (selected_file_id : nat)
    (nomic_api_key : string) (w : World) (rows : list DocRow) :
  truthy_str nomic_api_key = true ->
  document_store (database w) = Some rows ->
  outcome (delete_doc_from_chroma (re_chroma env) selected_file_id
             nomic_api_key) w = Ok true ->
  re_registry env = NoFault ->
  fits_int64 selected_file_id = true ->
  let click := delete_selected_document env selected_file_id nomic_api_key in
  let w' := after click w in
  document_store (database w')
  = Some (filter (fun r => doc_id r <> selected_file_id) rows)
  /\ collection w'
     = filter (fun d => metadata d !! "file_id"
                        <> Some (pretty selected_file_id)) (collection w)
  /\ StSuccess ∈ events_since w w'
  /\ (re_refresh env = NoFault ->
      exists docs,
        outcome click w = Ok (Some docs)
        /\ Forall (fun r => doc_id r <> selected_file_id) docs).
Proof.
  intros Hkey Hs Hchroma Hreg Hfits click w'.
  set (chroma := delete_doc_from_chroma (re_chroma env) selected_file_id
                   nomic_api_key) in *.
  set (wc := after chroma w).
  assert (Hc : chroma w = (Ok true, wc))
    by (rewrite (run_eta chroma w); now rewrite Hchroma).
  assert (Hdbc : database wc = database w)
    by apply delete_doc_from_chroma_keeps_database.
  assert (Hcolc : collection wc
                  = filter (fun d => metadata d !! "file_id"
                                     <> Some (pretty selected_file_id))
                      (collection w)).
  { destruct (delete_doc_from_chroma_cases (re_chroma env) selected_file_id
                nomic_api_key w) as [[_ H] | [H _]]; [exact H|].
    now contradiction H. }
  set (registry := delete_document_record NoFault selected_file_id).
  set (wd := after registry wc).
  assert (Hd : registry wc = (Ok true, wd)).
  { rewrite (run_eta registry wc). unfold registry.
    now rewrite delete_document_record_outcome, Hdbc, Hs, Hfits. }
  assert (Hdbd : document_store (database wd)
                 = Some (filter (fun r => doc_id r <> selected_file_id) rows)).
  { unfold wd, registry.
    now rewrite delete_document_record_database, Hdbc, Hs, Hfits. }
  assert (Hcold : collection wd = collection wc).
  { assert (Hst : stable (keeps collection) registry)
      by (unfold registry; stable_tac).
    apply Hst. }
  set (we := set_trace (trace wd ++ [StSuccess]) wd).
  assert (Hrun : click w
                 = bind (get_all_documents (re_refresh env))
                     (fun documents => ret (Some documents)) we).
  { unfold click, delete_selected_document. rewrite Hkey. cbn [negb].
    fold chroma. rewrite (run_bind_ok _ _ _ _ _ Hc). cbv iota.
    rewrite Hreg. fold registry.
    assert (Hinner :
              bind registry
                (fun db_deleted =>
                   if db_deleted then emit StSuccess else emit StError) wc
              = (Ok tt, we))
      by (rewrite (run_bind_ok _ _ _ _ _ Hd); reflexivity).
    now rewrite (run_bind_ok _ _ _ _ _ Hinner). }
  set (refresh := get_all_documents (re_refresh env)) in *.
  assert (Hw' : w' = after refresh we).
  { unfold w', after at 1. rewrite Hrun. unfold after, bind.
    now destruct (refresh we) as [[docs|e] w1]. }
  assert (Hdb' : database w' = database wd).
  { rewrite Hw'. transitivity (database we); [|reflexivity].
    apply get_all_documents_keeps_database. }
  split; [now rewrite Hdb'|]. split; [|split].
  - rewrite Hw'. unfold refresh.
    rewrite (get_all_documents_keeps_collection _ we).
    change (collection we) with (collection wd). now rewrite Hcold.
  - assert (H1 : emits (fun _ => True) w wc)
      by apply delete_doc_from_chroma_appends.
    assert (H2 : emits (fun _ => True) wc wd)
      by apply delete_document_record_appends.
    assert (H3 : emits (fun _ => True) we w')
      by (rewrite Hw'; apply get_all_documents_appends).
    destruct H1 as (e1 & He1 & _), H2 as (e2 & He2 & _),
      H3 as (e3 & He3 & _).
    unfold events_since. rewrite He3. unfold we. cbn [trace set_trace].
    rewrite He2, He1, <- !app_assoc, drop_app_length.
    cbn [app]. rewrite !elem_of_app, elem_of_cons. tauto.
  - intros Hnf. unfold outcome. rewrite Hrun.
    assert (Hout : outcome refresh we
                   = Ok (order_by
                           (fun a b => doc_upload_timestamp b
                                       <=? doc_upload_timestamp a)%nat
                           (filter (fun r => doc_id r <> selected_file_id)
                              rows))).
    { unfold refresh. rewrite get_all_documents_outcome, Hnf.
      unfold list_documents_result.
      change (database we) with (database wd). now rewrite Hdbd. }
    pose proof (run_eta refresh we) as Hr. rewrite Hout in Hr.
    rewrite (run_bind_ok _ _ _ _ _ Hr). eexists. split; [reflexivity|].
    apply Forall_forall. intros r Hr'.
    rewrite order_by_Permutation in Hr'.
    now apply list_elem_of_filter in Hr' as [Hne _].
Qed.

Lemma deleted_document_is_gone_witness :
  document_store
    (database (after (delete_selected_document remove_env_ok 1 "nomic-key")
                 world_indexed))
  = Some []
  /\ collection (after (delete_selected_document remove_env_ok 1 "nomic-key")
                   world_indexed)
     = [].
Proof.
  assert (Hs : document_store (database world_indexed)
               = Some [ {| doc_id := 1; doc_filename := "a.pdf";
                           doc_upload_timestamp := 0 |} ])
    by (vm_compute; reflexivity).
  assert (Hc : outcome (delete_doc_from_chroma (re_chroma remove_env_ok) 1
                          "nomic-key") world_indexed = Ok true)
    by (vm_compute; reflexivity).
  destruct (deleted_document_is_gone remove_env_ok 1 "nomic-key"
              world_indexed _ eq_refl Hs Hc eq_refl eq_refl)
    as (H1 & H2 & _).
  split; [exact H1|]. rewrite H2. vm_compute. reflexivity.
Defined.

(** *** The readiness check *)

Lemma get_vector_store_keeps_embedding_cache (o : ChromaOutcome)
    (emb : option Embeddings) :
  stable (keeps (fun w => embedding_cache (caches w)))
    (get_vector_store o emb).
Proof. stable_tac. Qed.

Lemma get_embedding_function_keeps_settings (o : Outcome) (k : EmbKey) :
  stable (keeps (fun w => (NOMIC_MODEL_NAME w, NOMIC_DIMENSIONALITY w)))
    (get_embedding_function o k).
Proof. stable_tac. Qed.

Lemma get_vector_store_keeps_settings (o : ChromaOutcome)
    (emb : option Embeddings) :
  stable (keeps (fun w => (NOMIC_MODEL_NAME w, NOMIC_DIMENSIONALITY w)))
    (get_vector_store o emb).
Proof. stable_tac. Qed.

(** The readiness check by its parts. *)
Lemma is_vectorstore_ready_run (oe : Outcome) (oc : ChromaOutcome)
    (nomic_api_key : string) (w : World) :
  let k := (nomic_api_key, NOMIC_MODEL_NAME w, NOMIC_DIMENSIONALITY w) in
  let w1 := after (get_embedding_function oe k) w in
  exists emb_func vs,
    get_embedding_function oe k w = (Ok emb_func, w1)
    /\ get_vector_store oc emb_func w1
       = (Ok vs, after (get_vector_store oc emb_func) w1)
    /\ is_vectorstore_ready oe oc nomic_api_key w
       = (match fst (truthy_vs vs w) with
          | Ok _ => Ok (bool_decide (emb_func ≠ None)
                        && bool_decide (vs ≠ None))
          | Raise e => Raise e
          end, after (get_vector_store oc emb_func) w1).
Proof.
  cbv zeta.
  destruct (get_embedding_function_returns oe
              (nomic_api_key, NOMIC_MODEL_NAME w, NOMIC_DIMENSIONALITY w) w)
    as [emb_func He].
  set (w1 := after (get_embedding_function oe
                      (nomic_api_key, NOMIC_MODEL_NAME w,
                       NOMIC_DIMENSIONALITY w)) w) in *.
  destruct (get_vector_store_returns oc emb_func w1) as [vs Hv].
  exists emb_func, vs. split; [exact He|]. split; [exact Hv|].
  unfold is_vectorstore_ready, bind at 1 2 3, get at 1 2.
  rewrite He. unfold bind at 1. rewrite Hv.
  set (w2 := after (get_vector_store oc emb_func) w1).
  assert (Hcol : forall u u', collection u = collection u' ->
            fst (truthy_vs vs u) = fst (truthy_vs vs u')
            /\ snd (truthy_vs vs u) = u).
  { intros u u' Hc. destruct vs as [v|]; cbn; [|done].
    rewrite !truthy_Chroma_run. cbn. now rewrite Hc. }
  assert (Hc : collection w2 = collection w).
  { transitivity (collection w1).
    - apply get_vector_store_keeps_collection.
    - apply get_embedding_function_keeps_collection. }
  destruct (Hcol w2 w Hc) as [Hf Hs]. rewrite <- Hf.
  unfold bind, ret. destruct (truthy_vs vs w2) as [[b|e] w3] eqn:Ht;
    cbn in Hs |- *; now subst.
Qed.

(** X22. The answer of the readiness check is permanent: once
    [is_vectorstore_ready] has returned, every later check with the same key
    returns the same answer from the two caches, whatever the libraries
    would do now, and changes nothing at all; the check itself changes
    neither the database nor the collection.  After the answer [True] both
    getters hold an object: a later [get_embedding_function] with the key
    and a later [get_vector_store] return them without running their
    bodies. *)
Theorem readiness_answer_is_permanent (oe oe' : Outcome)
    (oc oc' : ChromaOutcome) (nomic_api_key : string) (w : World)
    (ready : bool) :
  outcome (is_vectorstore_ready oe oc nomic_api_key) w = Ok ready ->
  let w' := after (is_vectorstore_ready oe oc nomic_api_key) w in
  is_vectorstore_ready oe' oc' nomic_api_key w' = (Ok ready, w')
  /\ database w' = database w
  /\ collection w' = collection w
  /\ (ready = true ->
      exists emb vs,
        get_embedding_function oe'
          (nomic_api_key, NOMIC_MODEL_NAME w', NOMIC_DIMENSIONALITY w') w'
        = (Ok (Some emb), w')
        /\ forall client, get_vector_store oc' client w' = (Ok (Some vs), w')).
Proof.
  intros Hout w'.
  destruct (is_vectorstore_ready_run oe oc nomic_api_key w)
    as (emb_func & vs & He & Hv & Hrun).
  set (k := (nomic_api_key, NOMIC_MODEL_NAME w, NOMIC_DIMENSIONALITY w))
    in *.
  set (w1 := after (get_embedding_function oe k) w) in *.
  assert (Hw' : w' = after (get_vector_store oc emb_func) w1).
  { unfold w', after at 1. now rewrite Hrun. }
  unfold outcome in Hout. rewrite Hrun in Hout. cbn [fst] in Hout.
  rewrite <- Hw' in Hv, Hrun.
  assert (Hset : (NOMIC_MODEL_NAME w', NOMIC_DIMENSIONALITY w')
                 = (NOMIC_MODEL_NAME w, NOMIC_DIMENSIONALITY w)).
  { rewrite Hw'. etransitivity.
    - apply get_vector_store_keeps_settings.
    - apply get_embedding_function_keeps_settings. }
  injection Hset as Hm Hd.
  assert (Hc : collection w' = collection w).
  { rewrite Hw'. transitivity (collection w1).
    - apply get_vector_store_keeps_collection.
    - apply get_embedding_function_keeps_collection. }
  assert (He' : forall o, get_embedding_function o k w' = (Ok emb_func, w')).
  { intros o. apply (cache_resource_hit embedding_cache put_embedding_cache).
    rewrite Hw'.
    rewrite (get_vector_store_keeps_embedding_cache oc emb_func w1).
    exact (cache_resource_stored embedding_cache put_embedding_cache
             (fun _ _ => eq_refl) k _ w w1 emb_func He). }
  assert (Hv' : forall o client, get_vector_store o client w' = (Ok vs, w')).
  { intros o client.
    exact (get_vector_store_first_result oc o emb_func client w1 w' vs Hv). }
  split; [|split; [|split]].
  - destruct (is_vectorstore_ready_run oe' oc' nomic_api_key w')
      as (emb2 & vs2 & He2 & Hv2 & Hrun2).
    rewrite Hm, Hd in He2, Hv2, Hrun2. fold k in He2, Hv2, Hrun2.
    rewrite (He' oe') in He2. injection He2 as <- Hw2.
    rewrite <- Hw2 in Hv2, Hrun2.
    rewrite (Hv' oc' emb_func) in Hv2. injection Hv2 as <- Hw3.
    rewrite <- Hw3 in Hrun2. rewrite Hrun2.
    assert (Ht : fst (truthy_vs vs w') = fst (truthy_vs vs w)).
    { destruct vs as [v|]; cbn; [|done].
      rewrite !truthy_Chroma_run. cbn. now rewrite Hc. }
    rewrite Ht. destruct (fst (truthy_vs vs w)); [|discriminate].
    now injection Hout as <-.
  - rewrite Hw'. transitivity (database w1).
    + apply get_vector_store_keeps_database.
    + apply get_embedding_function_keeps_database.
  - exact Hc.
  - intros ->. destruct (fst (truthy_vs vs w)); [|discriminate].
    injection Hout as Hb. apply andb_true_iff in Hb as [Hb1 Hb2].
    apply bool_decide_eq_true in Hb1, Hb2.
    destruct emb_func as [emb|]; [|done]. destruct vs as [v|]; [|done].
    exists emb, v. rewrite Hm, Hd. fold k. split; [apply He'|].
    intros client. apply Hv'.
Qed.

Lemma readiness_answer_is_permanent_witness :
  outcome (is_vectorstore_ready Succeeds chroma_ok "nomic-key") world_ready
  = Ok true
  /\ (let w' := after (is_vectorstore_ready Succeeds chroma_ok "nomic-key")
                  world_ready in
      is_vectorstore_ready (Fails OtherException)
        {| co_makedirs := Fails OtherException;
           co_constructor := Fails OtherException;
           co_collection := false; co_len := false |} "nomic-key" w'
      = (Ok true, w')).
Proof.
  assert (H : outcome (is_vectorstore_ready Succeeds chroma_ok "nomic-key")
                world_ready = Ok true) by (vm_compute; reflexivity).
  split; [exact H|].
  exact (proj1 (readiness_answer_is_permanent Succeeds
                  (Fails OtherException) chroma_ok
                  {| co_makedirs := Fails OtherException;
                     co_constructor := Fails OtherException;
                     co_collection := false; co_len := false |}
                  "nomic-key" world_ready true H)).
Defined.

(** ** [get_requirements] *)

Lemma str_lstrip_app (a b : pystr) :
  str_lstrip (a ++ b)
  = if forallb str_isspace a then str_lstrip b else str_lstrip a ++ b.
Proof.
  induction a as [|c a IH]; cbn; [reflexivity|].
  destruct (str_isspace c); cbn; [exact IH | reflexivity].
Qed.

Lemma str_lstrip_elem_of (s : pystr) (x : N) : x ∈ str_lstrip s -> x ∈ s.
Proof.
  induction s as [|c s IH]; cbn; [done|].
  destruct (str_isspace c); [|done]. intros H. right. now apply IH.
Qed.

Lemma str_lstrip_head (s : pystr) (c : N) :
  head (str_lstrip s) = Some c -> str_isspace c = false.
Proof.
  induction s as [|x s IH]; cbn; [discriminate|].
  destruct (str_isspace x) eqn:Hx; [exact IH|]. cbn. now intros [= <-].
Qed.

Lemma str_lstrip_id (s : pystr) :
  (forall c, head s = Some c -> str_isspace c = false) -> str_lstrip s = s.
Proof.
  destruct s as [|c s]; cbn; [reflexivity|]. intros H.
  now rewrite (H c eq_refl).
Qed.

Lemma str_lstrip_nil_or (s : pystr) :
  str_lstrip s = [] \/ exists c, head (str_lstrip s) = Some c.
Proof. destruct (str_lstrip s) as [|c l]; cbn; eauto. Qed.

Lemma str_rstrip_elem_of (s : pystr) (x : N) : x ∈ str_rstrip s -> x ∈ s.
Proof.
  unfold str_rstrip. rewrite !list_elem_of_In, <- in_rev, <- !list_elem_of_In.
  intros H. apply str_lstrip_elem_of in H.
  now rewrite list_elem_of_In, <- in_rev, <- list_elem_of_In in H.
Qed.

Lemma last_rev_head {A} (l : list A) : last (rev l) = head l.
Proof. rewrite rev_alt. apply last_reverse. Qed.

Lemma str_rstrip_last (s : pystr) (c : N) :
  last (str_rstrip s) = Some c -> str_isspace c = false.
Proof.
  unfold str_rstrip. rewrite last_rev_head. apply str_lstrip_head.
Qed.

Lemma str_rstrip_id (s : pystr) :
  (forall c, last s = Some c -> str_isspace c = false) -> str_rstrip s = s.
Proof.
  intros H. unfold str_rstrip. rewrite str_lstrip_id; [apply rev_involutive|].
  intros c Hc. apply H. rewrite <- (rev_involutive s), last_rev_head. exact Hc.
Qed.

Lemma str_rstrip_snoc (s : pystr) (c : N) :
  str_isspace c = true -> str_rstrip (s ++ [c]) = str_rstrip s.
Proof.
  intros Hc. unfold str_rstrip. rewrite rev_app_distr. cbn. now rewrite Hc.
Qed.

(** The head of what [rstrip] leaves is the head of the string. *)
Lemma str_rstrip_head (s : pystr) (c : N) :
  head (str_rstrip s) = Some c -> head s = Some c.
Proof.
  induction s as [|x s IH] using rev_ind; [done|].
  destruct (str_isspace x) eqn:Hx.
  - rewrite (str_rstrip_snoc s x Hx). intros H. specialize (IH H).
    destruct s; [discriminate | exact IH].
  - rewrite str_rstrip_id; [done|].
    intros c'. rewrite last_snoc. now intros [= <-].
Qed.

Lemma str_strip_elem_of (s : pystr) (x : N) : x ∈ str_strip s -> x ∈ s.
Proof.
  unfold str_strip. intros H.
  now apply str_lstrip_elem_of, str_rstrip_elem_of.
Qed.

(** A stripped string has no space at either end. *)
Lemma str_strip_ends (s : pystr) (c : N) :
  head (str_strip s) = Some c \/ last (str_strip s) = Some c ->
  str_isspace c = false.
Proof.
  unfold str_strip. intros [H|H].
  - apply (str_lstrip_head s), str_rstrip_head, H.
  - exact (str_rstrip_last _ c H).
Qed.

Lemma str_strip_id (s : pystr) :
  (forall c, head s = Some c \/ last s = Some c -> str_isspace c = false) ->
  str_strip s = s.
Proof.
  intros H. unfold str_strip.
  rewrite str_lstrip_id by (intros c Hc; apply H; now left).
  apply str_rstrip_id. intros c Hc. apply H. now right.
Qed.

(** The line feed that ends a line is stripped with the rest. *)
Lemma str_strip_line (l : pystr) : str_strip (l ++ [10%N]) = str_strip l.
Proof.
  unfold str_strip. rewrite str_lstrip_app.
  destruct (forallb str_isspace l) eqn:Hall.
  - cbn. pose proof (str_lstrip_app l []) as H. rewrite Hall in H.
    rewrite app_nil_r in H. cbn in H. now rewrite H.
  - now apply str_rstrip_snoc.
Qed.

Lemma universal_newlines_no_cr (t : list N) : 13%N ∉ universal_newlines t.
Proof.
  cut (forall n t, length t <= n -> 13%N ∉ universal_newlines t).
  { intros Hn. exact (Hn (length t) t (le_n _)). }
  clear t. induction n as [|n IH]; intros [|c t] Hlen; cbn in Hlen |- *;
    try apply not_elem_of_nil; [lia|].
  destruct (N.eqb_spec c 13%N) as [->|Hc].
  - apply not_elem_of_cons. split; [lia|].
    destruct t as [|c' t]; [apply not_elem_of_nil|].
    destruct (N.eq_dec c' 10%N) as [->|Hc'].
    + apply IH. cbn in Hlen. lia.
    + assert (Heq : match c' with
                    | 10%N => universal_newlines t
                    | _ => universal_newlines (c' :: t)
                    end = universal_newlines (c' :: t)).
      { destruct c' as [|p]; [reflexivity|].
        do 4 (destruct p as [p|p|]; try reflexivity). congruence. }
      rewrite Heq. apply IH. lia.
  - apply not_elem_of_cons. split; [congruence|]. apply IH. lia.
Qed.

Lemma universal_newlines_id (t : list N) :
  13%N ∉ t -> universal_newlines t = t.
Proof.
  induction t as [|c t IH]; [reflexivity|].
  intros [Hc Ht]%not_elem_of_cons. cbn.
  destruct (N.eqb_spec c 13%N) as [->|_]; [done|]. now rewrite IH.
Qed.

Lemma universal_newlines_elem_of (t : list N) (x : N) :
  x ∈ universal_newlines t -> x ∈ t \/ x = 10%N.
Proof.
  cut (forall n t, length t <= n ->
         x ∈ universal_newlines t -> x ∈ t \/ x = 10%N).
  { intros Hn. exact (Hn (length t) t (le_n _)). }
  clear t. induction n as [|n IH]; intros [|c t] Hlen; cbn in Hlen |- *;
    try (now intros ?%elem_of_nil); [lia|].
  destruct (N.eqb_spec c 13%N) as [->|Hc].
  - intros [->|Hx]%elem_of_cons; [now right|].
    destruct t as [|c' t]; [now apply elem_of_nil in Hx|].
    assert (Hx' : x ∈ universal_newlines t \/ x ∈ universal_newlines (c' :: t)).
    { destruct c' as [|p]; [now right|].
      do 4 (destruct p as [p|p|]; try (now right)). now left. }
    destruct Hx' as [Hx'|Hx'].
    + destruct (IH t ltac:(cbn in Hlen; lia) Hx') as [?|?]; [left|now right].
      now do 2 right.
    + destruct (IH (c' :: t) ltac:(lia) Hx') as [?|?]; [left|now right].
      now right.
  - intros [->|Hx]%elem_of_cons; [left; now left|].
    destruct (IH t ltac:(lia) Hx) as [?|?]; [left; now right | now right].
Qed.

(** A line is free of line feeds but for the one that ends it. *)
Lemma file_lines_shape (t : list N) :
  Forall (fun line => exists l, (line = l ++ [10%N] \/ line = l)
                                /\ (10%N ∉ l) /\ forall x, x ∈ l -> x ∈ t)
    (file_lines t).
Proof.
  induction t as [|c t IH]; cbn; [constructor|].
  destruct (N.eqb_spec c 10%N) as [->|Hc].
  - constructor.
    + exists []. split; [now left|]. split; [apply not_elem_of_nil|].
      now intros x ?%elem_of_nil.
    + eapply Forall_impl; [exact IH|].
      intros line (l & Hl & Hn & Hin). exists l. split; [exact Hl|].
      split; [exact Hn|]. intros x Hx. right. now apply Hin.
  - destruct (file_lines t) as [|line rest].
    + constructor; [|constructor]. exists [c]. split; [now right|].
      split; [apply not_elem_of_cons; split; [congruence|apply not_elem_of_nil]|].
      intros x ->%list_elem_of_singleton. now left.
    + apply Forall_cons in IH as [(l & Hl & Hn & Hin) IH]. constructor.
      * exists (c :: l). split; [destruct Hl as [->| ->]; [now left|now right]|].
        split; [now apply not_elem_of_cons|].
        intros x [->|Hx]%elem_of_cons; [now left|]. right. now apply Hin.
      * eapply Forall_impl; [exact IH|].
        intros line' (l' & Hl' & Hn' & Hin'). exists l'. split; [exact Hl'|].
        split; [exact Hn'|]. intros x Hx. right. now apply Hin'.
Qed.

Lemma file_lines_line (r : pystr) (rest : list N) :
  10%N ∉ r -> file_lines (r ++ 10%N :: rest) = (r ++ [10%N]) :: file_lines rest.
Proof.
  induction r as [|c r IH]; [reflexivity|].
  intros [Hc Hr]%not_elem_of_cons. cbn.
  destruct (N.eqb_spec c 10%N) as [->|_]; [done|]. now rewrite (IH Hr).
Qed.

Lemma file_lines_one_per_line (requirements : list pystr) :
  Forall (fun r => 10%N ∉ r) requirements ->
  file_lines (one_per_line requirements)
  = map (fun r => r ++ [10%N]) requirements.
Proof.
  unfold one_per_line. induction 1 as [|r rs Hr _ IH]; [reflexivity|].
  cbn [map concat]. rewrite <- app_assoc. cbn [app].
  now rewrite (file_lines_line r _ Hr), IH.
Qed.

Lemma get_requirements_readable (text : list N) :
  get_requirements (Readable text)
  = Ok (filter (fun line => is_requirement line = true)
          (map str_strip (file_lines (universal_newlines text)))).
Proof.
  unfold get_requirements. f_equal.
  generalize (file_lines (universal_newlines text)). intros lines.
  cut (forall acc : list pystr,
         foldl
           (fun requirements line =>
              if is_requirement (str_strip line)
              then requirements ++ [str_strip line] else requirements)
           acc lines
         = acc ++ filter (fun line => is_requirement line = true)
                    (map str_strip lines)).
  { intros Hacc. exact (Hacc []). }
  induction lines as [|line lines IH]; intros acc; cbn [foldl map].
  - now rewrite app_nil_r.
  - rewrite filter_cons.
    destruct (is_requirement (str_strip line)) eqn:Hk.
    + rewrite decide_True by done. rewrite IH. now rewrite <- app_assoc.
    + rewrite decide_False by congruence. apply IH.
Qed.

(** X23. [get_requirements] on a file that can be read returns, and what it
    returns is clean: every requirement is non-empty, has no white space at
    either end, starts neither with [#] nor with [-e] and contains no line
    break.  Writing the requirements back one per line and reading them
    again gives the same list. *)
Theorem requirements_round_trip (text : list N) :
  exists requirements,
    get_requirements (Readable text) = Ok requirements
    /\ Forall (fun r =>
                 r <> []
                 /\ (forall c, head r = Some c \/ last r = Some c ->
                               str_isspace c = false)
                 /\ str_startswith (str_lit "#") r = false
                 /\ str_startswith (str_lit "-e") r = false
                 /\ (10%N ∉ r) /\ (13%N ∉ r)) requirements
    /\ get_requirements (Readable (one_per_line requirements))
       = Ok requirements.
Proof.
  eexists. split; [apply get_requirements_readable|].
  set (requirements := filter _ _).
  assert (Hclean : Forall (fun r =>
                 r <> []
                 /\ (forall c, head r = Some c \/ last r = Some c ->
                               str_isspace c = false)
                 /\ str_startswith (str_lit "#") r = false
                 /\ str_startswith (str_lit "-e") r = false
                 /\ (10%N ∉ r) /\ (13%N ∉ r)) requirements).
  { apply Forall_forall. intros r Hr.
    apply list_elem_of_filter in Hr as [Hk Hr].
    apply list_elem_of_fmap in Hr as (line & -> & Hline).
    unfold is_requirement in Hk.
    apply andb_true_iff in Hk as [Hk He]. apply andb_true_iff in Hk as [Hn Hh].
    apply negb_true_iff in He, Hh.
    pose proof (file_lines_shape (universal_newlines text)) as Hshape.
    rewrite Forall_forall in Hshape.
    destruct (Hshape line Hline) as (l & Hl & Hlf & Hin).
    assert (Hs : str_strip line = str_strip l).
    { destruct Hl as [->| ->]; [apply str_strip_line | reflexivity]. }
    split; [now destruct (str_strip line)|].
    split; [apply str_strip_ends|]. split; [exact Hh|]. split; [exact He|].
    rewrite Hs. split.
    - intros Hx. now apply str_strip_elem_of in Hx.
    - intros Hx. apply str_strip_elem_of, Hin in Hx.
      now apply universal_newlines_no_cr in Hx. }
  split; [exact Hclean|].
  rewrite get_requirements_readable. f_equal.
  rewrite universal_newlines_id.
  2:{ unfold one_per_line. intros Hx.
      apply list_elem_of_In, in_concat in Hx as (x & Hx & Hin).
      apply in_map_iff in Hx as (r & <- & Hr).
      rewrite Forall_forall in Hclean.
      apply list_elem_of_In in Hr. destruct (Hclean r Hr) as (_ & _ & _ & _ & _ & Hcr).
      apply in_app_or in Hin as [Hin|[Hin|[]]]; [|discriminate].
      now apply list_elem_of_In in Hin. }
  rewrite file_lines_one_per_line
    by (eapply Forall_impl; [exact Hclean|]; now intros r (_ & _ & _ & _ & ? & _)).
  rewrite map_map.
  induction Hclean as [|r rs (Hne & Hends & Hh & He & _ & _) _ IH];
    [reflexivity|].
  cbn [map]. rewrite filter_cons, str_strip_line, (str_strip_id r Hends).
  rewrite decide_True.
  - now rewrite IH.
  - unfold is_requirement. rewrite Hh, He. now destruct r.
Qed.
